(** * Interview sessions and insight aggregation

    A shallow embedding of the session logic of [src/pages/Interview.tsx]
    ([fetchDetails], [startInterviewSession], [handleSendMessage],
    [processInsights]), of the edge functions [ai-interviewer] and
    [process-interview-insights] and of the analytics page
    ([fetchAndProcessInsights], [processDataForDisplay]).

    Conventions of the embedding.
    - JavaScript strings are [string]s of ASCII code units; [trim],
      [toLowerCase] and [includes] are the built-ins restricted to ASCII.
    - React state is a record that every handler takes and returns; the hosted
      tables are lists of rows.  The store answers a write with a value that
      says whether it was done; where the source does not look at that value
      the write may have been refused without the handler noticing.
    - Calls that leave the program (clock, text generation, the answers of the
      store) are answered by an explicit environment value given to the
      handler.
    - A request to an edge function has a method and a body that may fail to
      decode.
    - A plain object used as a dictionary is the list of its own properties in
      creation order; [Obj.entries] enumerates array-index keys first, in
      ascending numeric order, then the other keys in creation order.  A
      lookup that finds no own property finds the member of that name
      inherited from [Object.prototype], if there is one.
    - Exceptions are results: a computation that can throw returns the
      message of the exception or its value, and keeps the state it had set.
    - Counts are [nat]; numbers computed from them are IEEE 754 binary64
      numbers, with the operations of [SpecFloat].
    - [Array.prototype.sort] with a comparator that returns NaN on some pair
      of elements leaves the elements in an order chosen by the engine, which
      is a parameter. *)

From Stdlib Require Import String Ascii List Bool Arith ZArith QArith Lia.
From Stdlib Require Import Permutation Sorted DecimalString SpecFloat Qpower Lqa.
Import ListNotations.

Set Warnings "-register-all".
Local Close Scope Q_scope.
Local Open Scope string_scope.
Local Open Scope list_scope.

(** ** JavaScript built-ins used by the source *)

Module JS.

(** [String.prototype.toLowerCase] on ASCII code units. *)
Definition lower_ascii (c : ascii) : ascii :=
  let n := nat_of_ascii c in
  if (65 <=? n)%nat && (n <=? 90)%nat then ascii_of_nat (n + 32) else c.

Fixpoint toLowerCase (s : string) : string :=
  match s with
  | EmptyString => EmptyString
  | String c r => String (lower_ascii c) (toLowerCase r)
  end.

(** [s.includes(pat)]: [pat] occurs in [s] at some position. *)
Fixpoint includes (s pat : string) : bool :=
  String.prefix pat s ||
  match s with
  | EmptyString => false
  | String _ r => includes r pat
  end.

(** White space and line terminators removed by [trim] (ASCII part). *)
Definition is_space (c : ascii) : bool :=
  let n := nat_of_ascii c in
  ((9 <=? n)%nat && (n <=? 13)%nat) || (n =? 32)%nat.

Fixpoint trimStart (s : string) : string :=
  match s with
  | EmptyString => EmptyString
  | String c r => if is_space c then trimStart r else s
  end.

Fixpoint trimEnd (s : string) : string :=
  match s with
  | EmptyString => EmptyString
  | String c r =>
      match trimEnd r with
      | EmptyString => if is_space c then EmptyString else String c EmptyString
      | r' => String c r'
      end
  end.

Definition trim (s : string) : string := trimEnd (trimStart s).

(** Truthiness of a string, and of a value that is a string or absent
    ([undefined] / [null]). *)
Definition truthy (s : string) : bool :=
  match s with EmptyString => false | _ => true end.

Definition truthy_opt (o : option string) : bool :=
  match o with Some s => truthy s | None => false end.

(** [a || b] on such values. *)
Definition or_else (o : option string) (d : string) : string :=
  match o with
  | Some s => if truthy s then s else d
  | None => d
  end.

(** [s.substring(0, n)]. *)
Definition substring0 (n : nat) (s : string) : string := String.substring 0 n s.

End JS.

(** ** JSON values, as produced by [JSON.parse] and stored in [jsonb] columns *)

Module Json.

(** Numbers are kept as integers; only their truthiness and printing are
    used.  An object is the list of its members in the order of the text. *)
Inductive JSON : Type :=
| JNull
| JBool (b : bool)
| JNumber (z : Z)
| JString (s : string)
| JArray (items : list JSON)
| JObject (members : list (string * JSON)).

Fixpoint lookup (k : string) (members : list (string * JSON)) : option JSON :=
  match members with
  | [] => None
  | (k', v) :: rest => if String.eqb k k' then Some v else lookup k rest
  end.

(** [v.k] for a value that is not [null]; [None] is [undefined].  The
    member names read by the source are no built-in property of a string,
    an array, a number or a boolean. *)
Definition prop (v : JSON) (k : string) : option JSON :=
  match v with
  | JObject members => lookup k members
  | _ => None
  end.

(** [o?.k] for [o] possibly [undefined]: short-circuits on [undefined] and
    on [null]. *)
Definition opt_prop (o : option JSON) (k : string) : option JSON :=
  match o with
  | None | Some JNull => None
  | Some v => prop v k
  end.

Definition truthy (v : JSON) : bool :=
  match v with
  | JNull => false
  | JBool b => b
  | JNumber z => negb (z =? 0)%Z
  | JString s => JS.truthy s
  | JArray _ | JObject _ => true
  end.

(** [o || d]. *)
Definition or_else (o : option JSON) (d : JSON) : JSON :=
  match o with
  | Some v => if truthy v then v else d
  | None => d
  end.

Definition decimal (z : Z) : string :=
  DecimalString.NilZero.string_of_int (Z.to_int z).

Definition join (parts : list string) : string :=
  String.concat "," parts.

(** [String(v)], the message of [new Error(v)]. *)
Fixpoint toString (v : JSON) : string :=
  match v with
  | JNull => "null"
  | JBool true => "true"
  | JBool false => "false"
  | JNumber z => decimal z
  | JString s => s
  | JArray items =>
      join (map (fun i => match i with JNull => "" | _ => toString i end) items)
  | JObject _ => "[object Object]"
  end.

(** [JSON.stringify(v)]; in a string only the quote and the backslash are
    escaped here. *)
Definition dquote : ascii := ascii_of_nat 34.
Definition backslash : ascii := ascii_of_nat 92.

Fixpoint escape (s : string) : string :=
  match s with
  | EmptyString => EmptyString
  | String c r =>
      if Ascii.eqb c dquote || Ascii.eqb c backslash
      then String backslash (String c (escape r))
      else String c (escape r)
  end.

Definition quoted (s : string) : string :=
  String dquote (escape s ++ String dquote EmptyString).

Fixpoint stringify (v : JSON) : string :=
  match v with
  | JNull => "null"
  | JBool true => "true"
  | JBool false => "false"
  | JNumber z => decimal z
  | JString s => quoted s
  | JArray items => ("[" ++ join (map stringify items) ++ "]")%string
  | JObject members =>
      ("{" ++ join (map (fun kv : string * JSON => let (k, x) := kv in
                                   (quoted k ++ ":" ++ stringify x)%string)
                        members) ++ "}")%string
  end.

End Json.

(** ** What an edge function sees of a request *)

Module Http.

(** The outcome of [await req.json()] followed by the destructuring of the
    members the handler names: the body is not JSON and [req.json()] rejects;
    the body is [null], which cannot be destructured; or the members are
    read.  [Fields] covers every other JSON value: a member is absent when
    the value is not an object or lacks it, and a member that is present has
    the type the page sends. *)
Inductive Decoded (B : Type) : Type :=
| NotJson (message : string)
| JsonNull
| Fields (members : B).
Arguments NotJson {B} message.
Arguments JsonNull {B}.
Arguments Fields {B} members.

Record Request (B : Type) : Type := mkRequest { method : string; json : Decoded B }.
Arguments mkRequest {B} method json.
Arguments method {B} r.
Arguments json {B} r.

(** The request made by [supabase.functions.invoke(name, {body})]. *)
Definition post {B} (body : B) : Request B := mkRequest "POST" (Fields body).

(** [Preflight] is [new Response("ok", {headers})], the answer to the CORS
    preflight: status 200 and the text "ok". *)
Inductive Reply (R : Type) : Type :=
| Preflight
| Answer (response : R).
Arguments Preflight {R}.
Arguments Answer {R} response.

(** The message of the [TypeError] thrown when [null] is destructured for
    the member [k] (the wording of V8, which runs the functions). *)
Definition cannot_destructure (k : string) : string :=
  "Cannot destructure property '" ++ k ++ "' of '(intermediate value)' as it is null.".

End Http.

(** ** The edge function [process-interview-insights] *)

Module InsightsFunction.

Record Turn : Type := mkTurn { turn_type : string; turn_content : string }.

(** The decoded request body; a field is [None] when the body lacks it. *)
Record RequestBody : Type := mkRequestBody {
  productIdea : option string;
  founderPersona : option (option string * option string);
  fullConversation : option (list Turn)
}.

(** What the chat-completion call gives back.  [JSON.parse] is a built-in:
    a reply text comes with the result of parsing it. *)
Inductive ParseResult : Type :=
| SyntaxError (message : string)
| Parsed (value : Json.JSON).

Inductive Completion : Type :=
| CompletionThrows (message : string)
| NoContent
| Content (rawResponse : string) (parse : ParseResult).

Record Response : Type := mkResponse { status : nat; body : Json.JSON }.

Definition error_body (message : string) : Json.JSON :=
  Json.JObject [("error", Json.JString message)].

Definition missing_fields : Response :=
  mkResponse 400
    (error_body "Missing required fields: productIdea, founderPersona, or fullConversation").

(** The outer [catch]. *)
Definition failed (message : string) : Response :=
  mkResponse 500
    (error_body (if JS.truthy message then message
                 else "Failed to process interview insights")).

Definition empty_response : string := "OpenAI returned an empty response.".

(** The [try] block once the body is destructured.  The prompt built by
    [generateInsightPrompt] only reaches the completion call, whose answer
    is [llm]. *)
Definition respond (req : RequestBody) (llm : Completion) : Response :=
  match productIdea req, founderPersona req, fullConversation req with
  | Some idea, Some _, Some conversation =>
      if negb (JS.truthy idea) || (length conversation =? 0)%nat
      then missing_fields
      else
        match llm with
        | CompletionThrows m => failed m
        | NoContent => failed empty_response
        | Content rawResponse parse =>
            if negb (JS.truthy rawResponse) then failed empty_response
            else
              match parse with
              | SyntaxError errorMessage =>
                  failed ("OpenAI response was not valid JSON. Error: " ++ errorMessage
                          ++ ". Raw response: " ++ rawResponse)
              | Parsed insights => mkResponse 200 insights
              end
        end
  | _, _, _ => missing_fields
  end.

(** The handler. *)
Definition serve (req : Http.Request RequestBody) (llm : Completion)
    : Http.Reply Response :=
  if String.eqb (Http.method req) "OPTIONS" then Http.Preflight
  else
    Http.Answer
      match Http.json req with
      | Http.NotJson message => failed message
      | Http.JsonNull => failed (Http.cannot_destructure "productIdea")
      | Http.Fields body => respond body llm
      end.

(** The status of a reply; a [Response] built without one has status 200. *)
Definition reply_status (r : Http.Reply Response) : nat :=
  match r with
  | Http.Preflight => 200
  | Http.Answer resp => status resp
  end.

End InsightsFunction.

(** ** The interview page: [src/pages/Interview.tsx] *)

Module Interview.

Import JS.

(** *** Data *)

Inductive MessageType : Type := ai | user.

Definition MessageType_eqb (a b : MessageType) : bool :=
  match a, b with
  | ai, ai | user, user => true
  | _, _ => false
  end.

(** [id] and [timestamp] are both printed from a clock reading, kept here
    as the reading itself (milliseconds). *)
Record Message : Type := mkMessage {
  id : Z;
  type : MessageType;
  content : string;
  timestamp : Z
}.

Record Question : Type := mkQuestion {
  question_id : string;
  text : string;
  question_type : string
}.

(** [interview_guide] is [Some qs] when the guide and its [questions] are
    both present. *)
Record ProjectDetails : Type := mkProjectDetails {
  project_id : string;
  title : string;
  product_idea_prompt : option string;
  user_id : string;
  interview_guide : option (list Question)
}.

Record FounderPersona : Type := mkFounderPersona {
  name : option string;
  companyName : option string
}.

(** Rows of the hosted tables. *)
Record InterviewRow : Type := mkInterviewRow {
  interview_row_id : string;
  interview_project_id : string;
  interview_user_id : string;
  status : string;
  started_at : Z;
  completed_at : option Z
}.

Record ConversationRow : Type := mkConversationRow {
  interview_id : string;
  sender_type : string;
  row_content : string
}.

Record InsightRow : Type := mkInsightRow {
  insight_interview_id : string;
  insight_project_id : string;
  insight_user_id : string;
  summary_text : Json.JSON;
  key_learnings : Json.JSON;
  pain_points : Json.JSON;
  quotes : Json.JSON;
  objections : Json.JSON;
  product_ideas : Json.JSON
}.

Record Db : Type := mkDb {
  interviews : list InterviewRow;
  conversations : list ConversationRow;
  insights : list InsightRow
}.

(** The component's React state. *)
Record State : Type := mkState {
  messages : list Message;
  currentMessage : string;
  isTyping : bool;
  interviewStarted : bool;
  error : option string;
  projectDetails : option ProjectDetails;
  founderPersona : option FounderPersona;
  currentInterviewId : option string;
  interviewConcluded : bool;
  insightsLoading : bool;
  insightsError : option string;
  insightsSuccess : bool
}.

Record World : Type := mkWorld { ui : State; db : Db }.

(** *** A state monad in which a thrown [Error] keeps the effects made so far *)

Definition M (A : Type) : Type := World -> World * (string + A).

Definition ret {A} (a : A) : M A := fun w => (w, inr a).
Definition throw {A} (message : string) : M A := fun w => (w, inl message).
Definition bind {A B} (m : M A) (f : A -> M B) : M B :=
  fun w =>
    match m w with
    | (w1, inl e) => (w1, inl e)
    | (w1, inr a) => f a w1
    end.

Declare Scope js_scope.
Delimit Scope js_scope with js.
Notation "x <- m ;; k" := (bind m (fun x => k))
  (at level 61, m at next level, right associativity) : js_scope.
Notation "m ;; k" := (bind m (fun _ => k))
  (at level 61, right associativity) : js_scope.
Local Open Scope js_scope.

(** [try { body } catch (err) { handler } finally { fin }]. *)
Definition try_catch_finally (body : M unit) (handler : string -> M unit)
    (fin : M unit) : M unit :=
  fun w =>
    let '(w1, r1) := body w in
    let '(w2, r2) := match r1 with
                     | inl e => handler e w1
                     | inr _ => (w1, inr tt)
                     end in
    let '(w3, r3) := fin w2 in
    (w3, match r3 with inl e => inl e | inr _ => r2 end).

Definition modify_ui (f : State -> State) : M unit :=
  fun w => (mkWorld (f (ui w)) (db w), inr tt).
Definition modify_db (f : Db -> Db) : M unit :=
  fun w => (mkWorld (ui w) (f (db w)), inr tt).

(** State setters. *)
Definition setMessages (f : list Message -> list Message) : M unit :=
  modify_ui (fun s =>
    mkState (f (messages s)) (currentMessage s) (isTyping s) (interviewStarted s)
      (error s) (projectDetails s) (founderPersona s) (currentInterviewId s)
      (interviewConcluded s) (insightsLoading s) (insightsError s) (insightsSuccess s)).
Definition setCurrentMessage (v : string) : M unit :=
  modify_ui (fun s =>
    mkState (messages s) v (isTyping s) (interviewStarted s)
      (error s) (projectDetails s) (founderPersona s) (currentInterviewId s)
      (interviewConcluded s) (insightsLoading s) (insightsError s) (insightsSuccess s)).
Definition setIsTyping (v : bool) : M unit :=
  modify_ui (fun s =>
    mkState (messages s) (currentMessage s) v (interviewStarted s)
      (error s) (projectDetails s) (founderPersona s) (currentInterviewId s)
      (interviewConcluded s) (insightsLoading s) (insightsError s) (insightsSuccess s)).
Definition setInterviewStarted (v : bool) : M unit :=
  modify_ui (fun s =>
    mkState (messages s) (currentMessage s) (isTyping s) v
      (error s) (projectDetails s) (founderPersona s) (currentInterviewId s)
      (interviewConcluded s) (insightsLoading s) (insightsError s) (insightsSuccess s)).
Definition setError (v : option string) : M unit :=
  modify_ui (fun s =>
    mkState (messages s) (currentMessage s) (isTyping s) (interviewStarted s)
      v (projectDetails s) (founderPersona s) (currentInterviewId s)
      (interviewConcluded s) (insightsLoading s) (insightsError s) (insightsSuccess s)).
Definition setCurrentInterviewId (v : option string) : M unit :=
  modify_ui (fun s =>
    mkState (messages s) (currentMessage s) (isTyping s) (interviewStarted s)
      (error s) (projectDetails s) (founderPersona s) v
      (interviewConcluded s) (insightsLoading s) (insightsError s) (insightsSuccess s)).
Definition setInterviewConcluded (v : bool) : M unit :=
  modify_ui (fun s =>
    mkState (messages s) (currentMessage s) (isTyping s) (interviewStarted s)
      (error s) (projectDetails s) (founderPersona s) (currentInterviewId s)
      v (insightsLoading s) (insightsError s) (insightsSuccess s)).
Definition setInsightsLoading (v : bool) : M unit :=
  modify_ui (fun s =>
    mkState (messages s) (currentMessage s) (isTyping s) (interviewStarted s)
      (error s) (projectDetails s) (founderPersona s) (currentInterviewId s)
      (interviewConcluded s) v (insightsError s) (insightsSuccess s)).
Definition setInsightsError (v : option string) : M unit :=
  modify_ui (fun s =>
    mkState (messages s) (currentMessage s) (isTyping s) (interviewStarted s)
      (error s) (projectDetails s) (founderPersona s) (currentInterviewId s)
      (interviewConcluded s) (insightsLoading s) v (insightsSuccess s)).
Definition setInsightsSuccess (v : bool) : M unit :=
  modify_ui (fun s =>
    mkState (messages s) (currentMessage s) (isTyping s) (interviewStarted s)
      (error s) (projectDetails s) (founderPersona s) (currentInterviewId s)
      (interviewConcluded s) (insightsLoading s) (insightsError s) v).

(** Table operations.  The store reports a refused write in the value it
    returns; it does not throw.  The page reads that value for the inserts
    into [interviews] and [insights], and discards it for the inserts into
    [conversations] and for the update of [interviews]: there, whether the
    store took the write ([stored]) is an answer of the outside world that
    the page never sees. *)
Definition insert_interview (r : InterviewRow) : M unit :=
  modify_db (fun d => mkDb (interviews d ++ [r]) (conversations d) (insights d)).
Definition insert_conversation (stored : bool) (r : ConversationRow) : M unit :=
  if stored
  then modify_db (fun d => mkDb (interviews d) (conversations d ++ [r]) (insights d))
  else ret tt.
Definition insert_insight (r : InsightRow) : M unit :=
  modify_db (fun d => mkDb (interviews d) (conversations d) (insights d ++ [r])).

(** [from('interviews').update({status: 'completed', completed_at}).eq('id', iid)]. *)
Definition complete_interview (stored : bool) (iid : string) (now : Z) : M unit :=
  if stored
  then
    modify_db (fun d =>
      mkDb (map (fun r =>
                   if String.eqb (interview_row_id r) iid
                   then mkInterviewRow (interview_row_id r) (interview_project_id r)
                          (interview_user_id r) "completed" (started_at r) (Some now)
                   else r) (interviews d))
           (conversations d) (insights d))
  else ret tt.

(** [from('conversations').select(..).eq('interview_id', iid).order('id')]:
    the rows of the interview in insertion order. *)
Definition select_conversation (iid : string) (d : Db) : list ConversationRow :=
  filter (fun r => String.eqb (interview_id r) iid) (conversations d).

(** *** Answers of the outside world *)

(** Result of [supabase.functions.invoke]: an error, or the decoded body. *)
Inductive InvokeResult (D : Type) : Type :=
| FunctionsError (message : string)
| Data (data : D).
Arguments FunctionsError {D} message.
Arguments Data {D} data.

(** Body returned by the [ai-interviewer] function. *)
Record AiResponseData : Type := mkAiResponseData {
  response_error : option string;
  aiResponse : option string
}.

Inductive InsertResult : Type :=
| InsertError (message : string)
| Inserted (new_id : string).

Record StartEnv : Type := mkStartEnv {
  start_now : Z;
  start_insert : InsertResult;
  start_message_now : Z;
  opening_row_stored : bool
}.

Record SendEnv : Type := mkSendEnv {
  now_user : Z;
  user_row_stored : bool;
  invoke_ai : InvokeResult AiResponseData;
  now_ai : Z;
  ai_row_stored : bool;
  now_completed : Z;
  completion_stored : bool
}.

(** *** [startInterviewSession] *)

Definition opening_line (fp : FounderPersona) (pd : ProjectDetails) : string :=
  "Hi there! I'm " ++ match name fp with Some n => n | None => "null" end ++
  ", and I'm working on a new idea: " ++ title pd ++
  ". Thanks for taking the time to chat! Could you start by telling me a bit about your experiences related to this?".

Definition firstQuestionFromGuide (pd : ProjectDetails) : option string :=
  match interview_guide pd with
  | Some (q :: _) => Some (text q)
  | _ => None
  end.

Definition startInterviewSession (env : StartEnv) : M unit :=
  fun w =>
    match projectDetails (ui w), founderPersona (ui w) with
    | Some pd, Some fp =>
        ( setInterviewStarted true ;;
          setIsTyping true ;;
          try_catch_finally
            ( new_id <-
                match start_insert env with
                | InsertError m =>
                    throw (if truthy m then m else "Could not start interview session.")
                | Inserted i =>
                    insert_interview
                      (mkInterviewRow i (project_id pd) (user_id pd) "started"
                         (start_now env) None) ;;
                    ret i
                end ;;
              setCurrentInterviewId (Some new_id) ;;
              let firstQuestion :=
                or_else (firstQuestionFromGuide pd) (opening_line fp pd) in
              let aiMessage :=
                mkMessage (start_message_now env) ai firstQuestion (start_message_now env) in
              setMessages (fun _ => [aiMessage]) ;;
              insert_conversation (opening_row_stored env)
                (mkConversationRow new_id "ai" firstQuestion) )
            (fun err =>
               setError (Some (if truthy err then err else "Failed to initialize interview.")) ;;
               setInterviewStarted false)
            (setIsTyping false) ) w
    | _, _ => ret tt w
    end.

(** *** [handleSendMessage]

    The body sent to the [ai-interviewer] function (product idea, persona,
    the last ten messages, the reply) only reaches that function, whose
    answer is [invoke_ai env]. *)

Definition closing_phrase : string := "thank you for your time".
Definition glitch_reply : string := "Sorry, I had a glitch. Could you repeat that?".
Definition apology : string :=
  "I seem to be having some trouble connecting. Please try again in a moment.".

Definition userMessageCount (ms : list Message) : nat :=
  length (filter (fun m => MessageType_eqb (type m) user) ms).

Definition handleSendMessage (env : SendEnv) : M unit :=
  fun w =>
    match projectDetails (ui w), founderPersona (ui w), currentInterviewId (ui w) with
    | Some pd, Some fp, Some iid =>
        if negb (truthy (trim (currentMessage (ui w)))) || negb (truthy iid)
           || interviewConcluded (ui w)
        then ret tt w
        else
          let messages0 := messages (ui w) in
          let userMsgContent := trim (currentMessage (ui w)) in
          let userMessage := mkMessage (now_user env) user userMsgContent (now_user env) in
          ( setMessages (fun prev => prev ++ [userMessage]) ;;
            setCurrentMessage "" ;;
            setIsTyping true ;;
            try_catch_finally
              ( insert_conversation (user_row_stored env)
                  (mkConversationRow iid "user" userMsgContent) ;;
                aiResponseData <-
                  match invoke_ai env with
                  | FunctionsError m => throw ("AI Function Error: " ++ m)
                  | Data d =>
                      match response_error d with
                      | Some e =>
                          if truthy e then throw ("AI Response Error: " ++ e) else ret d
                      | None => ret d
                      end
                  end ;;
                let aiMsgContent := or_else (aiResponse aiResponseData) glitch_reply in
                let aiMessage := mkMessage (now_ai env + 1) ai aiMsgContent (now_ai env) in
                setMessages (fun prev => prev ++ [aiMessage]) ;;
                insert_conversation (ai_row_stored env)
                  (mkConversationRow iid "ai" aiMsgContent) ;;
                let updatedMessages := messages0 ++ [userMessage; aiMessage] in
                if (4 <=? userMessageCount updatedMessages)%nat
                   || includes (toLowerCase aiMsgContent) closing_phrase
                then
                  setInterviewConcluded true ;;
                  complete_interview (completion_stored env) iid (now_completed env)
                else ret tt )
              (fun err =>
                 let errorAiMsg := mkMessage (now_ai env + 1) ai apology (now_ai env) in
                 setMessages (fun prev => prev ++ [errorAiMsg]))
              (setIsTyping false) ) w
    | _, _, _ => ret tt w
    end.

(** Typing into the input ([onChange]) and sending: the reply text is the
    value of the input when the handler runs. *)
Definition submitReply (reply : string) (env : SendEnv) : M unit :=
  setCurrentMessage reply ;; handleSendMessage env.

(** A sequence of replies, each with the answers it receives. *)
Fixpoint run (w : World) (evs : list (string * SendEnv)) : World :=
  match evs with
  | [] => w
  | (reply, env) :: rest => run (fst (submitReply reply env w)) rest
  end.

(** *** [processInsights] *)

Record InsightsEnv : Type := mkInsightsEnv {
  convoError : option string;
  completion : InsightsFunction.Completion;
  saveError : option string
}.

(** [supabase.functions.invoke('process-interview-insights', {body})]: the
    function runs on the body, a status outside 2xx becomes an error. *)
Definition invoke_insights (req : InsightsFunction.RequestBody)
    (llm : InsightsFunction.Completion) : InvokeResult Json.JSON :=
  match InsightsFunction.serve (Http.post req) llm with
  | Http.Preflight => Data (Json.JString "ok")
  | Http.Answer resp =>
      if (200 <=? InsightsFunction.status resp)%nat
         && (InsightsFunction.status resp <? 300)%nat
      then Data (InsightsFunction.body resp)
      else FunctionsError "Edge Function returned a non-2xx status code"
  end.

(** The row handed to [from('insights').insert]. *)
Definition insight_row (iid : string) (pd : ProjectDetails) (insights : Json.JSON)
    : InsightRow :=
  let executiveSummary := Json.prop insights "executiveSummary" in
  mkInsightRow iid (project_id pd) (user_id pd)
    (Json.or_else (Json.opt_prop executiveSummary "whatWeLearned") (Json.JString ""))
    (Json.or_else executiveSummary (Json.JObject []))
    (Json.or_else (Json.prop insights "painPoints") (Json.JArray []))
    (Json.or_else (Json.prop insights "notableQuotes") (Json.JArray []))
    (Json.or_else (Json.prop insights "objections") (Json.JArray []))
    (Json.or_else (Json.prop insights "productIdeas") (Json.JArray [])).

Definition read_error_of_null : string :=
  "Cannot read properties of null (reading 'error')".

Definition processInsights (env : InsightsEnv) : M unit :=
  fun w =>
    match projectDetails (ui w), founderPersona (ui w), currentInterviewId (ui w) with
    | Some pd, Some fp, Some iid =>
        if negb (interviewConcluded (ui w)) || negb (truthy iid)
        then ret tt w
        else
          ( setInsightsLoading true ;;
            setInsightsError None ;;
            setInsightsSuccess false ;;
            try_catch_finally
              ( convoData <-
                  match convoError env with
                  | Some m =>
                      throw (if truthy m then m else "Failed to fetch conversation")
                  | None => fun w' => (w', inr (select_conversation iid (db w')))
                  end ;;
                let fullConversation :=
                  map (fun msg =>
                         InsightsFunction.mkTurn
                           (if String.eqb (sender_type msg) "ai" then "ai" else "user")
                           (row_content msg)) convoData in
                let req :=
                  InsightsFunction.mkRequestBody
                    (Some (or_else (product_idea_prompt pd) (title pd)))
                    (Some (name fp, companyName fp))
                    (Some fullConversation) in
                insights <-
                  match invoke_insights req (completion env) with
                  | FunctionsError m => throw m
                  | Data Json.JNull => throw read_error_of_null
                  | Data v =>
                      match Json.prop v "error" with
                      | Some e => if Json.truthy e then throw (Json.toString e) else ret v
                      | None => ret v
                      end
                  end ;;
                match saveError env with
                | Some m => throw m
                | None => insert_insight (insight_row iid pd insights)
                end ;;
                setInsightsSuccess true )
              (fun errorMessage =>
                 setInsightsError (Some errorMessage) ;;
                 setInsightsSuccess false)
              (setInsightsLoading false) ) w
    | _, _, _ => ret tt w
    end.

End Interview.

(** ** Plain objects used as dictionaries *)

Module Obj.

Definition digit (c : ascii) : option N :=
  let n := N_of_ascii c in
  if (48 <=? n)%N && (n <=? 57)%N then Some (n - 48)%N else None.

Fixpoint digits (s : string) (acc : N) : option N :=
  match s with
  | EmptyString => Some acc
  | String c r =>
      match digit c with
      | Some d => digits r (10 * acc + d)%N
      | None => None
      end
  end.

(** A property key is an array index when it is the canonical decimal
    form of an integer below 2^32 - 1. *)
Definition array_index (k : string) : option N :=
  match k with
  | EmptyString => None
  | String "0"%char EmptyString => Some 0%N
  | String "0"%char _ => None
  | _ =>
      match digits k 0 with
      | Some n => if (n <? 2 ^ 32 - 1)%N then Some n else None
      | None => None
      end
  end.

Definition is_array_index (k : string) : bool :=
  match array_index k with Some _ => true | None => false end.

(** The members that every plain object inherits from [Object.prototype]:
    [o[k]] finds them when [o] has no property [k] of its own.  All of them
    are functions, except [__proto__], an accessor that gives the prototype;
    all are truthy. *)
Definition prototype_members : list string :=
  ["constructor"; "hasOwnProperty"; "isPrototypeOf"; "propertyIsEnumerable";
   "toLocaleString"; "toString"; "valueOf"; "__proto__";
   "__defineGetter__"; "__defineSetter__"; "__lookupGetter__"; "__lookupSetter__"].

Definition inherited (k : string) : bool := existsb (String.eqb k) prototype_members.

Section Props.

Context {V : Type}.

(** Own properties, in creation order. *)
Definition t : Type := list (string * V).

Fixpoint get (o : t) (k : string) : option V :=
  match o with
  | [] => None
  | (k', v) :: rest => if String.eqb k k' then Some v else get rest k
  end.

(** [o[k] = v]: overwrites in place, or creates the property last. *)
Fixpoint set (o : t) (k : string) (v : V) : t :=
  match o with
  | [] => [(k, v)]
  | (k', v') :: rest =>
      if String.eqb k k' then (k', v) :: rest else (k', v') :: set rest k v
  end.

Fixpoint insert_index (n : N) (e : string * V) (l : list (N * (string * V)))
    : list (N * (string * V)) :=
  match l with
  | [] => [(n, e)]
  | (m, e') :: rest =>
      if (n <? m)%N then (n, e) :: l else (m, e') :: insert_index n e rest
  end.

Fixpoint index_entries (o : t) : list (N * (string * V)) :=
  match o with
  | [] => []
  | (k, v) :: rest =>
      match array_index k with
      | Some n => insert_index n (k, v) (index_entries rest)
      | None => index_entries rest
      end
  end.

(** [Object.entries(o)]: array-index keys in ascending numeric order,
    then the remaining keys in creation order. *)
Definition entries (o : t) : list (string * V) :=
  map snd (index_entries o)
  ++ filter (fun e => negb (is_array_index (fst e))) o.

(** What [o[k]] finds: a property of [o] itself, else the member of that name
    inherited from [Object.prototype], else nothing. *)
Inductive Lookup : Type :=
| Own (v : V)
| Inherited
| Undefined.

Definition lookup (o : t) (k : string) : Lookup :=
  match get o k with
  | Some v => Own v
  | None => if inherited k then Inherited else Undefined
  end.

End Props.

Arguments t V : clear implicits.
Arguments Lookup V : clear implicits.

End Obj.

(** [Array.prototype.sort(compareFn)]: a stable sort; [compareFn a b < 0]
    puts [a] first. *)
Module ArraySort.

Section Sort.

Context {A : Type} (compareFn : A -> A -> Z).

Fixpoint insert (x : A) (l : list A) : list A :=
  match l with
  | [] => [x]
  | y :: rest =>
      if (compareFn x y <=? 0)%Z then x :: l else y :: insert x rest
  end.

Fixpoint sort (l : list A) : list A :=
  match l with
  | [] => []
  | x :: rest => insert x (sort rest)
  end.

End Sort.

(** What an engine does with an array that it is asked to sort with a
    comparator that is not consistent: the order is its own choice, the
    elements are those of the array. *)
Record Engine (A : Type) : Type := mkEngine {
  order : list A -> list A;
  order_permutation : forall l, Permutation (order l) l
}.

Arguments order {A} _ _.
Arguments order_permutation {A} _ _.

(** The sort with a comparator that can return NaN ([None]).  A consistent
    comparator never returns NaN on the elements of the array; the
    comparators of this program are differences of two numbers, and are
    consistent when they do not. *)
Definition never_NaN {A : Type} (compareFn : A -> A -> option Z) (l : list A) : bool :=
  forallb (fun a => forallb (fun b => match compareFn a b with
                                      | Some _ => true
                                      | None => false
                                      end) l) l.

Definition sort_or {A : Type} (engine : Engine A)
    (compareFn : A -> A -> option Z) (l : list A) : list A :=
  if never_NaN compareFn l
  then sort (fun a b => match compareFn a b with Some v => v | None => 0%Z end) l
  else order engine l.

End ArraySort.

(** ** Numbers *)

(** The number type of the language: IEEE 754 binary64, with the operations
    of the reference model of the Standard Library. *)
Module Double.

Definition prec : Z := 53.
Definition emax : Z := 1024.

Definition t : Type := spec_float.

Definition NaN : t := S754_nan.

(** An integer as a number; exact below 2^53. *)
Definition of_nat (n : nat) : t := binary_normalize prec emax (Z.of_nat n) 0 false.

Definition div (x y : t) : t := SFdiv prec emax x y.
Definition mul (x y : t) : t := SFmul prec emax x y.

Definition pow2 (e : Z) : Q := Qpower 2 e.

(** The exact value of a finite number; infinities and NaN have none. *)
Definition value (x : t) : option Q :=
  match x with
  | S754_zero _ => Some 0%Q
  | S754_finite s m e =>
      Some ((if s then Qopp else fun q => q) (inject_Z (Zpos m) * pow2 e)%Q)
  | S754_infinity _ => None
  | S754_nan => None
  end.

(** A mantissa with its round and sticky bits holds a number exactly when
    both bits are clear. *)
Definition exactb (mrs : shr_record) : bool := negb (shr_r mrs || shr_s mrs).

(** The number held by [mrs] at exponent [e] is at most [b]. *)
Definition below (b : Q) (mrs : shr_record) (e : Z) : Prop :=
  if exactb mrs then (inject_Z (shr_m mrs) * pow2 e <= b)%Q
  else (inject_Z (shr_m mrs) * pow2 e < b)%Q.

End Double.

(** ** The analytics page: [processDataForDisplay] *)

Module Analytics.

Import JS.

(** *** Insight rows as read from the store *)

Record ExecutiveSummaryDB : Type := mkExecutiveSummaryDB {
  whatWeLearned : option string;
  whatToBuildNext : option string
}.

Record PainPointDB : Type := mkPainPointDB {
  point : option string;
  severity : option string
}.

Record QuoteDB : Type := mkQuoteDB {
  quote : option string;
  speaker : option string;
  sentiment : option string
}.

Record ObjectionDB : Type := mkObjectionDB {
  objection : option string;
  objection_type : option string
}.

Record ProductIdeaDB : Type := mkProductIdeaDB {
  idea : option string;
  source : option string
}.

(** [projects] is the joined project title, when the join gave one. *)
Record InsightRecord : Type := mkInsightRecord {
  id : string;
  project_id : string;
  user_id : string;
  summary_text : option string;
  key_learnings : option ExecutiveSummaryDB;
  pain_points : option (list PainPointDB);
  quotes : option (list QuoteDB);
  objections : option (list ObjectionDB);
  product_ideas : option (list ProductIdeaDB);
  created_at : string;
  projects : option string
}.

(** *** Aggregated values *)

Module Pain.
Record AggregatedPainPoint : Type := mk {
  point : string;
  frequency : Double.t;
  responses : nat
}.
End Pain.

Module Feature.
(** A value held in [featureCounts]: a number, or the text that [+ 1]
    makes of an inherited member, which is the text of that member followed
    by [ones] times the digit 1. *)
Inductive Count : Type :=
| Number (n : nat)
| Text (member : string) (ones : nat).

Record AggregatedFeatureRequest : Type := mk {
  feature : string;
  frequency : Double.t;
  responses : Count
}.
End Feature.

Record DisplayQuote : Type := mkDisplayQuote {
  display_quote : QuoteDB;
  project_title : string;
  respondent : option string
}.

Record DisplayKeyInsight : Type := mkDisplayKeyInsight {
  insight_type : string;
  insight_title : string;
  description : string;
  impact : string;
  project : string;
  insight_responses : nat
}.

Record ExecutiveSummary : Type := mkExecutiveSummary {
  learned : list string;
  build : list string
}.

Record OverviewStats : Type := mkOverviewStats {
  totalInterviews : nat;
  topPainPointText : string;
  keyInsightText : string
}.

(** The page's processed state. *)
Record Display : Type := mkDisplay {
  executiveSummary : ExecutiveSummary;
  topPainPoints : list Pain.AggregatedPainPoint;
  topFeatureRequests : list Feature.AggregatedFeatureRequest;
  displayQuotes : list DisplayQuote;
  displayKeyInsights : list DisplayKeyInsight;
  overviewStats : OverviewStats
}.

(** The values given to [useState]. *)
Definition initial : Display :=
  mkDisplay (mkExecutiveSummary [] []) [] [] [] [] (mkOverviewStats 0 "N/A" "N/A").

(** *** State and exceptions

    A computation changes the processed state and returns, or throws an
    [Error] with its message; what it set before throwing stays set. *)

Definition M (A : Type) : Type := Display -> Display * (string + A).

Definition ret {A} (a : A) : M A := fun d => (d, inr a).
Definition bind {A B} (m : M A) (f : A -> M B) : M B :=
  fun d =>
    match m d with
    | (d1, inl e) => (d1, inl e)
    | (d1, inr a) => f a d1
    end.

(** A value computed without touching the state, or the exception it
    raised. *)
Definition lift {A} (r : string + A) : M A := fun d => (d, r).

Notation "x <- m ;; k" := (bind m (fun x => k))
  (at level 61, m at next level, right associativity).
Notation "m ;; k" := (bind m (fun _ => k))
  (at level 61, right associativity).

Definition setExecutiveSummary (v : ExecutiveSummary) : M unit :=
  fun d => (mkDisplay v (topPainPoints d) (topFeatureRequests d) (displayQuotes d)
              (displayKeyInsights d) (overviewStats d), inr tt).
Definition setTopPainPoints (v : list Pain.AggregatedPainPoint) : M unit :=
  fun d => (mkDisplay (executiveSummary d) v (topFeatureRequests d) (displayQuotes d)
              (displayKeyInsights d) (overviewStats d), inr tt).
Definition setTopFeatureRequests (v : list Feature.AggregatedFeatureRequest) : M unit :=
  fun d => (mkDisplay (executiveSummary d) (topPainPoints d) v (displayQuotes d)
              (displayKeyInsights d) (overviewStats d), inr tt).
Definition setDisplayQuotes (v : list DisplayQuote) : M unit :=
  fun d => (mkDisplay (executiveSummary d) (topPainPoints d) (topFeatureRequests d) v
              (displayKeyInsights d) (overviewStats d), inr tt).
Definition setDisplayKeyInsights (v : list DisplayKeyInsight) : M unit :=
  fun d => (mkDisplay (executiveSummary d) (topPainPoints d) (topFeatureRequests d)
              (displayQuotes d) v (overviewStats d), inr tt).
Definition setOverviewStats (v : OverviewStats) : M unit :=
  fun d => (mkDisplay (executiveSummary d) (topPainPoints d) (topFeatureRequests d)
              (displayQuotes d) (displayKeyInsights d) v, inr tt).

(** *** Helpers for the JavaScript idioms *)

(** [xs?.forEach(f)] threading an accumulator. *)
Definition forEach_opt {A B} (xs : option (list A)) (f : B -> A -> B) (acc : B) : B :=
  match xs with
  | Some l => fold_left f l acc
  | None => acc
  end.

(** [xs.forEach(f)] for a body that can throw: the exception ends the
    loop. *)
Fixpoint forEach_try {A B} (f : B -> A -> string + B) (l : list A) (acc : B)
    : string + B :=
  match l with
  | [] => inr acc
  | x :: rest =>
      match f acc x with
      | inl e => inl e
      | inr acc' => forEach_try f rest acc'
      end
  end.

(** [xs?.forEach(f)] for such a body. *)
Definition forEach_opt_try {A B} (xs : option (list A)) (f : B -> A -> string + B)
    (acc : B) : string + B :=
  match xs with
  | Some l => forEach_try f l acc
  | None => inr acc
  end.

(** [arr.slice(0, n)]. *)
Definition slice0 {A} (n : nat) (l : list A) : list A := firstn n l.

(** [(count / total) * 100], in the arithmetic of numbers. *)
Definition percentage (count : Double.t) (total : nat) : Double.t :=
  Double.mul (Double.div count (Double.of_nat total)) (Double.of_nat 100).

(** *** Executive summary *)

(** [if (text) points.push(text)]. *)
Definition push_if_truthy (points : list string) (text : option string) : list string :=
  match text with
  | Some s => if truthy s then points ++ [s] else points
  | None => points
  end.

Definition learnedPoints (insights : list InsightRecord) : list string :=
  fold_left
    (fun acc i =>
       match key_learnings i with
       | Some kl => push_if_truthy acc (whatWeLearned kl)
       | None => acc
       end) insights [].

Definition buildPoints (insights : list InsightRecord) : list string :=
  fold_left
    (fun acc i =>
       match key_learnings i with
       | Some kl => push_if_truthy acc (whatToBuildNext kl)
       | None => acc
       end) insights [].

(** *** Pain points *)

Record PainCount : Type := mkPainCount { count : nat; severities : list string }.

(** The message of the [TypeError] of reading a member of [undefined], in
    the wording of V8; other engines word it differently and throw at the
    same place. *)
Definition cannot_read (member : string) : string :=
  "Cannot read properties of undefined (reading '" ++ member ++ "')".

(** The body of the inner [forEach] over [i.pain_points].

    [painPointCounts[pp.point]] reaches [Object.prototype]: when the text
    names an inherited member, that member is found and no entry is
    created; [count++] writes NaN to a property [count] of the member, which
    neither loop reads (for [__proto__] the member is [Object.prototype]
    itself, and the text "count" then finds NaN, which is falsy as
    [undefined] is); [severities], which no member has, is [undefined], so
    that [push] throws. *)
Definition count_pain (painPointCounts : Obj.t PainCount) (pp : PainPointDB)
    : string + Obj.t PainCount :=
  match point pp with
  | Some p =>
      if truthy p then
        let c1 := match Obj.lookup painPointCounts p with
                  | Obj.Undefined => Obj.set painPointCounts p (mkPainCount 0 [])
                  | _ => painPointCounts
                  end in
        match Obj.lookup c1 p with
        | Obj.Undefined => inl (cannot_read "count")
        | found =>
            let c2 := match found with
                      | Obj.Own d => Obj.set c1 p (mkPainCount (count d + 1) (severities d))
                      | _ => c1
                      end in
            match severity pp with
            | Some sv =>
                if truthy sv then
                  match Obj.lookup c2 p with
                  | Obj.Own d =>
                      inr (Obj.set c2 p (mkPainCount (count d) (severities d ++ [sv])))
                  | Obj.Inherited => inl (cannot_read "push")
                  | Obj.Undefined => inl (cannot_read "severities")
                  end
                else inr c2
            | None => inr c2
            end
        end
      else inr painPointCounts
  | None => inr painPointCounts
  end.

Definition painPointCounts (insights : list InsightRecord) : string + Obj.t PainCount :=
  forEach_try (fun acc i => forEach_opt_try (pain_points i) count_pain acc) insights [].

Definition by_responses_desc_pain (a b : Pain.AggregatedPainPoint) : Z :=
  Z.of_nat (Pain.responses b) - Z.of_nat (Pain.responses a).

Definition aggregatedPains (insights : list InsightRecord)
    : string + list Pain.AggregatedPainPoint :=
  match painPointCounts insights with
  | inl e => inl e
  | inr painPointCounts =>
      inr (slice0 5
             (ArraySort.sort by_responses_desc_pain
                (map (fun e : string * PainCount =>
                        let (point, data) := e in
                        Pain.mk point
                          (percentage (Double.of_nat (count data)) (length insights))
                          (count data))
                     (Obj.entries painPointCounts))))
  end.

(** *** Feature requests *)

(** [featureCounts[f] = (featureCounts[f] || 0) + 1].

    A number gains one.  An inherited member is truthy, and [+ 1] makes a
    text of it; a text is truthy, and [+ 1] appends the digit.  The
    assignment creates the property, except for [__proto__], whose setter
    ignores a text. *)
Definition count_feature (featureCounts : Obj.t Feature.Count) (pi : ProductIdeaDB)
    : Obj.t Feature.Count :=
  match idea pi with
  | Some f =>
      if truthy f then
        match Obj.lookup featureCounts f with
        | Obj.Own (Feature.Number n) => Obj.set featureCounts f (Feature.Number (n + 1))
        | Obj.Own (Feature.Text member ones) =>
            Obj.set featureCounts f (Feature.Text member (ones + 1))
        | Obj.Inherited =>
            if String.eqb f "__proto__" then featureCounts
            else Obj.set featureCounts f (Feature.Text f 1)
        | Obj.Undefined => Obj.set featureCounts f (Feature.Number 1)
        end
      else featureCounts
  | None => featureCounts
  end.

Definition featureCounts (insights : list InsightRecord) : Obj.t Feature.Count :=
  fold_left (fun acc i => forEach_opt (product_ideas i) count_feature acc) insights [].

(** A count as a number: a text that is no numeral is NaN. *)
Definition to_number (c : Feature.Count) : Double.t :=
  match c with
  | Feature.Number n => Double.of_nat n
  | Feature.Text _ _ => Double.NaN
  end.

(** [b.responses - a.responses]; [None] is NaN. *)
Definition by_responses_desc_feature (a b : Feature.AggregatedFeatureRequest)
    : option Z :=
  match Feature.responses b, Feature.responses a with
  | Feature.Number nb, Feature.Number na => Some (Z.of_nat nb - Z.of_nat na)%Z
  | _, _ => None
  end.

Definition Engine : Type := ArraySort.Engine Feature.AggregatedFeatureRequest.

Definition aggregatedFeatures (engine : Engine) (insights : list InsightRecord)
    : list Feature.AggregatedFeatureRequest :=
  slice0 5
    (ArraySort.sort_or engine by_responses_desc_feature
       (map (fun e : string * Feature.Count =>
               let (feature, count) := e in
               Feature.mk feature (percentage (to_number count) (length insights)) count)
            (Obj.entries (featureCounts insights)))).

(** *** Quotes and key insights *)

Definition displayed_quotes (insights : list InsightRecord) : list DisplayQuote :=
  fold_left
    (fun acc i =>
       forEach_opt (quotes i)
         (fun acc' q =>
            if truthy_opt (quote q) then
              acc' ++ [mkDisplayQuote q (or_else (projects i) "Unknown Project")
                         (match speaker q with
                          | Some sp => if String.eqb sp "User" then Some "Interviewee"
                                       else Some sp
                          | None => None
                          end)]
            else acc') acc) insights [].

Definition ellipsis (limit : nat) (s : string) : string :=
  if (limit <? String.length s)%nat then "..." else "".

Definition keyInsightsList (insights : list InsightRecord) : list DisplayKeyInsight :=
  fold_left
    (fun acc i =>
       match summary_text i with
       | Some st =>
           if truthy st then
             acc ++ [mkDisplayKeyInsight "summary"
                       (substring0 100 st ++ ellipsis 100 st)
                       (or_else (projects i) "General Insight")
                       "medium"
                       (or_else (projects i) "N/A")
                       1]
           else acc
       | None => acc
       end) (slice0 5 insights) [].

(** *** Overview *)

(** [learnedPoints[0]?.substring(0,50) + (learnedPoints[0]?.length > 50 ? '...' : '') || "N/A"]:
    [+] binds tighter than [||], and [undefined + ''] is the text
    ["undefined"]. *)
Definition key_insight_text (learnedPoints : list string) : string :=
  let first := hd_error learnedPoints in
  let head := match first with
              | Some s => substring0 50 s
              | None => "undefined"
              end in
  let tail := match first with
              | Some s => ellipsis 50 s
              | None => ""
              end in
  or_else (Some (head ++ tail)%string) "N/A".

Definition top_pain_point_text (aggregated : list Pain.AggregatedPainPoint) : string :=
  or_else (option_map Pain.point (hd_error aggregated)) "N/A".

(** *** [processDataForDisplay] *)

Definition processDataForDisplay (engine : Engine) (insights : list InsightRecord)
    : M unit :=
  match insights with
  | [] => setOverviewStats (mkOverviewStats 0 "N/A" "N/A")
  | _ :: _ =>
      let learnedPoints := learnedPoints insights in
      let buildPoints := buildPoints insights in
      setExecutiveSummary
        (mkExecutiveSummary (slice0 5 learnedPoints) (slice0 5 buildPoints)) ;;
      aggregatedPains <- lift (aggregatedPains insights) ;;
      setTopPainPoints aggregatedPains ;;
      let aggregatedFeatures := aggregatedFeatures engine insights in
      setTopFeatureRequests aggregatedFeatures ;;
      setDisplayQuotes (slice0 5 (displayed_quotes insights)) ;;
      setDisplayKeyInsights (keyInsightsList insights) ;;
      setOverviewStats
        (mkOverviewStats (length insights)
           (top_pain_point_text aggregatedPains)
           (key_insight_text learnedPoints))
  end.

End Analytics.

(** ** Vocabulary of the session claims *)

Module Session.

Import JS Interview.

(** A session is in progress once an interview row exists for a loaded
    project and the page has not concluded it. *)
Definition in_progress (w : World) : bool :=
  match projectDetails (ui w), founderPersona (ui w), currentInterviewId (ui w) with
  | Some _, Some _, Some iid => truthy iid && negb (interviewConcluded (ui w))
  | _, _, _ => false
  end.

Definition concluded (w : World) : bool := interviewConcluded (ui w).

(** The agent's reply when the turn-generation call succeeds, [None] when
    it fails (the invocation reports an error, or the body carries one). *)
Definition agent_reply (env : SendEnv) : option string :=
  match invoke_ai env with
  | FunctionsError _ => None
  | Data d =>
      if truthy_opt (response_error d) then None
      else Some (or_else (aiResponse d) glitch_reply)
  end.

(** The capital letters A to Z. *)
Definition is_capital (c : ascii) : bool :=
  (nat_of_ascii "A" <=? nat_of_ascii c)%nat && (nat_of_ascii c <=? nat_of_ascii "Z")%nat.

(** [c] and [d] are the same character, or the capital and the small form
    of the same letter (which lie 32 apart). *)
Definition same_char_ci (c d : ascii) : bool :=
  Ascii.eqb c d
  || (is_capital c && (nat_of_ascii d =? nat_of_ascii c + 32)%nat)
  || (is_capital d && (nat_of_ascii c =? nat_of_ascii d + 32)%nat).

Fixpoint same_text_ci (s t : string) : bool :=
  match s, t with
  | EmptyString, EmptyString => true
  | String c s', String d t' => same_char_ci c d && same_text_ci s' t'
  | _, _ => false
  end.

Fixpoint no_capital (s : string) : bool :=
  match s with
  | EmptyString => true
  | String c r => negb (is_capital c) && no_capital r
  end.

(** [phrase] occurs in [s] up to letter case: some part of [s] spells
    [phrase] when the case of letters is disregarded. *)
Definition contains_ci (s phrase : string) : Prop :=
  exists pre mid post,
    s = (pre ++ mid ++ post)%string /\ same_text_ci mid phrase = true.

Definition respondent_turn (reply : string) (env : SendEnv) : Message :=
  mkMessage (now_user env) user (trim reply) (now_user env).
Definition agent_turn (answer : string) (env : SendEnv) : Message :=
  mkMessage (now_ai env + 1) ai answer (now_ai env).

(** [news] is [olds] with every row of interview [iid] marked completed at
    [now] and nothing else changed. *)
Definition marked_completed (iid : string) (now : Z) (olds news : list InterviewRow)
    : Prop :=
  Forall2
    (fun o n =>
       interview_row_id n = interview_row_id o /\
       interview_project_id n = interview_project_id o /\
       interview_user_id n = interview_user_id o /\
       started_at n = started_at o /\
       if String.eqb (interview_row_id o) iid
       then status n = "completed" /\ completed_at n = Some now
       else status n = status o /\ completed_at n = completed_at o)
    olds news.

(** The row that reaches the store, if the store takes it. *)
Definition stored_rows (stored : bool) (r : ConversationRow) : list ConversationRow :=
  if stored then [r] else [].

(** The respondent rows that reach the store over a sequence of replies
    that are all taken up. *)
Definition rows_taken (iid : string) (evs : list (string * SendEnv))
    : list ConversationRow :=
  flat_map (fun ev => stored_rows (user_row_stored (snd ev))
                        (mkConversationRow iid "user" (trim (fst ev)))) evs.

(** Respondent rows of the transcript store. *)
Definition persisted_respondent_turns (w : World) : nat :=
  length (filter (fun r => String.eqb (sender_type r) "user") (conversations (db w))).

End Session.

(** ** Sample data *)

Module Sample.

Import Interview.

Definition project : ProjectDetails :=
  mkProjectDetails "p1" "Meal-planning app" None "u1" None.

Definition persona : FounderPersona := mkFounderPersona (Some "Ada") (Some "Meal-planning app").

(** The page once the project is loaded, before the interview starts. *)
Definition loaded : World :=
  mkWorld (mkState [] "" false false None (Some project) (Some persona) None
             false false None false)
          (mkDb [] [] []).

Definition started : World :=
  fst (startInterviewSession (mkStartEnv 100 (Inserted "i1") 101 true) loaded).

Definition answers (t : Z) (answer : string) : SendEnv :=
  mkSendEnv t true (Data (mkAiResponseData None (Some answer))) (t + 5) true (t + 6) true.

Definition fails (t : Z) : SendEnv :=
  mkSendEnv t true (FunctionsError "Failed to send a request to the Edge Function")
    (t + 5) true (t + 6) true.

Definition four_replies : list (string * SendEnv) :=
  [("I cook most evenings", answers 200 "What is hardest about it?");
   ("Deciding what to make", answers 300 "How do you decide today?");
   ("I scroll recipe sites", answers 400 "Would a weekly plan help?");
   ("Probably, yes", answers 500 "Great, tell me more.")].

Definition early_close : list (string * SendEnv) :=
  [("I cook most evenings", answers 200 "What is hardest about it?");
   ("I have to go", answers 300 "No problem. Thank You for your time!")].

Definition four_failures : list (string * SendEnv) :=
  [("a", fails 200); ("b", fails 300); ("c", fails 400); ("d", fails 500)].

(** A session that has concluded. *)
Definition finished : World := run started four_replies.

End Sample.

(** ** Vocabulary of the extraction claims *)

Module Extraction.

Import JS Interview.

(** The page runs [processInsights] once it holds a concluded session. *)
Definition ready (w : World) : bool :=
  match projectDetails (ui w), founderPersona (ui w), currentInterviewId (ui w) with
  | Some _, Some _, Some iid => truthy iid && interviewConcluded (ui w)
  | _, _, _ => false
  end.

(** The only test the page applies to the decoded value before the insert:
    reading [insights.error] must succeed and give a falsy value. *)
Definition accepted (v : Json.JSON) : bool :=
  match v with
  | Json.JNull => false
  | _ =>
      match Json.prop v "error" with
      | Some e => negb (Json.truthy e)
      | None => true
      end
  end.

Definition array_within (cap : nat) (o : option Json.JSON) : bool :=
  match o with
  | Some (Json.JArray items) => (length items <=? cap)%nat
  | _ => false
  end.

(** The output contract in the words of the specification: an object with
    exactly the five top-level fields, and the list fields capped at 5, 5, 3
    and 3 entries. *)
Definition output_contract (v : Json.JSON) : bool :=
  match v with
  | Json.JObject members =>
      (length members =? 5)%nat
      && match Json.lookup "executiveSummary" members with Some _ => true | None => false end
      && array_within 5 (Json.lookup "painPoints" members)
      && array_within 5 (Json.lookup "notableQuotes" members)
      && array_within 3 (Json.lookup "objections" members)
      && array_within 3 (Json.lookup "productIdeas" members)
  | _ => false
  end.

(** The request the page sends for a session. *)
Definition request (w : World) : option InsightsFunction.RequestBody :=
  match projectDetails (ui w), founderPersona (ui w), currentInterviewId (ui w) with
  | Some pd, Some fp, Some iid =>
      Some (InsightsFunction.mkRequestBody
              (Some (or_else (product_idea_prompt pd) (title pd)))
              (Some (name fp, companyName fp))
              (Some (map (fun msg =>
                            InsightsFunction.mkTurn
                              (if String.eqb (sender_type msg) "ai" then "ai" else "user")
                              (row_content msg))
                         (select_conversation iid (db w)))))
  | _, _, _ => None
  end.

End Extraction.

Module SampleInsights.

Import Json.

Definition pain (p sev : string) : JSON :=
  JObject [("point", JString p); ("severity", JString sev)].

Definition summary : JSON :=
  JObject [("whatWeLearned", JString "Planning is the hard part");
           ("whatToBuildNext", JString "A weekly planner")].

(** A reply without [painPoints]. *)
Definition summary_only : JSON := JObject [("executiveSummary", summary)].

Definition six_pains : list JSON :=
  [pain "deciding" "high"; pain "shopping" "medium"; pain "waste" "medium";
   pain "time" "high"; pain "cost" "low"; pain "variety" "low"].

(** A reply with six pain points and a sixth top-level member. *)
Definition oversized : JSON :=
  JObject [("executiveSummary", summary); ("painPoints", JArray six_pains);
           ("notableQuotes", JArray []); ("objections", JArray []);
           ("productIdeas", JArray []); ("confidence", JNumber 1)].

(** The completion replies with the text of [v]. *)
Definition reply_of (v : JSON) : Interview.InsightsEnv :=
  Interview.mkInsightsEnv None
    (InsightsFunction.Content (stringify v) (InsightsFunction.Parsed v)) None.

Definition not_json : Interview.InsightsEnv :=
  Interview.mkInsightsEnv None
    (InsightsFunction.Content "Sure! Here is the analysis"
       (InsightsFunction.SyntaxError "Unexpected token S in JSON at position 0")) None.

End SampleInsights.

(** ** Vocabulary of the aggregation claims *)

Module Ranking.

Import JS Analytics.

Definition opt_list {A} (o : option (list A)) : list A :=
  match o with Some l => l | None => [] end.

(** The texts that are counted: present and non-empty, in record order. *)
Definition counted (o : option string) : list string :=
  match o with
  | Some t => if truthy t then [t] else []
  | None => []
  end.

Definition pain_texts (insights : list InsightRecord) : list string :=
  flat_map (fun i => flat_map (fun pp => counted (point pp)) (opt_list (pain_points i)))
    insights.

Definition idea_texts (insights : list InsightRecord) : list string :=
  flat_map (fun i => flat_map (fun pi => counted (idea pi)) (opt_list (product_ideas i)))
    insights.

Definition occurrences (texts : list string) (t : string) : nat :=
  count_occ string_dec texts t.

(** The distinct texts, each at the place of its first occurrence. *)
Fixpoint first_occurrences (texts : list string) : list string :=
  match texts with
  | [] => []
  | t :: rest => t :: filter (fun u => negb (String.eqb t u)) (first_occurrences rest)
  end.

(** The order in which the keys of a dictionary are enumerated when they
    were created in the order [keys]. *)
Definition enumeration_order (keys : list string) : list string :=
  map fst (Obj.entries (map (fun k => (k, tt)) keys)).

(** The texts that name no inherited member. *)
Definition own_texts (texts : list string) : list string :=
  filter (fun t => negb (Obj.inherited t)) texts.

(** A pain point on which the counting loop throws: it has a severity and
    its text names an inherited member. *)
Definition fatal (pp : PainPointDB) : bool :=
  match point pp, severity pp with
  | Some p, Some sv => truthy p && Obj.inherited p && truthy sv
  | _, _ => false
  end.

Definition aborts (insights : list InsightRecord) : bool :=
  existsb (fun i => existsb fatal (opt_list (pain_points i))) insights.

Definition pain_entry (total : nat) (texts : list string) (t : string)
    : Pain.AggregatedPainPoint :=
  Pain.mk t (percentage (Double.of_nat (occurrences texts t)) total) (occurrences texts t).

(** The exact ratio [count / total * 100]. *)
Definition exact_percentage (count total : nat) : Q :=
  (inject_Z (Z.of_nat count) / inject_Z (Z.of_nat total) * inject_Z 100)%Q.

(** The ranking over texts with ties in enumeration order. *)
Definition ranking (total : nat) (texts : list string) : list Pain.AggregatedPainPoint :=
  firstn 5
    (ArraySort.sort by_responses_desc_pain
       (map (pain_entry total texts) (enumeration_order (first_occurrences texts)))).




Definition as_feature (a : Pain.AggregatedPainPoint) : Feature.AggregatedFeatureRequest :=
  Feature.mk (Pain.point a) (Pain.frequency a) (Feature.Number (Pain.responses a)).

(** What [processDataForDisplay] leaves on the page, and how it ends. *)
Definition shown (engine : Engine) (st : Display) (insights : list InsightRecord) : Display :=
  fst (processDataForDisplay engine insights st).

Definition outcome (engine : Engine) (st : Display) (insights : list InsightRecord)
    : string + unit :=
  snd (processDataForDisplay engine insights st).

(** [i.key_learnings?.whatWeLearned]. *)
Definition whatWeLearned_of (i : InsightRecord) : option string :=
  match key_learnings i with
  | Some kl => whatWeLearned kl
  | None => None
  end.

End Ranking.

Module SampleRecords.

Import Analytics.

(** A record with the given pain-point texts and nothing else. *)
Definition with_pains (n : string) (texts : list string) : InsightRecord :=
  mkInsightRecord n "p1" "u1" None None
    (Some (map (fun t => mkPainPointDB (Some t) None) texts))
    None None None "2025-01-01" None.


(** Five records contributing the points A, A, B, A, B. *)
Definition aabab : list InsightRecord :=
  [with_pains "r1" ["A"]; with_pains "r2" ["A"]; with_pains "r3" ["B"];
   with_pains "r4" ["A"]; with_pains "r5" ["B"]].





(** The same pain point with a severity. *)
Definition severe_constructor_pain : list InsightRecord :=
  [mkInsightRecord "r1" "p1" "u1" None None
     (Some [mkPainPointDB (Some "constructor") (Some "high")])
     None None None "2025-01-01" None].


(** An engine that leaves such an array as it is. *)
Definition as_given : Engine :=
  ArraySort.mkEngine _ (fun l => l) (fun l => Permutation_refl l).

End SampleRecords.

(** ** Counting texts in a dictionary *)

Module Tally.

Import Analytics.

Definition keys {V} (o : Obj.t V) : list string := map fst o.

Definition absent {V} (o : Obj.t V) (k : string) : bool :=
  match Obj.get o k with Some _ => false | None => true end.

(** [o[k] = (o[k] || 0) + 1]. *)
Definition bump (o : Obj.t nat) (k : string) : Obj.t nat :=
  Obj.set o k (match Obj.get o k with Some n => n | None => 0 end + 1).

Definition tally_from (o : Obj.t nat) (texts : list string) : Obj.t nat :=
  fold_left bump texts o.

(** The counts held in the pain-point dictionary. *)
Definition counts_of (o : Obj.t PainCount) : Obj.t nat :=
  map (fun e => (fst e, count (snd e))) o.

(** A dictionary of counts as held in the feature dictionary. *)
Definition numbers (o : Obj.t nat) : Obj.t Feature.Count :=
  map (fun e => (fst e, Feature.Number (snd e))) o.

(** No key names an inherited member. *)
Definition plain {V} (o : Obj.t V) : Prop :=
  Forall (fun k => Obj.inherited k = false) (keys o).

Definition index_value (k : string) : N :=
  match Obj.array_index k with Some n => n | None => 0%N end.

End Tally.

(** ** The edge function [ai-interviewer] *)

Module AiInterviewer.

(** An entry of [conversationHistory]; the function reads [type] and
    [content] only. *)
Record HistoryMessage : Type := mkHistoryMessage {
  history_type : string;
  history_content : string
}.

(** The decoded request body; a field is [None] when the body lacks it. *)
Record RequestBody : Type := mkRequestBody {
  productIdea : option string;
  founderPersona : option (option string * option string);
  conversationHistory : option (list HistoryMessage);
  userResponse : option string
}.

Record ChatMessage : Type := mkChatMessage { role : string; chat_content : string }.

Record ChatRequest : Type := mkChatRequest {
  model : string;
  chat_messages : list ChatMessage;
  temperature : Q;
  max_tokens : nat;
  stop : list string
}.

(** The chat-completion call: it throws, or gives
    [choices[0]?.message?.content]. *)
Inductive Completion : Type :=
| CompletionThrows (message : string)
| Choice (content : option string).

Inductive Body : Type :=
| AiResponse (aiResponse : string)
| ErrorBody (error : string).

Record Response : Type := mkResponse { status : nat; body : Body }.

Definition missing_fields : Response :=
  mkResponse 400
    (ErrorBody "Missing required fields: productIdea, conversationHistory, or userResponse").

(** The [catch] block. *)
Definition failed (message : string) : Response :=
  mkResponse 500
    (ErrorBody (if JS.truthy message then message else "Failed to process AI response")).

Definition unsure_reply : string :=
  "I'm not sure how to respond to that. Could you tell me more?".

Definition read_name_of_undefined : string :=
  "Cannot read properties of undefined (reading 'name')".

Definition newline : string := String (ascii_of_nat 10) EmptyString.

Definition system_content (idea : string) (fp : option string * option string) : string :=
  "You are " ++ JS.or_else (fst fp) "a founder" ++ " of "
  ++ JS.or_else (snd fp) "a startup" ++ " conducting a customer interview about: " ++ idea
  ++ ". Be conversational, empathetic, and ask insightful follow-up questions.".

Definition chat_turn (msg : HistoryMessage) : ChatMessage :=
  mkChatMessage (if String.eqb (history_type msg) "ai" then "assistant" else "user")
    (history_content msg).

(** The argument of [openai.chat.completions.create]. *)
Definition chat_request (idea : string) (fp : option string * option string)
    (history : list HistoryMessage) (reply : string) : ChatRequest :=
  mkChatRequest "gpt-4.1-nano"
    (mkChatMessage "system" (system_content idea fp)
     :: map chat_turn history ++ [mkChatMessage "user" reply])
    (7 # 10) 150
    [(newline ++ "User:")%string;
     (newline ++ JS.or_else (fst fp) "Founder" ++ ":")%string].

(** The [try] block once the body is destructured.  The guard does not look
    at [founderPersona]; without it, reading [founderPersona.name] throws. *)
Definition respond (req : RequestBody) (openai : ChatRequest -> Completion) : Response :=
  match productIdea req, conversationHistory req, userResponse req with
  | Some idea, Some history, Some reply =>
      if negb (JS.truthy idea) || negb (JS.truthy reply) then missing_fields
      else
        match founderPersona req with
        | None => failed read_name_of_undefined
        | Some fp =>
            match openai (chat_request idea fp history reply) with
            | CompletionThrows m => failed m
            | Choice content =>
                mkResponse 200
                  (AiResponse (JS.or_else (option_map JS.trim content) unsure_reply))
            end
        end
  | _, _, _ => missing_fields
  end.

(** The handler. *)
Definition serve (req : Http.Request RequestBody) (openai : ChatRequest -> Completion)
    : Http.Reply Response :=
  if String.eqb (Http.method req) "OPTIONS" then Http.Preflight
  else
    Http.Answer
      match Http.json req with
      | Http.NotJson message => failed message
      | Http.JsonNull => failed (Http.cannot_destructure "productIdea")
      | Http.Fields body => respond body openai
      end.

Definition reply_status (r : Http.Reply Response) : nat :=
  match r with
  | Http.Preflight => 200
  | Http.Answer resp => status resp
  end.

End AiInterviewer.

(** ** The page's call of [ai-interviewer] *)

Module TurnGeneration.

Import JS Interview.

(** [arr.slice(-n)]. *)
Definition slice_last {A} (n : nat) (l : list A) : list A := skipn (length l - n) l.

Definition history_message (m : Message) : AiInterviewer.HistoryMessage :=
  AiInterviewer.mkHistoryMessage (match type m with ai => "ai" | user => "user" end)
    (content m).

(** The [body] of the invocation in [handleSendMessage]; [messages] is the
    list the handler was created with, before the reply was appended. *)
Definition invoke_body (pd : ProjectDetails) (fp : FounderPersona)
    (messages : list Message) (userMsgContent : string) : AiInterviewer.RequestBody :=
  AiInterviewer.mkRequestBody
    (Some (or_else (product_idea_prompt pd) (title pd)))
    (Some (name fp, companyName fp))
    (Some (map history_message (slice_last 10 messages)))
    (Some userMsgContent).

Definition decode (b : AiInterviewer.Body) : AiResponseData :=
  match b with
  | AiInterviewer.AiResponse s => mkAiResponseData None (Some s)
  | AiInterviewer.ErrorBody m => mkAiResponseData (Some m) None
  end.

(** [supabase.functions.invoke('ai-interviewer', {body})]. *)
Definition invoke_ai_interviewer (req : AiInterviewer.RequestBody)
    (openai : AiInterviewer.ChatRequest -> AiInterviewer.Completion)
    : InvokeResult AiResponseData :=
  match AiInterviewer.serve (Http.post req) openai with
  | Http.Preflight => Data (mkAiResponseData None None)
  | Http.Answer resp =>
      if (200 <=? AiInterviewer.status resp)%nat && (AiInterviewer.status resp <? 300)%nat
      then Data (decode (AiInterviewer.body resp))
      else FunctionsError "Edge Function returned a non-2xx status code"
  end.

End TurnGeneration.

(** ** Loading the page: the effect on [projectId] *)

Module Loading.

Import JS Interview.
Local Open Scope js_scope.

Inductive ProjectQuery : Type :=
| ProjectError (message : string)
| ProjectMissing
| ProjectFound (pd : ProjectDetails).

(** A row of [profiles] as selected: its [full_name]. *)
Definition ProfileRow : Type := option string.

(** The profile query is made without [.single()]: it gives an error, or
    [data], which is the array of the rows found ([None] is [null]). *)
Inductive ProfileQuery : Type :=
| ProfileError (message : string)
| ProfileData (profileData : option (list ProfileRow)).

(** [profileData?.full_name]: [undefined] for [null], and [undefined] for an
    array, which has no member of that name whatever rows it holds. *)
Definition full_name (profileData : option (list ProfileRow)) : option string :=
  match profileData with
  | None => None
  | Some _ => None
  end.

Record FetchEnv : Type := mkFetchEnv {
  projectQuery : ProjectQuery;
  profileQuery : ProfileQuery
}.

Record Page : Type := mkPage { world : World; isLoading : bool }.

Definition setProjectDetails (v : option ProjectDetails) : M unit :=
  modify_ui (fun s =>
    mkState (messages s) (currentMessage s) (isTyping s) (interviewStarted s)
      (error s) v (founderPersona s) (currentInterviewId s)
      (interviewConcluded s) (insightsLoading s) (insightsError s) (insightsSuccess s)).

Definition setFounderPersona (v : option FounderPersona) : M unit :=
  modify_ui (fun s =>
    mkState (messages s) (currentMessage s) (isTyping s) (interviewStarted s)
      (error s) (projectDetails s) v (currentInterviewId s)
      (interviewConcluded s) (insightsLoading s) (insightsError s) (insightsSuccess s)).

Definition companyName_of (pd : ProjectDetails) : string :=
  if truthy (title pd) then title pd else "Startup".

(** The body of [fetchDetails] between [setIsLoading(true)] and the
    [finally]. *)
Definition fetchDetails (env : FetchEnv) : M unit :=
  setError None ;;
  try_catch_finally
    ( projectData <-
        match projectQuery env with
        | ProjectError m =>
            throw (if truthy m then m else "Project not found or access denied.")
        | ProjectMissing => throw "Project not found or access denied."
        | ProjectFound pd => ret pd
        end ;;
      setProjectDetails (Some projectData) ;;
      match profileQuery env with
      | ProfileError _ =>
          setFounderPersona
            (Some (mkFounderPersona (Some "Founder") (Some (companyName_of projectData))))
      | ProfileData profileData =>
          setFounderPersona
            (Some (mkFounderPersona (Some (or_else (full_name profileData) "Founder"))
                     (Some (companyName_of projectData))))
      end )
    (fun err =>
       setError (Some (if truthy err then err else "Failed to load interview details.")))
    (ret tt).

(** The effect: without a project id it only reports the error. *)
Definition load (projectId : option string) (env : FetchEnv) (p : Page) : Page :=
  if truthy_opt projectId
  then mkPage (fst (fetchDetails env (world p))) false
  else mkPage (fst (setError (Some "No project ID provided.") (world p))) false.

End Loading.

(** ** The analytics page: [fetchAndProcessInsights] *)

Module AnalyticsPage.

Import Analytics.

Record Page : Type := mkPage {
  isLoading : bool;
  error : option string;
  allInsights : list InsightRecord;
  display : Display
}.

(** The insights query: [dbError] with what the [catch] block will see of
    it ([err instanceof Error] and [err.message]), or [data]. *)
Inductive InsightsQuery : Type :=
| QueryError (is_Error : bool) (message : string)
| QueryData (data : option (list InsightRecord)).

(** An exception thrown by [processDataForDisplay] is a [TypeError], an
    instance of [Error]: the [catch] block shows its message.  The records
    were set before the call. *)
Definition fetchAndProcessInsights (engine : Engine) (user : option string)
    (q : InsightsQuery) (p : Page) : Page :=
  match user with
  | None => p
  | Some _ =>
      match q with
      | QueryError is_Error message =>
          mkPage false
            (Some (if is_Error then message else "Failed to load analytics data."))
            (allInsights p) (display p)
      | QueryData data =>
          let rows := match data with Some l => l | None => [] end in
          match processDataForDisplay engine rows (display p) with
          | (d, inr _) => mkPage false None rows d
          | (d, inl message) => mkPage false (Some message) rows d
          end
      end
  end.

End AnalyticsPage.

(** ** Vocabulary of the session properties *)

Module Transcript.

Import JS Interview.

(** The rows of one interview written by one side. *)
Definition rows_of (iid sender : string) (w : World) : list ConversationRow :=
  filter (fun r => String.eqb (interview_id r) iid && String.eqb (sender_type r) sender)
    (conversations (db w)).

(** The respondent texts on the page. *)
Definition local_respondent_texts (w : World) : list string :=
  map content (filter (fun m => MessageType_eqb (type m) user) (messages (ui w))).

(** A reply that is taken up and answered by a generated agent turn. *)
Definition answered (ev : string * SendEnv) : bool :=
  truthy (trim (fst ev))
  && match Session.agent_reply (snd ev) with Some _ => true | None => false end.

Definition answered_count (evs : list (string * SendEnv)) : nat :=
  length (filter answered evs).

End Transcript.

(** ** White space *)

Module Blank.

(** Every code unit of [s] is white space. *)
Fixpoint all_space (s : string) : bool :=
  match s with
  | EmptyString => true
  | String c r => JS.is_space c && all_space r
  end.

End Blank.

(** ** Sample data for loading and extraction *)

Module SampleLoading.

Import Interview.

(** The page as first rendered. *)
Definition blank_page : Loading.Page :=
  Loading.mkPage
    (mkWorld (mkState [] "" false false None None None None false false None false)
       (mkDb [] [] []))
    true.

Definition untitled : ProjectDetails := mkProjectDetails "p2" "" None "u1" None.

Definition found : Loading.FetchEnv :=
  Loading.mkFetchEnv (Loading.ProjectFound untitled)
    (Loading.ProfileData (Some [Some "Ada Lovelace"])).

Definition denied : Loading.FetchEnv :=
  Loading.mkFetchEnv Loading.ProjectMissing
    (Loading.ProfileData (Some [Some "Ada Lovelace"])).

(** A page that holds the project of an earlier load. *)
Definition loaded_page : Loading.Page := Loading.mkPage Sample.loaded false.

End SampleLoading.

(** ** Vocabulary of the display properties *)

Module Shown.

Import JS Analytics.

(** [i.key_learnings?.whatToBuildNext]. *)
Definition whatToBuildNext_of (i : InsightRecord) : option string :=
  match key_learnings i with
  | Some kl => whatToBuildNext kl
  | None => None
  end.

(** The quotes of the records that have a non-empty text, in record order. *)
Definition quoted (insights : list InsightRecord) : list QuoteDB :=
  flat_map (fun i => filter (fun q => truthy_opt (quote q)) (Ranking.opt_list (quotes i)))
    insights.

Definition total_responses (l : list Pain.AggregatedPainPoint) : nat :=
  list_sum (map Pain.responses l).

(** The pain-point texts of one record that are counted. *)
Definition mentions (i : InsightRecord) : list string :=
  flat_map (fun pp => Ranking.counted (point pp)) (Ranking.opt_list (pain_points i)).

(** The non-empty texts of a column, in record order. *)
Definition texts_of (f : InsightRecord -> option string) (insights : list InsightRecord)
    : list string :=
  flat_map (fun i => Ranking.counted (f i)) insights.

(** A text cut to [n] characters, marked when something was cut. *)
Definition abbreviated (n : nat) (s : string) : string :=
  if (String.length s <=? n)%nat then s else (substring0 n s ++ "...")%string.

Definition pain_rows (l : list Pain.AggregatedPainPoint) : list (string * nat) :=
  map (fun a => (Pain.point a, Pain.responses a)) l.

Definition feature_rows (l : list Feature.AggregatedFeatureRequest)
    : list (string * Feature.Count) :=
  map (fun a => (Feature.feature a, Feature.responses a)) l.

(** Rows of numbers as rows of the feature ranking. *)
Definition numbered (rows : list (string * nat)) : list (string * Feature.Count) :=
  map (fun r => (fst r, Feature.Number (snd r))) rows.

(** [rows] lists at most five distinct texts of [texts], each with its number
    of occurrences, in descending order of that number; no text left out
    occurs more often than a listed one, and nothing is left out when there
    are at most five distinct texts. *)
Definition top_five (texts : list string) (rows : list (string * nat)) : Prop :=
  length rows <= 5 /\
  NoDup (map fst rows) /\
  (forall t c, In (t, c) rows ->
     In t texts /\ c = Ranking.occurrences texts t /\ 1 <= c) /\
  Sorted (fun a b => snd b <= snd a) rows /\
  (forall t c u, In (t, c) rows -> In u texts -> ~ In u (map fst rows) ->
     Ranking.occurrences texts u <= c) /\
  (length (Ranking.first_occurrences texts) <= 5 ->
   forall u, In u texts -> In u (map fst rows)).

(** One record naming the same pain point twice. *)
Definition twice : list InsightRecord := [SampleRecords.with_pains "r1" ["slow"; "slow"]].

(** Six records, the last of which alone has a summary. *)
Definition summary_in_sixth : list InsightRecord :=
  repeat (SampleRecords.with_pains "r" []) 5
  ++ [mkInsightRecord "r6" "p1" "u1" (Some "Users want exports") None None None None None
        "2025-01-06" None].

(** A record with a key learning, a quote by the respondent and a summary. *)
Definition full_record : InsightRecord :=
  mkInsightRecord "r1" "p1" "u1" (Some "Checkout is the main obstacle")
    (Some (mkExecutiveSummaryDB (Some "Checkout is slow") (Some "One-click checkout")))
    (Some [mkPainPointDB (Some "slow checkout") (Some "high")])
    (Some [mkQuoteDB (Some "I gave up at the payment page") (Some "User") None;
           mkQuoteDB (Some "") (Some "AI") None])
    None None "2025-01-01" (Some "Shop").

End Shown.

(** * Properties *)

(** ** Strings *)

Section StringFacts.

Import JS.

Lemma prefix_app (p s : string) :
  String.prefix p s = true <-> exists post, s = (p ++ post)%string.
Proof.
  revert s. induction p as [|c p IH]; intros s.
  - split; [intros _; exists s; reflexivity | intros _; destruct s; reflexivity].
  - destruct s as [|c' s]; simpl.
    + split; [discriminate | intros [post H]; discriminate].
    + destruct (Ascii.ascii_dec c c') as [->|Hne].
      * rewrite IH. split; intros [post H]; exists post; congruence.
      * split; [discriminate | intros [post H]; congruence].
Qed.

Lemma includes_app (s p : string) :
  includes s p = true <-> exists pre post, s = (pre ++ p ++ post)%string.
Proof.
  induction s as [|c s IH]; cbn [includes].
  - rewrite orb_false_r, prefix_app. split.
    + intros [post H]. exists EmptyString, post. exact H.
    + intros [pre [post H]]. destruct pre; simpl in H; [eauto | discriminate].
  - rewrite orb_true_iff, prefix_app, IH. split.
    + intros [[post H] | [pre [post H]]].
      * exists EmptyString, post. exact H.
      * exists (String c pre), post. simpl. congruence.
    + intros [pre [post H]]. destruct pre as [|c' pre]; simpl in H.
      * left. eauto.
      * right. exists pre, post. congruence.
Qed.

Lemma toLowerCase_app (a b : string) :
  toLowerCase (a ++ b) = (toLowerCase a ++ toLowerCase b)%string.
Proof. induction a as [|c a IH]; simpl; [reflexivity | now rewrite IH]. Qed.

Lemma toLowerCase_split (s x y : string) :
  toLowerCase s = (x ++ y)%string ->
  exists a b, s = (a ++ b)%string /\ toLowerCase a = x /\ toLowerCase b = y.
Proof.
  revert s. induction x as [|c x IH]; intros s H; simpl in H.
  - exists EmptyString, s. auto.
  - destruct s as [|c' s]; simpl in H; [discriminate|].
    injection H as Hc Hs. destruct (IH _ Hs) as [a [b [-> [Ha Hb]]]].
    exists (String c' a), b. simpl. repeat split; congruence.
Qed.

(** Lowering a character gives the small letter [p] exactly for [p] itself
    and for its capital. *)
Lemma lower_ascii_same_char (c p : ascii) :
  Session.is_capital p = false ->
  (lower_ascii c = p <-> Session.same_char_ci c p = true).
Proof.
  intros Hp. unfold Session.same_char_ci. rewrite Hp, orb_false_r.
  unfold lower_ascii.
  change (nat_of_ascii "A") with 65 in *. change (nat_of_ascii "Z") with 90 in *.
  assert (Hcap : Session.is_capital c
                 = ((65 <=? nat_of_ascii c)%nat && (nat_of_ascii c <=? 90)%nat))
    by reflexivity.
  rewrite <- Hcap. destruct (Session.is_capital c) eqn:Ec.
  - rewrite andb_true_l.
    assert (Hlt : nat_of_ascii c + 32 < 256).
    { symmetry in Hcap. apply andb_prop in Hcap. destruct Hcap as [_ Hcap].
      apply Nat.leb_le in Hcap. lia. }
    split.
    + intros <-. rewrite nat_ascii_embedding by exact Hlt.
      rewrite Nat.eqb_refl. apply orb_true_r.
    + intros H. apply orb_prop in H. destruct H as [H|H].
      * apply Ascii.eqb_eq in H. subst p. congruence.
      * apply Nat.eqb_eq in H. rewrite <- H. apply ascii_nat_embedding.
  - rewrite andb_false_l, orb_false_r. split.
    + intros ->. apply Ascii.eqb_refl.
    + intros H. now apply Ascii.eqb_eq in H.
Qed.

Lemma toLowerCase_same_text (s phrase : string) :
  Session.no_capital phrase = true ->
  (toLowerCase s = phrase <-> Session.same_text_ci s phrase = true).
Proof.
  revert phrase. induction s as [|c s IH]; intros [|p phrase] Hp; simpl;
    try (split; [discriminate | discriminate]); [tauto|].
  simpl in Hp. apply andb_prop in Hp. destruct Hp as [Hc Hr].
  apply negb_true_iff in Hc.
  rewrite andb_true_iff, <- (lower_ascii_same_char c p Hc), <- (IH phrase Hr).
  split; [intros H; injection H; auto | intros [-> ->]; reflexivity].
Qed.

(** [s.toLowerCase().includes(phrase)], for a phrase written in small
    letters, is the occurrence of [phrase] in [s] up to letter case. *)
Lemma includes_toLowerCase (s phrase : string) :
  Session.no_capital phrase = true ->
  (includes (toLowerCase s) phrase = true <-> Session.contains_ci s phrase).
Proof.
  intros Hp. unfold Session.contains_ci. rewrite includes_app. split.
  - intros [pre [post H]].
    destruct (toLowerCase_split _ _ _ H) as [a [r [-> [_ Hr]]]].
    destruct (toLowerCase_split _ _ _ Hr) as [m [b [-> [Hm _]]]].
    exists a, m, b. split; [reflexivity|]. now apply toLowerCase_same_text.
  - intros [pre [mid [post [-> Hm]]]].
    apply toLowerCase_same_text in Hm; [|exact Hp].
    exists (toLowerCase pre), (toLowerCase post).
    now rewrite !toLowerCase_app, Hm.
Qed.

End StringFacts.

(** ** The built-ins on small inputs *)

Section BuiltinExamples.

Example trim_removes_outer_space : JS.trim "  hi there  " = "hi there".
Proof. reflexivity. Qed.

Example trim_blank : JS.truthy (JS.trim "   ") = false.
Proof. reflexivity. Qed.

Example closing_phrase_any_case :
  JS.includes (JS.toLowerCase "Well, THANK you for Your time!") Interview.closing_phrase
  = true.
Proof. reflexivity. Qed.

Example glitch_reply_has_no_closing_phrase :
  JS.includes (JS.toLowerCase Interview.glitch_reply) Interview.closing_phrase = false.
Proof. reflexivity. Qed.

Example toString_array :
  Json.toString (Json.JArray [Json.JNumber 12; Json.JNull; Json.JString "a"]) = "12,,a".
Proof. reflexivity. Qed.

Example stringify_parses_back_by_hand :
  Json.stringify (Json.JObject [("a", Json.JArray [Json.JNumber 1; Json.JBool true])])
  = ("{" ++ Json.quoted "a" ++ ":[1,true]}")%string.
Proof. reflexivity. Qed.

Example array_index_canonical :
  Obj.array_index "10" = Some 10%N /\ Obj.array_index "007" = None /\
  Obj.array_index "4294967294" = Some 4294967294%N /\
  Obj.array_index "4294967295" = None /\ Obj.array_index "1e3" = None.
Proof. repeat split; reflexivity. Qed.

Example entries_order :
  map fst (Obj.entries [("b", 1); ("10", 2); ("a", 3); ("2", 4)]) = ["2"; "10"; "b"; "a"].
Proof. reflexivity. Qed.

Example set_keeps_place :
  Obj.set [("b", 1); ("a", 3)] "b" 7 = [("b", 7); ("a", 3)].
Proof. reflexivity. Qed.

Example sort_is_stable :
  ArraySort.sort (fun a b : string * Z => (snd b - snd a)%Z)
    [("x", 1%Z); ("y", 3%Z); ("z", 1%Z); ("w", 3%Z)]
  = [("y", 3%Z); ("w", 3%Z); ("x", 1%Z); ("z", 1%Z)].
Proof. reflexivity. Qed.

Example key_insight_text_cases :
  Analytics.key_insight_text [] = "undefined" /\
  Analytics.key_insight_text ["Users plan on Sundays"] = "Users plan on Sundays".
Proof. split; reflexivity. Qed.

End BuiltinExamples.

(** ** One reply *)

Section SessionSteps.

Import JS Interview Session.
Local Open Scope js_scope.

Ltac step_handler :=
  cbn beta iota zeta delta
    [submitReply handleSendMessage
     bind ret throw modify_ui modify_db
     setMessages setCurrentMessage setIsTyping setInterviewConcluded
     insert_conversation complete_interview
     fst snd ui db
     messages currentMessage isTyping interviewStarted error projectDetails
     founderPersona currentInterviewId interviewConcluded insightsLoading
     insightsError insightsSuccess
     interviews conversations insights
     now_user user_row_stored invoke_ai now_ai ai_row_stored now_completed
     completion_stored].

Ltac open_world w :=
  let s := fresh "s" in
  let d := fresh "d" in
  destruct w as [s d]; destruct s; destruct d;
  cbn [ui db messages currentMessage isTyping interviewStarted error
       projectDetails founderPersona currentInterviewId interviewConcluded
       insightsLoading insightsError insightsSuccess
       interviews conversations insights] in *; subst.

Lemma in_progress_inv w :
  in_progress w = true ->
  exists pd fp iid,
    projectDetails (ui w) = Some pd /\ founderPersona (ui w) = Some fp /\
    currentInterviewId (ui w) = Some iid /\ truthy iid = true /\
    interviewConcluded (ui w) = false.
Proof.
  unfold in_progress. intros H.
  destruct (projectDetails (ui w)) as [pd|]; [|discriminate].
  destruct (founderPersona (ui w)) as [fp|]; [|discriminate].
  destruct (currentInterviewId (ui w)) as [iid|]; [|discriminate].
  apply andb_prop in H. destruct H as [Hi Hc]. apply negb_true_iff in Hc.
  exists pd, fp, iid. auto.
Qed.

(** The guard: a concluded session, or a blank input, leaves everything as
    it is and the handler returns normally. *)
Lemma handleSendMessage_concluded w env :
  interviewConcluded (ui w) = true -> handleSendMessage env w = (w, inr tt).
Proof.
  intros H. unfold handleSendMessage.
  destruct (projectDetails (ui w)), (founderPersona (ui w)),
    (currentInterviewId (ui w)); try reflexivity.
  now rewrite H, orb_true_r.
Qed.

Lemma handleSendMessage_blank w env :
  truthy (trim (currentMessage (ui w))) = false -> handleSendMessage env w = (w, inr tt).
Proof.
  intros H. unfold handleSendMessage.
  destruct (projectDetails (ui w)), (founderPersona (ui w)),
    (currentInterviewId (ui w)); try reflexivity.
  now rewrite H.
Qed.

Lemma map_marked_completed iid now rows :
  marked_completed iid now rows
    (map (fun r =>
            if String.eqb (interview_row_id r) iid
            then mkInterviewRow (interview_row_id r) (interview_project_id r)
                   (interview_user_id r) "completed" (started_at r) (Some now)
            else r) rows).
Proof.
  unfold marked_completed. induction rows as [|r rows IH]; simpl; constructor; [|exact IH].
  destruct (String.eqb (interview_row_id r) iid) eqn:E; simpl; rewrite ?E; auto 7.
Qed.

(** A reply whose turn-generation call succeeds. *)
Lemma submitReply_success w reply env answer iid :
  in_progress w = true -> currentInterviewId (ui w) = Some iid ->
  truthy (trim reply) = true -> agent_reply env = Some answer ->
  let w' := fst (submitReply reply env w) in
  let met := ((4 <=? userMessageCount
                       (messages (ui w) ++ [respondent_turn reply env; agent_turn answer env]))%nat
              || includes (toLowerCase answer) closing_phrase) in
  snd (submitReply reply env w) = inr tt /\
  messages (ui w') =
    messages (ui w) ++ [respondent_turn reply env; agent_turn answer env] /\
  conversations (db w') =
    conversations (db w)
    ++ stored_rows (user_row_stored env) (mkConversationRow iid "user" (trim reply))
    ++ stored_rows (ai_row_stored env) (mkConversationRow iid "ai" answer) /\
  interviewConcluded (ui w') = met /\
  in_progress w' = negb met /\
  currentInterviewId (ui w') = Some iid /\
  insights (db w') = insights (db w) /\
  (met && completion_stored env = false -> interviews (db w') = interviews (db w)) /\
  (met && completion_stored env = true ->
   marked_completed iid (now_completed env) (interviews (db w)) (interviews (db w'))).
Proof.
  intros Hp Hid Hn Ha.
  destruct (in_progress_inv w Hp) as [pd [fp [iid' [Epd [Efp [Eid [Hi Hc]]]]]]].
  rewrite Hid in Eid. injection Eid as <-.
  unfold in_progress, respondent_turn, agent_turn, stored_rows. open_world w.
  unfold agent_reply in Ha.
  destruct env as [t1 su inv t2 sa t3 sc].
  cbn [now_user user_row_stored invoke_ai now_ai ai_row_stored now_completed
       completion_stored] in *.
  destruct inv as [m|dd] eqn:Einv; [discriminate|].
  destruct su, sa, sc;
    step_handler; rewrite Hn, Hi; cbn [negb orb];
    unfold try_catch_finally;
    (destruct (response_error dd) as [e|] eqn:Ee; cbn [truthy_opt] in Ha;
     [destruct (truthy e) eqn:Et; [discriminate|]|]);
    injection Ha as <-; step_handler;
    rewrite <- ?app_assoc; cbn [app];
    match goal with
    | |- context [if ?c then _ else _] => destruct c eqn:Ec
    end; step_handler; rewrite ?Hi; rewrite ?app_nil_r;
    repeat split; try reflexivity; try discriminate;
    try (intros _; apply map_marked_completed);
    now rewrite <- ?app_assoc.
Qed.

(** A reply whose turn-generation call fails. *)
Lemma submitReply_failure w reply env iid :
  in_progress w = true -> currentInterviewId (ui w) = Some iid ->
  truthy (trim reply) = true -> agent_reply env = None ->
  let w' := fst (submitReply reply env w) in
  snd (submitReply reply env w) = inr tt /\
  messages (ui w') =
    messages (ui w) ++
      [respondent_turn reply env; mkMessage (now_ai env + 1) ai apology (now_ai env)] /\
  conversations (db w') =
    conversations (db w)
    ++ stored_rows (user_row_stored env) (mkConversationRow iid "user" (trim reply)) /\
  interviewConcluded (ui w') = false /\
  in_progress w' = true /\
  currentInterviewId (ui w') = Some iid /\
  isTyping (ui w') = false /\
  insights (db w') = insights (db w) /\
  interviews (db w') = interviews (db w).
Proof.
  intros Hp Hid Hn Ha.
  destruct (in_progress_inv w Hp) as [pd [fp [iid' [Epd [Efp [Eid [Hi Hc]]]]]]].
  rewrite Hid in Eid. injection Eid as <-.
  unfold in_progress, respondent_turn, stored_rows. open_world w.
  unfold agent_reply in Ha.
  destruct env as [t1 su inv t2 sa t3 sc].
  cbn [now_user user_row_stored invoke_ai now_ai ai_row_stored now_completed
       completion_stored] in *.
  destruct su; step_handler; rewrite Hn, Hi; cbn [negb orb];
    unfold try_catch_finally;
    (destruct inv as [m|dd] eqn:Einv;
     [|destruct (response_error dd) as [e|] eqn:Ee; cbn [truthy_opt] in Ha;
       [destruct (truthy e) eqn:Et; [|discriminate]|discriminate]]);
    step_handler; rewrite Hi, <- ?app_assoc, ?app_nil_r;
    repeat split; reflexivity.
Qed.

(** A blank reply only changes the input field. *)
Lemma submitReply_blank w reply env :
  truthy (trim reply) = false ->
  let w' := fst (submitReply reply env w) in
  snd (submitReply reply env w) = inr tt /\
  messages (ui w') = messages (ui w) /\
  db w' = db w /\
  interviewConcluded (ui w') = interviewConcluded (ui w) /\
  in_progress w' = in_progress w /\
  currentInterviewId (ui w') = currentInterviewId (ui w).
Proof.
  intros Hn. unfold submitReply, bind, setCurrentMessage, modify_ui.
  rewrite handleSendMessage_blank by exact Hn.
  unfold in_progress. cbn. repeat split; reflexivity.
Qed.

(** Once concluded, a reply changes neither the turns nor the tables. *)
Lemma submitReply_concluded w reply env :
  interviewConcluded (ui w) = true ->
  let w' := fst (submitReply reply env w) in
  snd (submitReply reply env w) = inr tt /\
  messages (ui w') = messages (ui w) /\
  db w' = db w /\
  interviewConcluded (ui w') = true.
Proof.
  intros Hc. unfold submitReply, bind, setCurrentMessage, modify_ui.
  rewrite handleSendMessage_concluded by exact Hc.
  cbn. repeat split; try reflexivity. exact Hc.
Qed.

End SessionSteps.

(** ** Sequences of replies *)

Section SessionRuns.

Import JS Interview Session.

Lemma run_app w evs1 evs2 : run w (evs1 ++ evs2) = run (run w evs1) evs2.
Proof.
  revert w. induction evs1 as [|[reply env] evs1 IH]; intros w; simpl; auto.
Qed.

Lemma run_concluded w evs :
  concluded w = true ->
  concluded (run w evs) = true /\
  messages (ui (run w evs)) = messages (ui w) /\ db (run w evs) = db w.
Proof.
  revert w. induction evs as [|[reply env] evs IH]; intros w Hc; simpl; auto.
  destruct (submitReply_concluded w reply env Hc) as [_ [Hm [Hd Hc']]].
  destruct (IH _ Hc') as [H1 [H2 H3]].
  repeat split; congruence.
Qed.

(** What one reply does to a session in progress. *)
Lemma step_in_progress w reply env :
  in_progress w = true ->
  let w' := fst (submitReply reply env w) in
  (concluded w' = false /\ in_progress w' = true) \/
  (concluded w' = true /\ truthy (trim reply) = true /\
   exists answer, agent_reply env = Some answer /\
     ((4 <=? userMessageCount (messages (ui w')))%nat
      || includes (toLowerCase answer) closing_phrase) = true).
Proof.
  intros Hp. destruct (in_progress_inv w Hp) as [pd [fp [iid [_ [_ [Eid [_ Hc]]]]]]].
  destruct (truthy (trim reply)) eqn:Hn.
  - destruct (agent_reply env) as [answer|] eqn:Ha.
    + destruct (submitReply_success w reply env answer iid Hp Eid Hn Ha)
        as [_ [Hm [_ [Hcc [Hip _]]]]].
      cbv zeta. unfold concluded. rewrite Hm, Hcc, Hip.
      match goal with |- context [negb ?m] => destruct m eqn:Em end.
      * right. repeat split; auto. exists answer. auto.
      * left. auto.
    + destruct (submitReply_failure w reply env iid Hp Eid Hn Ha)
        as [_ [_ [_ [Hcc [Hip _]]]]].
      left. auto.
  - destruct (submitReply_blank w reply env Hn) as [_ [_ [_ [Hcc [Hip _]]]]].
    left. cbv zeta. unfold concluded. rewrite Hcc, Hip. auto.
Qed.

Lemma in_progress_not_concluded w : in_progress w = true -> concluded w = false.
Proof.
  intros Hp. destruct (in_progress_inv w Hp) as [pd [fp [iid [_ [_ [_ [_ Hc]]]]]]].
  exact Hc.
Qed.

(** A session that is not concluded after some replies was in progress
    after every prefix of them. *)
Lemma run_in_progress w pre post :
  in_progress w = true -> concluded (run w (pre ++ post)) = false ->
  in_progress (run w pre) = true.
Proof.
  revert w. induction pre as [|[reply env] pre IH]; intros w Hp Hc; simpl in *; auto.
  destruct (step_in_progress w reply env Hp) as [[_ Hp'] | [Hc' _]].
  - now apply IH.
  - destruct (run_concluded _ (pre ++ post) Hc') as [H _]. congruence.
Qed.

End SessionRuns.

(** ** The session claims *)

Section SessionClaims.

Import JS Interview Session.

Lemma termination_predicate ms answer :
  ((4 <=? userMessageCount ms)%nat || includes (toLowerCase answer) closing_phrase) = true
  <-> 4 <= userMessageCount ms \/ contains_ci answer closing_phrase.
Proof.
  rewrite orb_true_iff, Nat.leb_le, includes_toLowerCase; [reflexivity|].
  reflexivity.
Qed.

Lemma run_concluded_first w evs :
  in_progress w = true ->
  (concluded (run w evs) = true <->
   exists pre reply env answer post,
     evs = pre ++ (reply, env) :: post /\
     in_progress (run w pre) = true /\
     truthy (trim reply) = true /\ agent_reply env = Some answer /\
     (4 <= userMessageCount (messages (ui (run w (pre ++ [(reply, env)]))))
      \/ contains_ci answer closing_phrase)).
Proof.
  intros Hp. split.
  - revert w Hp. induction evs as [|[reply env] evs IH]; intros w Hp Hc.
    + simpl in Hc. rewrite (in_progress_not_concluded w Hp) in Hc. discriminate.
    + simpl in Hc.
      destruct (step_in_progress w reply env Hp) as [[_ Hp'] | [Hc' [Hn [answer [Ha Hm]]]]].
      * destruct (IH _ Hp' Hc) as [pre [r [e [a [post [-> [H1 [H2 [H3 H4]]]]]]]]].
        exists ((reply, env) :: pre), r, e, a, post. simpl. auto.
      * exists [], reply, env, answer, evs. simpl.
        apply termination_predicate in Hm. auto.
  - intros [pre [reply [env [answer [post [-> [Hpp [Hn [Ha Hm]]]]]]]]].
    rewrite run_app. simpl.
    rewrite run_app in Hm. simpl in Hm.
    destruct (in_progress_inv _ Hpp) as [pd [fp [iid [_ [_ [Eid _]]]]]].
    destruct (submitReply_success _ reply env answer iid Hpp Eid Hn Ha)
      as [_ [Hms [_ [Hcc _]]]].
    apply run_concluded. unfold concluded. rewrite Hcc, <- Hms.
    now apply termination_predicate.
Qed.

(** C1. In a session in progress, a reply whose agent turn is generated
    appends the respondent turn and the agent turn, and concludes the
    session exactly when the respondent turns then number at least 4 or some
    part of the agent's text spells "thank you for your time" when the case
    of letters is disregarded; otherwise the session stays in progress and
    the interview rows are untouched.  On conclusion the page asks the store
    to mark the interview row: if the store takes the update the rows of the
    interview have status "completed" and the completion time, and nothing
    else changes; the page does not look at the answer.  Over any sequence of
    replies the session is concluded exactly when some reply, sent while the
    session was still in progress, met that condition; until then the
    session is in progress after every reply. *)
Theorem C1_concludes_exactly_on_termination_predicate :
  forall (w : World) (evs : list (string * SendEnv)),
    in_progress w = true ->
    (forall reply env answer,
       truthy (trim reply) = true -> agent_reply env = Some answer ->
       let w' := fst (submitReply reply env w) in
       messages (ui w') =
         messages (ui w) ++ [respondent_turn reply env; agent_turn answer env] /\
       (concluded w' = true <->
          4 <= userMessageCount (messages (ui w'))
          \/ contains_ci answer closing_phrase) /\
       (concluded w' = false ->
          in_progress w' = true /\ interviews (db w') = interviews (db w)) /\
       (concluded w' = true ->
          forall iid, currentInterviewId (ui w) = Some iid ->
            if completion_stored env
            then marked_completed iid (now_completed env)
                   (interviews (db w)) (interviews (db w'))
            else interviews (db w') = interviews (db w))) /\
    (concluded (run w evs) = true <->
       exists pre reply env answer post,
         evs = pre ++ (reply, env) :: post /\
         in_progress (run w pre) = true /\
         truthy (trim reply) = true /\ agent_reply env = Some answer /\
         (4 <= userMessageCount (messages (ui (run w (pre ++ [(reply, env)]))))
          \/ contains_ci answer closing_phrase)) /\
    (forall pre post,
       evs = pre ++ post -> concluded (run w evs) = false ->
       in_progress (run w pre) = true).
Proof.
  intros w evs Hp. split; [|split].
  - intros reply env answer Hn Ha.
    destruct (in_progress_inv _ Hp) as [pd [fp [iid [_ [_ [Eid _]]]]]].
    destruct (submitReply_success w reply env answer iid Hp Eid Hn Ha)
      as [_ [Hms [_ [Hcc [Hip [_ [_ [Hopen Hdone]]]]]]]].
    cbv zeta. unfold concluded. rewrite Hms, Hcc, Hip. split; [reflexivity|].
    split; [apply termination_predicate|]. split.
    + intros Hmet. rewrite Hmet. split; [reflexivity|]. apply Hopen. now rewrite Hmet.
    + intros Hmet iid' Eid'. rewrite Eid in Eid'. injection Eid' as <-.
      destruct (completion_stored env).
      * apply Hdone. now rewrite Hmet.
      * apply Hopen. rewrite Hmet. reflexivity.
  - now apply run_concluded_first.
  - intros pre post ->. now apply run_in_progress.
Qed.

Lemma C1_witness :
  in_progress Sample.started = true /\
  concluded (run Sample.started Sample.four_replies) = true /\
  concluded (run Sample.started Sample.early_close) = true /\
  concluded (run Sample.started (firstn 3 Sample.four_replies)) = false /\
  in_progress (run Sample.started (firstn 3 Sample.four_replies)) = true.
Proof.
  assert (Hp : in_progress Sample.started = true) by reflexivity.
  split; [exact Hp|]. split; [|split; [|split]].
  - apply (proj1 (proj2 (C1_concludes_exactly_on_termination_predicate
                           Sample.started Sample.four_replies Hp))).
    exists (firstn 3 Sample.four_replies), "Probably, yes",
      (Sample.answers 500 "Great, tell me more."), "Great, tell me more.", [].
    repeat split; try reflexivity. left. vm_compute. lia.
  - apply (proj1 (proj2 (C1_concludes_exactly_on_termination_predicate
                           Sample.started Sample.early_close Hp))).
    exists (firstn 1 Sample.early_close), "I have to go",
      (Sample.answers 300 "No problem. Thank You for your time!"),
      "No problem. Thank You for your time!", [].
    repeat split; try reflexivity. right.
    exists "No problem. ", "Thank You for your time", "!". split; reflexivity.
  - reflexivity.
  - apply (proj2 (proj2 (C1_concludes_exactly_on_termination_predicate
                           Sample.started (firstn 3 Sample.four_replies) Hp))
             (firstn 3 Sample.four_replies) []); reflexivity.
Defined.

End SessionClaims.

(** ** Replies after conclusion and failed turn generation *)

Section SessionErrors.

Import JS Interview Session.

(** C2 as stated does not hold: on a concluded session the handler returns
    normally; no error of any kind reaches the caller. *)
Lemma C2_counterexample :
  concluded Sample.finished = true /\
  snd (submitReply "one more thing" (Sample.answers 600 "Sure") Sample.finished) = inr tt /\
  ~ (exists e : string,
       snd (submitReply "one more thing" (Sample.answers 600 "Sure") Sample.finished) = inl e).
Proof.
  split; [reflexivity|]. split; [reflexivity|].
  intros [e H]. vm_compute in H. discriminate.
Qed.

(** C2, amended. On a concluded session, for every reply text, the handler
    returns normally without raising anything and changes nothing: no turn is
    added to the message list, none to the transcript store, and the session
    stays concluded. *)
Theorem C2_reply_after_conclusion_is_ignored :
  forall (w : World) (reply : string) (env : SendEnv),
    concluded w = true ->
    handleSendMessage env w = (w, inr tt) /\
    snd (submitReply reply env w) = inr tt /\
    messages (ui (fst (submitReply reply env w))) = messages (ui w) /\
    conversations (db (fst (submitReply reply env w))) = conversations (db w) /\
    concluded (fst (submitReply reply env w)) = true.
Proof.
  intros w reply env Hc. split; [now apply handleSendMessage_concluded|].
  destruct (submitReply_concluded w reply env Hc) as [H1 [H2 [H3 H4]]].
  rewrite H3. auto.
Qed.

Lemma C2_witness :
  concluded Sample.finished = true /\
  messages (ui (fst (submitReply "one more thing" (Sample.answers 600 "Sure") Sample.finished)))
  = messages (ui Sample.finished).
Proof.
  split; [reflexivity|].
  apply (C2_reply_after_conclusion_is_ignored Sample.finished "one more thing"
           (Sample.answers 600 "Sure")).
  reflexivity.
Defined.

(** A reply sent to a session in progress is taken up: its respondent turn
    is put on the message list and handed to the transcript store. *)
Lemma reply_accepted w reply env iid :
  in_progress w = true -> currentInterviewId (ui w) = Some iid ->
  truthy (trim reply) = true ->
  exists m,
    messages (ui (fst (submitReply reply env w))) =
      messages (ui w) ++ [respondent_turn reply env; m] /\
    exists rows,
      conversations (db (fst (submitReply reply env w))) =
        conversations (db w)
        ++ stored_rows (user_row_stored env) (mkConversationRow iid "user" (trim reply))
        ++ rows.
Proof.
  intros Hp Eid Hn. destruct (agent_reply env) as [answer|] eqn:Ha.
  - destruct (submitReply_success w reply env answer iid Hp Eid Hn Ha)
      as [_ [Hm [Hcv _]]].
    eexists. split; [exact Hm|]. eexists. exact Hcv.
  - destruct (submitReply_failure w reply env iid Hp Eid Hn Ha)
      as [_ [Hm [Hcv _]]].
    eexists. split; [exact Hm|]. exists []. now rewrite app_nil_r.
Qed.

(** C7. When the turn-generation call of a reply fails, the session stays in
    progress (neither the page nor the interview row is concluded), the
    apology turn is appended to the message list after the respondent turn,
    the transcript store receives the respondent row (if it takes the insert)
    and nothing else, and the next reply is taken up. *)
Theorem C7_failed_generation_keeps_session_in_progress :
  forall (w : World) (reply : string) (env : SendEnv) (iid : string),
    in_progress w = true -> currentInterviewId (ui w) = Some iid ->
    truthy (trim reply) = true -> agent_reply env = None ->
    let w' := fst (submitReply reply env w) in
    in_progress w' = true /\ concluded w' = false /\
    interviews (db w') = interviews (db w) /\
    messages (ui w') =
      messages (ui w) ++
        [respondent_turn reply env; mkMessage (now_ai env + 1) ai apology (now_ai env)] /\
    conversations (db w') =
      conversations (db w)
      ++ stored_rows (user_row_stored env) (mkConversationRow iid "user" (trim reply)) /\
    (user_row_stored env = true ->
     conversations (db w') =
       conversations (db w) ++ [mkConversationRow iid "user" (trim reply)]) /\
    isTyping (ui w') = false /\
    (forall reply2 env2,
       truthy (trim reply2) = true ->
       exists m,
         messages (ui (fst (submitReply reply2 env2 w'))) =
           messages (ui w') ++ [respondent_turn reply2 env2; m]).
Proof.
  intros w reply env iid Hp Eid Hn Ha.
  destruct (submitReply_failure w reply env iid Hp Eid Hn Ha)
    as [_ [Hm [Hcv [Hcc [Hip [Hid [Hty [_ Hiv]]]]]]]].
  cbv zeta. repeat split; auto.
  - intros Hs. rewrite Hcv, Hs. reflexivity.
  - intros reply2 env2 Hn2.
    destruct (reply_accepted _ reply2 env2 iid Hip Hid Hn2) as [m [H _]].
    exists m. exact H.
Qed.

Lemma C7_witness :
  in_progress Sample.started = true /\
  in_progress (fst (submitReply "I cook most evenings" (Sample.fails 200) Sample.started)) = true.
Proof.
  split; [reflexivity|].
  apply (C7_failed_generation_keeps_session_in_progress Sample.started
           "I cook most evenings" (Sample.fails 200) "i1"); reflexivity.
Defined.

Lemma failures_persist w evs iid :
  in_progress w = true -> currentInterviewId (ui w) = Some iid ->
  Forall (fun ev => truthy (trim (fst ev)) = true /\ agent_reply (snd ev) = None) evs ->
  in_progress (run w evs) = true /\
  conversations (db (run w evs)) = conversations (db w) ++ rows_taken iid evs.
Proof.
  intros Hp Eid HF. revert w Hp Eid.
  induction HF as [|[reply env] evs [Hn Ha] _ IH]; intros w Hp Eid; simpl in *.
  - now rewrite app_nil_r.
  - destruct (submitReply_failure w reply env iid Hp Eid Hn Ha)
      as [_ [_ [Hcv [_ [Hip [Hid _]]]]]].
    destruct (IH _ Hip Hid) as [H1 H2].
    split; [exact H1|]. rewrite H2, Hcv, <- app_assoc. reflexivity.
Qed.

Lemma persisted_respondent_turns_app w rows :
  length (filter (fun r => String.eqb (sender_type r) "user")
            (conversations (db w) ++ rows)) =
  persisted_respondent_turns w
  + length (filter (fun r => String.eqb (sender_type r) "user") rows).
Proof. unfold persisted_respondent_turns. now rewrite filter_app, length_app. Qed.

Lemma rows_taken_user iid evs :
  length (filter (fun r => String.eqb (sender_type r) "user") (rows_taken iid evs))
  = length (filter (fun ev => user_row_stored (snd ev)) evs).
Proof.
  induction evs as [|[reply env] evs IH]; [reflexivity|].
  cbn [rows_taken flat_map filter snd fst]. fold (rows_taken iid evs).
  rewrite filter_app, length_app, IH.
  destruct (user_row_stored env); reflexivity.
Qed.

Lemma rows_taken_ai iid evs :
  filter (fun r => String.eqb (sender_type r) "ai") (rows_taken iid evs) = [].
Proof.
  induction evs as [|[reply env] evs IH]; [reflexivity|].
  cbn [rows_taken flat_map snd fst]. fold (rows_taken iid evs).
  rewrite filter_app, IH. destruct (user_row_stored env); reflexivity.
Qed.

(** C9. A reply whose turn-generation call fails leaves its respondent row,
    once the store has taken it, in the transcript store and adds no agent
    row.  Over replies that all fail, the store grows by one respondent row
    for each reply whose insert it takes, while the session stays in
    progress; four such replies give a session in progress whose store holds
    at least 4 respondent rows. *)
Theorem C9_failed_reply_keeps_its_respondent_row :
  forall (w : World) (iid : string),
    in_progress w = true -> currentInterviewId (ui w) = Some iid ->
    (forall reply env,
       truthy (trim reply) = true -> agent_reply env = None ->
       user_row_stored env = true ->
       conversations (db (fst (submitReply reply env w))) =
         conversations (db w) ++ [mkConversationRow iid "user" (trim reply)]) /\
    (forall evs,
       Forall (fun ev => truthy (trim (fst ev)) = true /\ agent_reply (snd ev) = None) evs ->
       in_progress (run w evs) = true /\
       persisted_respondent_turns (run w evs)
       = persisted_respondent_turns w
         + length (filter (fun ev => user_row_stored (snd ev)) evs) /\
       (Forall (fun ev => user_row_stored (snd ev) = true) evs ->
        persisted_respondent_turns (run w evs) = persisted_respondent_turns w + length evs) /\
       filter (fun r => String.eqb (sender_type r) "ai") (conversations (db (run w evs)))
       = filter (fun r => String.eqb (sender_type r) "ai") (conversations (db w))) /\
    (exists evs,
       in_progress (run w evs) = true /\ 4 <= persisted_respondent_turns (run w evs)).
Proof.
  intros w iid Hp Eid.
  assert (Hruns : forall evs,
    Forall (fun ev => truthy (trim (fst ev)) = true /\ agent_reply (snd ev) = None) evs ->
    in_progress (run w evs) = true /\
    persisted_respondent_turns (run w evs)
    = persisted_respondent_turns w
      + length (filter (fun ev => user_row_stored (snd ev)) evs) /\
    (Forall (fun ev => user_row_stored (snd ev) = true) evs ->
     persisted_respondent_turns (run w evs) = persisted_respondent_turns w + length evs) /\
    filter (fun r => String.eqb (sender_type r) "ai") (conversations (db (run w evs)))
    = filter (fun r => String.eqb (sender_type r) "ai") (conversations (db w))).
  { intros evs HF. destruct (failures_persist w evs iid Hp Eid HF) as [H1 H2].
    assert (Hcount : persisted_respondent_turns (run w evs)
                     = persisted_respondent_turns w
                       + length (filter (fun ev => user_row_stored (snd ev)) evs)).
    { unfold persisted_respondent_turns at 1.
      now rewrite H2, persisted_respondent_turns_app, rows_taken_user. }
    split; [exact H1|]. split; [exact Hcount|]. split.
    - intros Hall. rewrite Hcount. f_equal. f_equal.
      clear - Hall. induction Hall as [|ev evs Hev _ IH]; [reflexivity|].
      cbn [filter]. rewrite Hev. now rewrite IH.
    - rewrite H2, filter_app, rows_taken_ai. apply app_nil_r. }
  split; [|split].
  - intros reply env Hn Ha Hs.
    destruct (submitReply_failure w reply env iid Hp Eid Hn Ha) as [_ [_ [Hcv _]]].
    rewrite Hcv, Hs. reflexivity.
  - exact Hruns.
  - exists Sample.four_failures.
    destruct (Hruns Sample.four_failures) as [H1 [H2 _]].
    + repeat constructor.
    + split; [exact H1|]. rewrite H2. simpl. lia.
Qed.

Lemma C9_witness :
  in_progress Sample.started = true /\
  in_progress (run Sample.started Sample.four_failures) = true /\
  persisted_respondent_turns (run Sample.started Sample.four_failures) = 4.
Proof.
  split; [reflexivity|].
  destruct (C9_failed_reply_keeps_its_respondent_row Sample.started "i1" eq_refl eq_refl)
    as [_ [H _]].
  destruct (H Sample.four_failures) as [H1 [_ [H2 _]]].
  - repeat constructor.
  - split; [exact H1|]. rewrite H2; [reflexivity | repeat constructor].
Defined.

End SessionErrors.

(** ** Insight extraction *)

Section ExtractionFacts.

Import JS Interview Extraction.
Local Open Scope js_scope.

Ltac step_insights :=
  cbn beta iota zeta delta
    [processInsights
     bind ret throw modify_ui modify_db
     setInsightsLoading setInsightsError setInsightsSuccess insert_insight
     fst snd ui db
     messages currentMessage isTyping interviewStarted error projectDetails
     founderPersona currentInterviewId interviewConcluded insightsLoading
     insightsError insightsSuccess
     interviews conversations insights].

Ltac open_world w :=
  let s := fresh "s" in
  let d := fresh "d" in
  destruct w as [s d]; destruct s; destruct d;
  cbn [ui db messages currentMessage isTyping interviewStarted error
       projectDetails founderPersona currentInterviewId interviewConcluded
       insightsLoading insightsError insightsSuccess
       interviews conversations insights] in *; subst.

Lemma ready_inv w :
  ready w = true ->
  exists pd fp iid,
    projectDetails (ui w) = Some pd /\ founderPersona (ui w) = Some fp /\
    currentInterviewId (ui w) = Some iid /\ truthy iid = true /\
    interviewConcluded (ui w) = true.
Proof.
  unfold ready. intros H.
  destruct (projectDetails (ui w)) as [pd|]; [|discriminate].
  destruct (founderPersona (ui w)) as [fp|]; [|discriminate].
  destruct (currentInterviewId (ui w)) as [iid|]; [|discriminate].
  apply andb_prop in H. destruct H as [Hi Hc].
  exists pd, fp, iid. auto.
Qed.

(** The page's request is a [POST] with an object body. *)
Lemma insights_serve_post req llm :
  InsightsFunction.serve (Http.post req) llm
  = Http.Answer (InsightsFunction.respond req llm).
Proof. reflexivity. Qed.

(** The function answers with status 200 only with the parsed reply. *)
Lemma invoke_insights_Data req llm v :
  invoke_insights req llm = Data v ->
  exists raw, llm = InsightsFunction.Content raw (InsightsFunction.Parsed v)
              /\ truthy raw = true.
Proof.
  unfold invoke_insights. rewrite insights_serve_post. unfold InsightsFunction.respond.
  destruct (InsightsFunction.productIdea req) as [idea|]; [|discriminate].
  destruct (InsightsFunction.founderPersona req) as [fp|]; [|discriminate].
  destruct (InsightsFunction.fullConversation req) as [conv|]; [|discriminate].
  destruct (negb (truthy idea) || (length conv =? 0)%nat); [discriminate|].
  destruct llm as [m| |raw [m|v']]; try discriminate.
  - destruct (truthy raw) eqn:Hr; [discriminate|discriminate].
  - destruct (truthy raw) eqn:Hr; cbn; [|discriminate].
    intros H. injection H as ->. eauto.
Qed.

Lemma invoke_insights_ok idea fp conv raw v :
  truthy idea = true -> conv <> [] -> truthy raw = true ->
  invoke_insights (InsightsFunction.mkRequestBody (Some idea) (Some fp) (Some conv))
    (InsightsFunction.Content raw (InsightsFunction.Parsed v)) = Data v.
Proof.
  intros Hi Hc Hr. unfold invoke_insights. rewrite insights_serve_post.
  unfold InsightsFunction.respond. cbn.
  rewrite Hi, Hr. destruct conv; [contradiction|reflexivity].
Qed.

(** A reply that is not JSON never yields a decoded value. *)
Lemma invoke_insights_SyntaxError req raw m :
  exists e, invoke_insights req
              (InsightsFunction.Content raw (InsightsFunction.SyntaxError m))
            = FunctionsError e.
Proof.
  destruct (invoke_insights req _) as [e|v] eqn:H; [eauto|].
  apply invoke_insights_Data in H. destruct H as [raw' [H _]]. discriminate.
Qed.

(** The two ways a run of [processInsights] ends. *)
Lemma processInsights_cases w env pd fp iid :
  ready w = true ->
  projectDetails (ui w) = Some pd -> founderPersona (ui w) = Some fp ->
  currentInterviewId (ui w) = Some iid ->
  let w' := fst (processInsights env w) in
  snd (processInsights env w) = inr tt /\
  interviews (db w') = interviews (db w) /\
  conversations (db w') = conversations (db w) /\
  ((insights (db w') = insights (db w) /\
    insightsSuccess (ui w') = false /\
    exists message, insightsError (ui w') = Some message)
   \/
   (exists req v,
      request w = Some req /\
      convoError env = None /\ saveError env = None /\
      invoke_insights req (completion env) = Data v /\ accepted v = true /\
      insights (db w') = insights (db w) ++ [insight_row iid pd v] /\
      insightsSuccess (ui w') = true /\ insightsError (ui w') = None)).
Proof.
  intros Hr Epd Efp Eid.
  destruct (ready_inv w Hr) as [pd' [fp' [iid' [Epd' [Efp' [Eid' [Hi Hc]]]]]]].
  rewrite Epd in Epd'. rewrite Efp in Efp'. rewrite Eid in Eid'.
  injection Epd' as <-. injection Efp' as <-. injection Eid' as <-.
  unfold request. open_world w.
  step_insights. rewrite Hi. cbn [negb orb]. unfold try_catch_finally.
  destruct (convoError env) as [m|] eqn:Ecv.
  { step_insights. repeat split; try reflexivity. left. eauto. }
  step_insights.
  match goal with
  | |- context [invoke_insights ?r ?c] => destruct (invoke_insights r c) as [m|v] eqn:Einv
  end.
  { step_insights. repeat split; try reflexivity. left. eauto. }
  destruct v as [|b|z|str|items|members];
    try (destruct (Json.prop _ "error") as [e|] eqn:Ee; [destruct (Json.truthy e) eqn:Et|]);
    step_insights;
    try (repeat split; try reflexivity; left; eauto; fail);
    (destruct (saveError env) as [m|] eqn:Esv; step_insights;
     [repeat split; try reflexivity; left; eauto
     |repeat split; try reflexivity; right;
      eexists; eexists; repeat split; try reflexivity; try eassumption;
      unfold accepted; rewrite ?Ee, ?Et; reflexivity]).
Qed.

End ExtractionFacts.

Section ExtractionClaims.

Import JS Interview Extraction.
Local Open Scope js_scope.

(** A run on a decoded reply that passes the [error] test, with the
    conversation read and the insert accepted, writes the row. *)
Lemma processInsights_accepts w env pd fp iid raw v :
  ready w = true ->
  projectDetails (ui w) = Some pd -> founderPersona (ui w) = Some fp ->
  currentInterviewId (ui w) = Some iid ->
  truthy (or_else (product_idea_prompt pd) (title pd)) = true ->
  select_conversation iid (db w) <> [] ->
  convoError env = None -> saveError env = None ->
  completion env = InsightsFunction.Content raw (InsightsFunction.Parsed v) ->
  truthy raw = true -> accepted v = true ->
  let w' := fst (processInsights env w) in
  insights (db w') = insights (db w) ++ [insight_row iid pd v] /\
  insightsSuccess (ui w') = true /\ insightsError (ui w') = None.
Proof.
  intros Hr Epd Efp Eid Hidea Hconv Ecv Esv Ecomp Hraw Hacc.
  destruct (processInsights_cases w env pd fp iid Hr Epd Efp Eid)
    as [_ [_ [_ [[Hsame [_ [message Herr]]] | [req [v' [Hreq [_ [_ [Hinv [_ H]]]]]]]]]]].
  - exfalso.
    destruct (ready_inv w Hr) as [pd' [fp' [iid' [Epd' [Efp' [Eid' [Hi Hc]]]]]]].
    rewrite Epd in Epd'. rewrite Efp in Efp'. rewrite Eid in Eid'.
    injection Epd' as <-. injection Efp' as <-. injection Eid' as <-.
    revert Herr.
    unfold processInsights. rewrite Epd, Efp, Eid, Hi, Hc. cbn [negb orb].
    unfold bind at 1. unfold setInsightsLoading at 1, modify_ui at 1.
    unfold bind at 1. unfold setInsightsError at 1, modify_ui at 1.
    unfold bind at 1. unfold setInsightsSuccess at 1, modify_ui at 1.
    unfold try_catch_finally. rewrite Ecv, Esv, Ecomp.
    unfold bind at 1. cbn [db].
    rewrite invoke_insights_ok;
      [| assumption
       | intros Hnil; apply map_eq_nil in Hnil; contradiction
       | assumption].
    unfold accepted in Hacc.
    destruct v as [|b|z|str|items|members]; try discriminate;
      try (destruct (Json.prop _ "error") as [e|] eqn:Ee;
           [destruct (Json.truthy e) eqn:Et; [discriminate|]|]);
      cbn; discriminate.
  - cbv zeta. unfold request in Hreq. rewrite Epd, Efp, Eid in Hreq.
    injection Hreq as <-. rewrite Ecomp in Hinv.
    rewrite invoke_insights_ok in Hinv;
      [| assumption
       | intros Hnil; apply map_eq_nil in Hnil; contradiction
       | assumption].
    injection Hinv as <-. exact H.
Qed.

(** C3 as stated does not hold: a reply that lacks [painPoints] fails the
    output contract, yet the run ends without error and writes a record,
    with an empty list in place of the missing member. *)
Lemma C3_counterexample :
  ready Sample.finished = true /\
  output_contract SampleInsights.summary_only = false /\
  Json.prop SampleInsights.summary_only "painPoints" = None /\
  let w' := fst (processInsights (SampleInsights.reply_of SampleInsights.summary_only)
                   Sample.finished) in
  insights (db w') = [insight_row "i1" Sample.project SampleInsights.summary_only] /\
  pain_points (insight_row "i1" Sample.project SampleInsights.summary_only) = Json.JArray [] /\
  insightsError (ui w') = None /\ insightsSuccess (ui w') = true.
Proof. vm_compute. repeat split; reflexivity. Qed.

(** C3, amended. A run of the extraction on a concluded session either
    ends with an error message and writes no record, or writes exactly one
    record; it writes one only if the completion returned a non-empty text
    that parsed as JSON to a value other than [null] whose [error] member is
    absent or falsy, and the insert was accepted.  A reply that is not JSON
    ends with an error and no record.  The shape of the parsed value is not
    checked: a value passing the [error] test that lacks [painPoints] is
    written, without error, with an empty pain-point list. *)
Theorem C3_record_written_only_for_decoded_reply :
  forall (w : World) (env : InsightsEnv) (pd : ProjectDetails) (iid : string),
    ready w = true ->
    projectDetails (ui w) = Some pd -> currentInterviewId (ui w) = Some iid ->
    let w' := fst (processInsights env w) in
    ((insights (db w') = insights (db w) /\
      insightsSuccess (ui w') = false /\
      exists message, insightsError (ui w') = Some message)
     \/
     (exists raw v,
        completion env = InsightsFunction.Content raw (InsightsFunction.Parsed v) /\
        truthy raw = true /\ accepted v = true /\
        convoError env = None /\ saveError env = None /\
        insights (db w') = insights (db w) ++ [insight_row iid pd v] /\
        insightsSuccess (ui w') = true /\ insightsError (ui w') = None)) /\
    (forall raw m,
       completion env = InsightsFunction.Content raw (InsightsFunction.SyntaxError m) ->
       insights (db w') = insights (db w) /\
       exists message, insightsError (ui w') = Some message) /\
    (forall env' fp raw v,
       founderPersona (ui w) = Some fp ->
       truthy (or_else (product_idea_prompt pd) (title pd)) = true ->
       select_conversation iid (db w) <> [] ->
       convoError env' = None -> saveError env' = None ->
       completion env' = InsightsFunction.Content raw (InsightsFunction.Parsed v) ->
       truthy raw = true -> accepted v = true ->
       Json.prop v "painPoints" = None ->
       insights (db (fst (processInsights env' w)))
       = insights (db w) ++ [insight_row iid pd v] /\
       pain_points (insight_row iid pd v) = Json.JArray [] /\
       insightsError (ui (fst (processInsights env' w))) = None).
Proof.
  intros w env pd iid Hr Epd Eid.
  destruct (ready_inv w Hr) as [pd' [fp [iid' [_ [Efp _]]]]].
  destruct (processInsights_cases w env pd fp iid Hr Epd Efp Eid)
    as [_ [_ [_ Hcases]]].
  cbv zeta. split; [|split].
  - destruct Hcases as [H | [req [v [_ [Hcv [Hsv [Hinv [Hacc H]]]]]]]]; [left; exact H|].
    right. destruct (invoke_insights_Data _ _ _ Hinv) as [raw [Hc Hraw]].
    destruct H as [H1 [H2 H3]].
    exists raw, v. repeat split; assumption.
  - intros raw m Hc.
    destruct Hcases as [[H1 [_ H2]] | [req [v [_ [_ [_ [Hinv _]]]]]]]; [auto|].
    rewrite Hc in Hinv.
    destruct (invoke_insights_SyntaxError req raw m) as [e He]. congruence.
  - intros env' fp' raw v Efp' Hidea Hconv Ecv Esv Ecomp Hraw Hacc Hv.
    destruct (processInsights_accepts w env' pd fp' iid raw v Hr Epd Efp' Eid
                Hidea Hconv Ecv Esv Ecomp Hraw Hacc) as [H1 [_ H3]].
    split; [exact H1|]. split; [|exact H3].
    unfold insight_row. cbn [pain_points]. now rewrite Hv.
Qed.

Lemma C3_witness :
  ready Sample.finished = true /\
  insights (db (fst (processInsights SampleInsights.not_json Sample.finished))) = [] /\
  exists message,
    insightsError (ui (fst (processInsights SampleInsights.not_json Sample.finished)))
    = Some message.
Proof.
  split; [reflexivity|].
  apply (proj1 (proj2 (C3_record_written_only_for_decoded_reply Sample.finished
                         SampleInsights.not_json Sample.project "i1"
                         eq_refl eq_refl eq_refl))
           "Sure! Here is the analysis" "Unexpected token S in JSON at position 0").
  reflexivity.
Defined.

(** C4 as stated does not hold: a reply with six pain points and a sixth
    top-level member fails the output contract, yet it is accepted and
    the record is created with all six pain points. *)
Lemma C4_counterexample :
  ready Sample.finished = true /\
  output_contract SampleInsights.oversized = false /\
  accepted SampleInsights.oversized = true /\
  let w' := fst (processInsights (SampleInsights.reply_of SampleInsights.oversized)
                   Sample.finished) in
  insights (db w') = [insight_row "i1" Sample.project SampleInsights.oversized] /\
  pain_points (insight_row "i1" Sample.project SampleInsights.oversized)
  = Json.JArray SampleInsights.six_pains /\
  length SampleInsights.six_pains = 6.
Proof. vm_compute. repeat split; reflexivity. Qed.

(** C4, amended. The value from which a record is created is accepted on
    one test only: it is a parsed JSON value other than [null] whose [error]
    member is absent or falsy.  Neither its set of top-level members nor the
    length of its lists is checked: the record's four list fields are the
    members [painPoints], [notableQuotes], [objections] and [productIdeas] as
    received, of any length, or the empty list when the member is absent or
    falsy; and every value passing the test is written this way. *)
Theorem C4_accepted_value_is_written_as_received :
  forall (w : World) (env : InsightsEnv) (pd : ProjectDetails) (iid : string)
         (row : InsightRow),
    ready w = true ->
    projectDetails (ui w) = Some pd -> currentInterviewId (ui w) = Some iid ->
    insights (db (fst (processInsights env w))) = insights (db w) ++ [row] ->
    (exists raw v,
       completion env = InsightsFunction.Content raw (InsightsFunction.Parsed v) /\
       accepted v = true /\
       row = insight_row iid pd v /\
       pain_points row = Json.or_else (Json.prop v "painPoints") (Json.JArray []) /\
       quotes row = Json.or_else (Json.prop v "notableQuotes") (Json.JArray []) /\
       objections row = Json.or_else (Json.prop v "objections") (Json.JArray []) /\
       product_ideas row = Json.or_else (Json.prop v "productIdeas") (Json.JArray []) /\
       (forall items, Json.prop v "painPoints" = Some (Json.JArray items) ->
                      pain_points row = Json.JArray items) /\
       (forall items, Json.prop v "notableQuotes" = Some (Json.JArray items) ->
                      quotes row = Json.JArray items) /\
       (forall items, Json.prop v "objections" = Some (Json.JArray items) ->
                      objections row = Json.JArray items) /\
       (forall items, Json.prop v "productIdeas" = Some (Json.JArray items) ->
                      product_ideas row = Json.JArray items)) /\
    (forall env' fp raw v,
       founderPersona (ui w) = Some fp ->
       truthy (or_else (product_idea_prompt pd) (title pd)) = true ->
       select_conversation iid (db w) <> [] ->
       convoError env' = None -> saveError env' = None ->
       completion env' = InsightsFunction.Content raw (InsightsFunction.Parsed v) ->
       truthy raw = true -> accepted v = true ->
       insights (db (fst (processInsights env' w))) =
         insights (db w) ++ [insight_row iid pd v]).
Proof.
  intros w env pd iid row Hr Epd Eid Hrow.
  destruct (ready_inv w Hr) as [pd' [fp [iid' [_ [Efp _]]]]].
  split.
  - destruct (processInsights_cases w env pd fp iid Hr Epd Efp Eid)
      as [_ [_ [_ [[Hsame _] | [req [v [_ [_ [_ [Hinv [Hacc [Hins _]]]]]]]]]]]].
    + rewrite Hsame in Hrow. apply (f_equal (@length _)) in Hrow.
      rewrite length_app in Hrow. simpl in Hrow. lia.
    + rewrite Hins in Hrow. apply app_inv_head in Hrow. injection Hrow as <-.
      destruct (invoke_insights_Data _ _ _ Hinv) as [raw [Hc _]].
      exists raw, v. unfold insight_row; cbn [pain_points quotes objections product_ideas].
      repeat split; auto; intros items ->; reflexivity.
  - intros env' fp' raw v Efp' Hidea Hconv Ecv Esv Ecomp Hraw Hacc.
    now destruct (processInsights_accepts w env' pd fp' iid raw v Hr Epd Efp' Eid
                   Hidea Hconv Ecv Esv Ecomp Hraw Hacc) as [H _].
Qed.

Lemma C4_witness :
  ready Sample.finished = true /\
  exists raw v,
    completion (SampleInsights.reply_of SampleInsights.oversized)
    = InsightsFunction.Content raw (InsightsFunction.Parsed v) /\
    accepted v = true /\
    pain_points (insight_row "i1" Sample.project SampleInsights.oversized)
    = Json.or_else (Json.prop v "painPoints") (Json.JArray []).
Proof.
  split; [reflexivity|].
  destruct (proj1 (C4_accepted_value_is_written_as_received Sample.finished
                     (SampleInsights.reply_of SampleInsights.oversized)
                     Sample.project "i1"
                     (insight_row "i1" Sample.project SampleInsights.oversized)
                     eq_refl eq_refl eq_refl eq_refl))
    as [raw [v [Hc [Hacc [_ [Hpp _]]]]]].
  exists raw, v. auto.
Defined.

End ExtractionClaims.

(** ** Dictionaries *)

Section ObjFacts.

Import Tally.

Context {V : Type}.
Implicit Types (o : Obj.t V) (k : string) (v : V).

Lemma get_set_same o k v : Obj.get (Obj.set o k v) k = Some v.
Proof.
  induction o as [|[k' v'] o IH]; simpl.
  - now rewrite String.eqb_refl.
  - destruct (String.eqb k k') eqn:E; simpl; rewrite E; auto.
Qed.

Lemma set_set o k v v' : Obj.set (Obj.set o k v) k v' = Obj.set o k v'.
Proof.
  induction o as [|[k' v0] o IH]; simpl.
  - now rewrite String.eqb_refl.
  - destruct (String.eqb k k') eqn:E; simpl; rewrite E; [reflexivity | now rewrite IH].
Qed.

Lemma get_None_not_In o k : Obj.get o k = None <-> ~ In k (keys o).
Proof.
  induction o as [|[k' v'] o IH]; simpl; [tauto|].
  destruct (String.eqb k k') eqn:E.
  - apply String.eqb_eq in E. subst. split; [discriminate | tauto].
  - apply String.eqb_neq in E. rewrite IH. split; [intros H [H1|H1]; congruence | tauto].
Qed.

Lemma set_absent o k v : Obj.get o k = None -> Obj.set o k v = o ++ [(k, v)].
Proof.
  induction o as [|[k' v'] o IH]; simpl; [reflexivity|].
  destruct (String.eqb k k'); [discriminate|]. intros H. now rewrite IH.
Qed.

Lemma set_present o k v v0 :
  NoDup (keys o) -> Obj.get o k = Some v0 ->
  Obj.set o k v = map (fun e => if String.eqb k (fst e) then (fst e, v) else e) o.
Proof.
  induction o as [|[k' v'] o IH]; simpl; [discriminate|].
  intros Hnd Hg. inversion Hnd as [|? ? Hni Hnd']; subst.
  destruct (String.eqb k k') eqn:E.
  - apply String.eqb_eq in E. subst k'. f_equal.
    rewrite <- (map_id o) at 1. apply map_ext_in. intros [k2 v2] Hin. simpl.
    destruct (String.eqb k k2) eqn:E2; [|reflexivity].
    apply String.eqb_eq in E2. subst. exfalso. apply Hni.
    change k2 with (fst (k2, v2)). now apply in_map.
  - f_equal. now apply IH.
Qed.

Lemma keys_set o k v :
  keys (Obj.set o k v) = if absent o k then keys o ++ [k] else keys o.
Proof.
  unfold absent, keys. induction o as [|[k' v'] o IH]; simpl; [reflexivity|].
  destruct (String.eqb k k') eqn:E; simpl; [reflexivity|].
  rewrite IH. now destruct (Obj.get o k).
Qed.

Lemma NoDup_keys_set o k v : NoDup (keys o) -> NoDup (keys (Obj.set o k v)).
Proof.
  intros H. rewrite keys_set. unfold absent.
  destruct (Obj.get o k) eqn:E; [exact H|].
  apply get_None_not_In in E.
  apply NoDup_rev in H. rewrite <- (rev_involutive (keys o ++ [k])).
  apply NoDup_rev. rewrite rev_app_distr. simpl. constructor; [|exact H].
  now rewrite <- in_rev.
Qed.

Lemma get_app_one o k k' v :
  Obj.get (o ++ [(k', v)]) k =
  match Obj.get o k with
  | Some x => Some x
  | None => if String.eqb k k' then Some v else None
  end.
Proof.
  induction o as [|[k2 v2] o IH]; simpl; [reflexivity|].
  now destruct (String.eqb k k2).
Qed.

End ObjFacts.

(** ** Counting *)

Section TallyFacts.

Import JS Analytics Ranking Tally.

Lemma occurrences_cons_eq texts t : occurrences (t :: texts) t = S (occurrences texts t).
Proof. unfold occurrences. now rewrite count_occ_cons_eq. Qed.

Lemma occurrences_cons_neq texts t u : t <> u -> occurrences (t :: texts) u = occurrences texts u.
Proof. unfold occurrences. intros H. now rewrite count_occ_cons_neq. Qed.

Lemma filter_filter {A} (p q : A -> bool) (l : list A) :
  filter p (filter q l) = filter (fun x => q x && p x) l.
Proof.
  induction l as [|x l IH]; simpl; [reflexivity|].
  destruct (q x); simpl; [destruct (p x)|]; now rewrite IH.
Qed.

Lemma bump_present (o : Obj.t nat) k n :
  NoDup (keys o) -> Obj.get o k = Some n ->
  bump o k = map (fun e => if String.eqb k (fst e) then (fst e, snd e + 1) else e) o.
Proof.
  unfold bump. intros Hnd Hg. rewrite Hg. revert Hnd Hg.
  induction o as [|[k' v'] o IH]; simpl; [discriminate|].
  intros Hnd Hg. inversion Hnd as [|? ? Hni Hnd']; subst.
  destruct (String.eqb k k') eqn:E.
  - injection Hg as ->. apply String.eqb_eq in E. subst k'. f_equal.
    rewrite <- (map_id o) at 1. apply map_ext_in. intros [k2 v2] Hin. simpl.
    destruct (String.eqb k k2) eqn:E2; [|reflexivity].
    apply String.eqb_eq in E2. subst. exfalso. apply Hni.
    change k2 with (fst (k2, v2)). now apply in_map.
  - f_equal. now apply IH.
Qed.

Lemma bump_absent (o : Obj.t nat) k :
  Obj.get o k = None -> bump o k = o ++ [(k, 1)].
Proof. intros H. unfold bump. rewrite H. now apply set_absent. Qed.

Lemma NoDup_keys_bump (o : Obj.t nat) k : NoDup (keys o) -> NoDup (keys (bump o k)).
Proof. apply NoDup_keys_set. Qed.

Lemma absent_In {V} (o : Obj.t V) k : absent o k = false <-> In k (keys o).
Proof.
  unfold absent. destruct (Obj.get o k) eqn:E.
  - split; [intros _|reflexivity].
    destruct (in_dec string_dec k (keys o)) as [H|H]; [exact H|].
    apply get_None_not_In in H. congruence.
  - apply get_None_not_In in E. split; [discriminate | contradiction].
Qed.

(** Counting [texts] into a dictionary: the keys already there keep their
    place and gain their occurrences; the new texts follow in the order of
    their first occurrence. *)
Lemma tally_from_spec texts : forall o : Obj.t nat,
  NoDup (keys o) ->
  tally_from o texts =
    map (fun e => (fst e, snd e + occurrences texts (fst e))) o
    ++ map (fun k => (k, occurrences texts k)) (filter (absent o) (first_occurrences texts)).
Proof.
  induction texts as [|t rest IH]; intros o Hnd.
  - simpl. rewrite app_nil_r. rewrite <- (map_id o) at 1.
    apply map_ext. intros [k v]. simpl. now rewrite Nat.add_0_r.
  - change (tally_from o (t :: rest)) with (tally_from (bump o t) rest).
    rewrite IH by now apply NoDup_keys_bump.
    destruct (Obj.get o t) as [n|] eqn:Eg.
    + (* [t] is a key of [o] *)
      assert (Habs : absent o t = false) by (unfold absent; now rewrite Eg).
      rewrite (bump_present o t n Hnd Eg). rewrite map_map. f_equal.
      * apply map_ext. intros [k v]. cbn [fst snd].
        destruct (String.eqb t k) eqn:E; cbn [fst snd].
        -- apply String.eqb_eq in E. subst. rewrite occurrences_cons_eq. f_equal. lia.
        -- apply String.eqb_neq in E. now rewrite occurrences_cons_neq.
      * cbn [first_occurrences filter]. rewrite Habs. rewrite filter_filter.
        assert (Hf : forall l,
          filter (absent (map (fun e : string * nat =>
                     if String.eqb t (fst e) then (fst e, snd e + 1) else e) o)) l
          = filter (fun x => negb (String.eqb t x) && absent o x) l).
        { intros l. apply filter_ext. intros x.
          assert (Hk : absent (map (fun e : string * nat =>
                     if String.eqb t (fst e) then (fst e, snd e + 1) else e) o) x
                       = absent o x).
          { rewrite <- (bump_present o t n Hnd Eg).
            destruct (absent o x) eqn:Ex.
            - destruct (absent (bump o t) x) eqn:Ex'; [reflexivity|].
              apply absent_In in Ex'. unfold bump in Ex'. rewrite keys_set, Habs in Ex'.
              apply absent_In in Ex'. congruence.
            - apply absent_In in Ex. apply absent_In.
              unfold bump. now rewrite keys_set, Habs. }
          rewrite Hk. destruct (String.eqb t x) eqn:E; [|reflexivity].
          apply String.eqb_eq in E. subst. now rewrite Habs. }
        rewrite Hf. apply map_ext_in. intros x Hx.
        apply filter_In in Hx. destruct Hx as [_ Hx].
        apply andb_prop in Hx. destruct Hx as [Hx _].
        apply negb_true_iff, String.eqb_neq in Hx. now rewrite occurrences_cons_neq.
    + (* [t] is new *)
      assert (Habs : absent o t = true) by (unfold absent; now rewrite Eg).
      rewrite (bump_absent o t Eg). rewrite map_app.
      cbn [first_occurrences filter map fst snd].
      rewrite Habs. cbn [map]. rewrite <- app_assoc. cbn [app]. f_equal; [|f_equal].
      * apply map_ext_in. intros [k v] Hin. cbn [fst snd].
        assert (t <> k).
        { intros <-. apply get_None_not_In in Eg. apply Eg.
          change t with (fst (t, v)). now apply in_map. }
        now rewrite occurrences_cons_neq.
      * now rewrite occurrences_cons_eq.
      * rewrite filter_filter.
        assert (Hf : forall l,
          filter (absent (o ++ [(t, 1)])) l
          = filter (fun x => negb (String.eqb t x) && absent o x) l).
        { intros l. apply filter_ext. intros x. unfold absent.
          rewrite get_app_one. destruct (Obj.get o x); [now rewrite andb_false_r|].
          rewrite String.eqb_sym. now destruct (String.eqb t x). }
        rewrite Hf. apply map_ext_in. intros x Hx.
        apply filter_In in Hx. destruct Hx as [_ Hx].
        apply andb_prop in Hx. destruct Hx as [Hx _].
        apply negb_true_iff, String.eqb_neq in Hx. now rewrite occurrences_cons_neq.
Qed.

Lemma filter_true {A} (l : list A) : filter (fun _ => true) l = l.
Proof. induction l; simpl; congruence. Qed.

(** Counting from the empty dictionary. *)
Lemma tally_spec texts :
  tally_from [] texts = map (fun k => (k, occurrences texts k)) (first_occurrences texts).
Proof.
  rewrite tally_from_spec by constructor. simpl.
  f_equal. apply filter_true.
Qed.

End TallyFacts.

(** ** The two counting loops *)

Section CountingLoops.

Import JS Analytics Ranking Tally.

Lemma tally_from_app o a b : tally_from o (a ++ b) = tally_from (tally_from o a) b.
Proof. apply fold_left_app. Qed.

Lemma own_texts_app a b : own_texts (a ++ b) = own_texts a ++ own_texts b.
Proof. apply filter_app. Qed.


Lemma own_texts_In texts t :
  In t (own_texts texts) <-> In t texts /\ Obj.inherited t = false.
Proof. unfold own_texts. rewrite filter_In, negb_true_iff. reflexivity. Qed.

Lemma plain_inherited_absent {V} (o : Obj.t V) k :
  plain o -> Obj.inherited k = true -> Obj.get o k = None.
Proof.
  intros Hp Hk. apply get_None_not_In. intros Hin.
  unfold plain in Hp. rewrite Forall_forall in Hp. specialize (Hp k Hin). congruence.
Qed.

Lemma plain_set {V} (o : Obj.t V) k v :
  plain o -> Obj.inherited k = false -> plain (Obj.set o k v).
Proof.
  unfold plain. intros Hp Hk. rewrite keys_set.
  destruct (absent o k); [|exact Hp].
  apply Forall_app. split; [exact Hp | now repeat constructor].
Qed.

Lemma get_counts_of o k : Obj.get (counts_of o) k = option_map count (Obj.get o k).
Proof.
  induction o as [|[k' d] o IH]; simpl; [reflexivity|].
  now destruct (String.eqb k k').
Qed.

Lemma counts_of_set o k d :
  counts_of (Obj.set o k d) = Obj.set (counts_of o) k (count d).
Proof.
  induction o as [|[k' d'] o IH]; simpl; [reflexivity|].
  destruct (String.eqb k k'); simpl; [reflexivity | now rewrite IH].
Qed.

(** The loop body throws on a pain point that has a severity and whose text
    names an inherited member. *)
Lemma count_pain_fatal o pp :
  plain o -> fatal pp = true -> count_pain o pp = inl (cannot_read "push").
Proof.
  unfold fatal, count_pain. intros Hp.
  destruct (point pp) as [p|]; [|discriminate].
  destruct (severity pp) as [sv|]; [|discriminate].
  intros H. apply andb_prop in H. destruct H as [H Hsv].
  apply andb_prop in H. destruct H as [Ht Hi].
  rewrite Ht. unfold Obj.lookup.
  rewrite (plain_inherited_absent o p Hp Hi), Hi. cbn zeta iota beta.
  rewrite ?(plain_inherited_absent o p Hp Hi), ?Hi, ?Hsv. reflexivity.
Qed.

(** On every other pain point it counts the text, unless the text names an
    inherited member. *)
Lemma count_pain_counts o pp :
  plain o -> fatal pp = false ->
  exists o',
    count_pain o pp = inr o' /\ plain o' /\
    counts_of o' = tally_from (counts_of o) (own_texts (counted (point pp))).
Proof.
  unfold fatal, count_pain, counted. intros Hp Hf.
  destruct (point pp) as [p|]; [|now exists o].
  destruct (truthy p) eqn:Ht; [|now exists o].
  cbn [own_texts filter]. unfold Obj.lookup.
  destruct (Obj.inherited p) eqn:Hi; cbn [negb].
  - rewrite (plain_inherited_absent o p Hp Hi). cbn zeta iota beta.
    rewrite ?(plain_inherited_absent o p Hp Hi).
    destruct (severity pp) as [sv|]; [|now exists o].
    cbn [andb] in Hf. rewrite Hf. now exists o.
  - cbn [tally_from fold_left]. unfold bump. rewrite get_counts_of.
    destruct (Obj.get o p) as [d|] eqn:Eg; cbn zeta iota beta.
    + rewrite Eg. cbn [option_map].
      destruct (severity pp) as [sv|]; [destruct (truthy sv)|];
        rewrite ?get_set_same, ?set_set; eexists; (split; [reflexivity|]);
        (split; [now apply plain_set | now rewrite counts_of_set]).
    + rewrite !get_set_same, set_set. cbn [option_map].
      destruct (severity pp) as [sv|]; [destruct (truthy sv)|];
        rewrite ?get_set_same, ?set_set; eexists; (split; [reflexivity|]);
        (split; [now apply plain_set | now rewrite counts_of_set]).
Qed.

Lemma forEach_pain_points l : forall o,
  plain o ->
  if existsb fatal l
  then forEach_try count_pain l o = inl (cannot_read "push")
  else exists o',
         forEach_try count_pain l o = inr o' /\ plain o' /\
         counts_of o'
         = tally_from (counts_of o)
             (own_texts (flat_map (fun pp => counted (point pp)) l)).
Proof.
  induction l as [|pp l IH]; intros o Hp; cbn [existsb forEach_try flat_map].
  - now exists o.
  - destruct (fatal pp) eqn:Hf; cbn [orb].
    + now rewrite count_pain_fatal.
    + destruct (count_pain_counts o pp Hp Hf) as (o1 & E & Hp1 & Hc1).
      rewrite E. specialize (IH o1 Hp1).
      destruct (existsb fatal l); [exact IH|].
      destruct IH as (o' & E' & Hp' & Hc'). exists o'.
      split; [exact E'|]. split; [exact Hp'|].
      now rewrite own_texts_app, tally_from_app, <- Hc1.
Qed.

Lemma painPointCounts_from insights : forall o,
  plain o ->
  if aborts insights
  then forEach_try (fun acc i => forEach_opt_try (pain_points i) count_pain acc) insights o
       = inl (cannot_read "push")
  else exists o',
         forEach_try (fun acc i => forEach_opt_try (pain_points i) count_pain acc) insights o
         = inr o' /\ plain o' /\
         counts_of o' = tally_from (counts_of o) (own_texts (pain_texts insights)).
Proof.
  unfold aborts.
  induction insights as [|i insights IH]; intros o Hp; cbn [existsb forEach_try].
  - now exists o.
  - pose proof (forEach_pain_points (opt_list (pain_points i)) o Hp) as Hi.
    assert (Ei : forEach_opt_try (pain_points i) count_pain o
                 = forEach_try count_pain (opt_list (pain_points i)) o)
      by (unfold forEach_opt_try, opt_list; now destruct (pain_points i)).
    rewrite Ei.
    destruct (existsb fatal (opt_list (pain_points i))); cbn [orb].
    + now rewrite Hi.
    + destruct Hi as (o1 & E & Hp1 & Hc1). rewrite E. specialize (IH o1 Hp1).
      destruct (existsb _ insights); [exact IH|].
      destruct IH as (o' & E' & Hp' & Hc'). exists o'.
      split; [exact E'|]. split; [exact Hp'|].
      unfold pain_texts. cbn [flat_map].
      now rewrite own_texts_app, tally_from_app, <- Hc1.
Qed.

(** When it does not throw, the pain-point loop groups the counted texts
    that name no inherited member by equality, in the order of their first
    occurrence, and counts the occurrences. *)
Lemma painPointCounts_spec insights :
  aborts insights = false ->
  exists o,
    painPointCounts insights = inr o /\
    counts_of o
    = map (fun k => (k, occurrences (own_texts (pain_texts insights)) k))
          (first_occurrences (own_texts (pain_texts insights))).
Proof.
  intros Ha. pose proof (painPointCounts_from insights [] (Forall_nil _)) as H.
  rewrite Ha in H. destruct H as (o & E & _ & Hc). exists o.
  split; [exact E|]. now rewrite Hc, tally_spec.
Qed.

Lemma painPointCounts_aborts insights :
  aborts insights = true -> painPointCounts insights = inl (cannot_read "push").
Proof.
  intros Ha. pose proof (painPointCounts_from insights [] (Forall_nil _)) as H.
  now rewrite Ha in H.
Qed.

Lemma get_numbers o k : Obj.get (numbers o) k = option_map Feature.Number (Obj.get o k).
Proof.
  induction o as [|[k' d] o IH]; simpl; [reflexivity|].
  now destruct (String.eqb k k').
Qed.

Lemma numbers_set o k n :
  numbers (Obj.set o k n) = Obj.set (numbers o) k (Feature.Number n).
Proof.
  induction o as [|[k' d'] o IH]; simpl; [reflexivity|].
  destruct (String.eqb k k'); simpl; [reflexivity | now rewrite IH].
Qed.

Lemma count_feature_bump o pi :
  Forall (fun t => Obj.inherited t = false) (counted (idea pi)) ->
  count_feature (numbers o) pi = numbers (tally_from o (counted (idea pi))).
Proof.
  unfold count_feature, counted. destruct (idea pi) as [f|]; [|reflexivity].
  destruct (truthy f); [|reflexivity]. intros H. inversion H as [|? ? Hf _]; subst.
  cbn [tally_from fold_left]. unfold bump, Obj.lookup. rewrite get_numbers, Hf.
  destruct (Obj.get o f) as [n|]; cbn [option_map]; now rewrite numbers_set.
Qed.

Lemma featureCounts_from insights : forall o,
  Forall (fun t => Obj.inherited t = false) (idea_texts insights) ->
  fold_left (fun acc i => forEach_opt (product_ideas i) count_feature acc) insights
    (numbers o)
  = numbers (tally_from o (idea_texts insights)).
Proof.
  induction insights as [|i insights IH]; intros o H; [reflexivity|].
  unfold idea_texts in H. cbn [flat_map] in H. apply Forall_app in H.
  destruct H as [Hi Hrest].
  cbn [fold_left]. unfold idea_texts at 1. cbn [flat_map]. rewrite tally_from_app.
  rewrite <- (IH _ Hrest). f_equal.
  unfold forEach_opt, opt_list in *.
  destruct (product_ideas i) as [l|]; [|reflexivity].
  clear IH Hrest. revert o Hi.
  induction l as [|pi l IHl]; intros o Hi; [reflexivity|].
  cbn [flat_map] in Hi. apply Forall_app in Hi. destruct Hi as [Hpi Hl].
  cbn [fold_left flat_map]. rewrite tally_from_app, count_feature_bump by exact Hpi.
  now apply IHl.
Qed.

(** So does the feature loop, when no idea names an inherited member. *)
Lemma featureCounts_spec insights :
  Forall (fun t => Obj.inherited t = false) (idea_texts insights) ->
  featureCounts insights
  = numbers (map (fun k => (k, occurrences (idea_texts insights) k))
               (first_occurrences (idea_texts insights))).
Proof.
  intros H. unfold featureCounts.
  change (@nil (string * Feature.Count)) with (numbers []).
  now rewrite featureCounts_from, tally_spec.
Qed.

(** In any case the keys of the feature dictionary are distinct idea
    texts. *)
Lemma keys_count_feature o pi :
  NoDup (keys o) ->
  NoDup (keys (count_feature o pi)) /\
  (forall k, In k (keys (count_feature o pi)) -> In k (keys o) \/ In k (counted (idea pi))).
Proof.
  intros Hnd. unfold count_feature, counted.
  destruct (idea pi) as [f|]; [|now auto].
  destruct (truthy f); [|now auto].
  assert (Hset : forall v,
            NoDup (keys (Obj.set o f v)) /\
            (forall k, In k (keys (Obj.set o f v)) -> In k (keys o) \/ In k [f])).
  { intros v. split; [now apply NoDup_keys_set|].
    intros k. rewrite keys_set. destruct (absent o f); [|now auto].
    rewrite in_app_iff. tauto. }
  destruct (Obj.lookup o f) as [[n|m k]| |]; try apply Hset.
  destruct (String.eqb f "__proto__"); [now auto | apply Hset].
Qed.

Lemma keys_featureCounts insights :
  NoDup (keys (featureCounts insights)) /\
  (forall k, In k (keys (featureCounts insights)) -> In k (idea_texts insights)).
Proof.
  unfold featureCounts.
  assert (H : forall (o : Obj.t Feature.Count),
            NoDup (keys o) ->
            let o' := fold_left (fun acc i => forEach_opt (product_ideas i) count_feature acc)
                        insights o in
            NoDup (keys o') /\
            (forall k, In k (keys o') -> In k (keys o) \/ In k (idea_texts insights))).
  { induction insights as [|i insights IH]; intros o Hnd; [now auto|].
    cbn [fold_left].
    assert (Hi : NoDup (keys (forEach_opt (product_ideas i) count_feature o)) /\
                 (forall k, In k (keys (forEach_opt (product_ideas i) count_feature o)) ->
                            In k (keys o)
                            \/ In k (flat_map (fun pi => counted (idea pi))
                                       (opt_list (product_ideas i))))).
    { unfold forEach_opt, opt_list. destruct (product_ideas i) as [l|]; [|now auto].
      clear IH. revert o Hnd. induction l as [|pi l IHl]; intros o Hnd; [now auto|].
      cbn [fold_left flat_map].
      destruct (keys_count_feature o pi Hnd) as [Hnd1 Hin1].
      destruct (IHl _ Hnd1) as [Hnd2 Hin2]. split; [exact Hnd2|].
      intros k Hk. rewrite in_app_iff.
      destruct (Hin2 k Hk) as [H|H]; [destruct (Hin1 k H)|]; tauto. }
    destruct Hi as [Hnd1 Hin1]. destruct (IH _ Hnd1) as [Hnd2 Hin2].
    cbn zeta in *. split; [exact Hnd2|].
    intros k Hk. unfold idea_texts. cbn [flat_map]. rewrite in_app_iff.
    destruct (Hin2 k Hk) as [H|H]; [destruct (Hin1 k H)|]; tauto. }
  destruct (H [] (NoDup_nil _)) as [Hnd Hin]. split; [exact Hnd|].
  intros k Hk. destruct (Hin k Hk) as [[]|Hk']. exact Hk'.
Qed.

End CountingLoops.

(** ** Enumeration order of a dictionary *)

Section EntriesFacts.

Import Ranking Tally.

Lemma insert_index_map {V W} (g : string * V -> string * W) n e l :
  Obj.insert_index n (g e) (map (fun ne => (fst ne, g (snd ne))) l)
  = map (fun ne => (fst ne, g (snd ne))) (Obj.insert_index n e l).
Proof.
  induction l as [|[m e'] l IH]; simpl; [reflexivity|].
  destruct (n <? m)%N; simpl; [reflexivity | now rewrite IH].
Qed.

(** [Object.entries] does not look at the values. *)
Lemma entries_map {V W} (g : string * V -> string * W) (o : Obj.t V) :
  (forall e, fst (g e) = fst e) ->
  Obj.entries (map g o) = map g (Obj.entries o).
Proof.
  intros Hg. unfold Obj.entries. rewrite map_app. f_equal.
  - assert (H : Obj.index_entries (map g o)
                = map (fun ne => (fst ne, g (snd ne))) (Obj.index_entries o)).
    { induction o as [|[k v] o IH]; simpl; [reflexivity|].
      destruct (g (k, v)) as [k' w] eqn:E.
      assert (k' = k) by (specialize (Hg (k, v)); rewrite E in Hg; exact Hg). subst k'.
      destruct (Obj.array_index k); [|exact IH].
      rewrite IH, <- E. apply insert_index_map. }
    rewrite H, !map_map. reflexivity.
  - induction o as [|e o IH]; simpl; [reflexivity|].
    rewrite Hg. destruct (negb (Obj.is_array_index (fst e))); simpl; now rewrite IH.
Qed.

Lemma entries_of_keys {W} (f : string -> W) keys :
  Obj.entries (map (fun k => (k, f k)) keys)
  = map (fun k => (k, f k)) (enumeration_order keys).
Proof.
  unfold enumeration_order.
  change (map (fun k => (k, f k)) keys)
    with (map (fun k => (fun e : string * unit => (fst e, f (fst e))) (k, tt)) keys).
  rewrite <- (map_map (fun k => (k, tt)) (fun e : string * unit => (fst e, f (fst e)))).
  rewrite entries_map by reflexivity. now rewrite !map_map.
Qed.

Lemma insert_index_perm {V} n (e : string * V) l :
  Permutation ((n, e) :: l) (Obj.insert_index n e l).
Proof.
  induction l as [|[m e'] l IH]; simpl; [reflexivity|].
  destruct (n <? m)%N; [reflexivity|].
  rewrite perm_swap. now apply perm_skip.
Qed.

Lemma insert_index_sorted {V} n (e : string * V) l :
  Sorted N.le (map fst l) -> Sorted N.le (map fst (Obj.insert_index n e l)).
Proof.
  induction l as [|[m e'] l IH]; simpl; intros Hs.
  - repeat constructor.
  - destruct (n <? m)%N eqn:E; simpl.
    + constructor; [exact Hs|]. constructor. apply N.ltb_lt in E. lia.
    + apply N.ltb_ge in E. inversion Hs as [|? ? Hs' Hhd]; subst.
      constructor; [now apply IH|].
      destruct l as [|[m2 e2] l]; simpl.
      * constructor. exact E.
      * destruct (n <? m2)%N; simpl; constructor; [exact E|].
        now inversion Hhd.
Qed.

Lemma index_entries_tagged {V} (o : Obj.t V) :
  Forall (fun ne => Obj.array_index (fst (snd ne)) = Some (fst ne)) (Obj.index_entries o).
Proof.
  induction o as [|[k v] o IH]; simpl; [constructor|].
  destruct (Obj.array_index k) as [n|] eqn:E; [|exact IH].
  eapply Permutation_Forall; [apply insert_index_perm|].
  constructor; [exact E | exact IH].
Qed.

Lemma index_entries_perm {V} (o : Obj.t V) :
  Permutation (map snd (Obj.index_entries o))
              (filter (fun e => Obj.is_array_index (fst e)) o).
Proof.
  induction o as [|[k v] o IH]; simpl; [reflexivity|].
  unfold Obj.is_array_index at 1. simpl.
  destruct (Obj.array_index k) as [n|]; [|exact IH].
  rewrite <- (Permutation_map snd (insert_index_perm n (k, v) (Obj.index_entries o))).
  simpl. now apply perm_skip.
Qed.

Lemma index_entries_sorted {V} (o : Obj.t V) :
  Sorted N.le (map fst (Obj.index_entries o)).
Proof.
  induction o as [|[k v] o IH]; simpl; [constructor|].
  destruct (Obj.array_index k); [now apply insert_index_sorted | exact IH].
Qed.

(** The enumeration order of keys created in the order [keys]: the array
    indices among them, ascending, then the other keys as created. *)
Lemma enumeration_order_spec keys :
  exists idx,
    enumeration_order keys
    = idx ++ filter (fun k => negb (Obj.is_array_index k)) keys /\
    Permutation idx (filter Obj.is_array_index keys) /\
    Sorted N.le (map index_value idx).
Proof.
  set (o := map (fun k => (k, tt)) keys).
  exists (map fst (map snd (Obj.index_entries o))).
  split; [|split].
  - unfold enumeration_order, Obj.entries. fold o. rewrite map_app. f_equal.
    unfold o. clear. induction keys as [|k keys IH]; simpl; [reflexivity|].
    destruct (negb (Obj.is_array_index k)); simpl; now rewrite IH.
  - rewrite (Permutation_map fst (index_entries_perm o)).
    unfold o. clear. induction keys as [|k keys IH]; simpl; [reflexivity|].
    destruct (Obj.is_array_index k); simpl; [now apply perm_skip | exact IH].
  - assert (H : map index_value (map fst (map snd (Obj.index_entries o)))
                = map fst (Obj.index_entries o)).
    { rewrite !map_map. apply map_ext_in. intros ne Hin.
      pose proof (index_entries_tagged o) as Ht.
      rewrite Forall_forall in Ht. specialize (Ht ne Hin).
      unfold index_value. now rewrite Ht. }
    rewrite H. apply index_entries_sorted.
Qed.


End EntriesFacts.

(** ** The stable sort *)

Section SortFacts.

Context {A : Type} (key : A -> nat) (compareFn : A -> A -> Z).
Hypothesis compareFn_key :
  forall a b, compareFn a b = (Z.of_nat (key b) - Z.of_nat (key a))%Z.

Lemma compareFn_le a b : (compareFn a b <=? 0)%Z = (key b <=? key a)%nat.
Proof.
  rewrite compareFn_key.
  destruct (Nat.leb_spec (key b) (key a)); [apply Z.leb_le | apply Z.leb_gt]; lia.
Qed.

Lemma insert_perm x l : Permutation (x :: l) (ArraySort.insert compareFn x l).
Proof.
  induction l as [|y l IH]; simpl; [reflexivity|].
  destruct (compareFn x y <=? 0)%Z; [reflexivity|].
  rewrite perm_swap. now apply perm_skip.
Qed.

Lemma sort_perm l : Permutation l (ArraySort.sort compareFn l).
Proof.
  induction l as [|x l IH]; simpl; [reflexivity|].
  rewrite <- insert_perm. now apply perm_skip.
Qed.

Lemma insert_sorted x l :
  Sorted (fun a b => key b <= key a) l ->
  Sorted (fun a b => key b <= key a) (ArraySort.insert compareFn x l).
Proof.
  induction l as [|y l IH]; simpl; intros Hs.
  - repeat constructor.
  - rewrite compareFn_le. destruct (Nat.leb_spec (key y) (key x)) as [Hle|Hgt].
    + constructor; [exact Hs|]. now constructor.
    + inversion Hs as [|? ? Hs' Hhd]; subst.
      constructor; [now apply IH|].
      destruct l as [|z l]; simpl.
      * constructor. lia.
      * destruct (compareFn x z <=? 0)%Z; constructor; [lia|].
        now inversion Hhd.
Qed.

Lemma sort_sorted l :
  Sorted (fun a b => key b <= key a) (ArraySort.sort compareFn l).
Proof.
  induction l as [|x l IH]; simpl; [constructor | now apply insert_sorted].
Qed.



Lemma sort_map {B} (f : A -> B) (compareB : B -> B -> Z) l :
  (forall a b, compareB (f a) (f b) = compareFn a b) ->
  map f (ArraySort.sort compareFn l) = ArraySort.sort compareB (map f l).
Proof.
  intros Hf.
  assert (Hi : forall x l', map f (ArraySort.insert compareFn x l')
                            = ArraySort.insert compareB (f x) (map f l')).
  { intros x l'. induction l' as [|y l' IH]; simpl; [reflexivity|].
    rewrite Hf. destruct (compareFn x y <=? 0)%Z; simpl; [reflexivity | now rewrite IH]. }
  induction l as [|x l IH]; simpl; [reflexivity|]. now rewrite Hi, IH.
Qed.

End SortFacts.

Lemma filter_partition_perm {A} (p : A -> bool) (l : list A) :
  Permutation l (filter p l ++ filter (fun x => negb (p x)) l).
Proof.
  induction l as [|x l IH]; simpl; [reflexivity|].
  destruct (p x); simpl; [now apply perm_skip|].
  now apply Permutation_cons_app.
Qed.

(** ** The rankings *)

Section RankingFacts.

Import JS Analytics Ranking Tally.

Lemma first_occurrences_In texts t : In t (first_occurrences texts) <-> In t texts.
Proof.
  induction texts as [|u texts IH]; simpl; [tauto|].
  rewrite filter_In, IH. split.
  - intros [H | [H _]]; auto.
  - intros [H | H]; [auto|].
    destruct (string_dec u t) as [E|E]; [auto|].
    right. split; [exact H|]. now apply negb_true_iff, String.eqb_neq.
Qed.

Lemma first_occurrences_NoDup texts : NoDup (first_occurrences texts).
Proof.
  induction texts as [|u texts IH]; simpl; constructor.
  - rewrite filter_In. intros [_ H]. now rewrite String.eqb_refl in H.
  - now apply NoDup_filter.
Qed.

Lemma enumeration_order_perm keys : Permutation keys (enumeration_order keys).
Proof.
  destruct (enumeration_order_spec keys) as [idx [-> [Hp _]]].
  rewrite Hp. apply filter_partition_perm.
Qed.

(** The pain-point ranking, read off the counting loop. *)
Lemma aggregatedPains_ranking insights :
  aborts insights = false ->
  aggregatedPains insights
  = inr (ranking (length insights) (own_texts (pain_texts insights))).
Proof.
  intros Ha. unfold aggregatedPains.
  destruct (painPointCounts_spec insights Ha) as (o & -> & Hc).
  unfold ranking, slice0. do 3 f_equal.
  set (n := length insights).
  transitivity
    (map (fun e : string * nat =>
            Pain.mk (fst e) (percentage (Double.of_nat (snd e)) n) (snd e))
         (Obj.entries (counts_of o))).
  - unfold counts_of. rewrite entries_map by reflexivity. rewrite map_map.
    apply map_ext. intros [k d]. reflexivity.
  - rewrite Hc, entries_of_keys, map_map. reflexivity.
Qed.

Lemma aggregatedPains_aborts insights :
  aborts insights = true -> aggregatedPains insights = inl (cannot_read "push").
Proof. intros Ha. unfold aggregatedPains. now rewrite painPointCounts_aborts. Qed.

Lemma never_NaN_numbers l :
  ArraySort.never_NaN by_responses_desc_feature (map as_feature l) = true.
Proof.
  unfold ArraySort.never_NaN. apply forallb_forall. intros a Ha.
  apply forallb_forall. intros b Hb.
  apply in_map_iff in Ha. destruct Ha as [a' [<- _]].
  apply in_map_iff in Hb. destruct Hb as [b' [<- _]]. reflexivity.
Qed.

(** The feature-request ranking, read off the counting loop, when no idea
    names an inherited member. *)
Lemma aggregatedFeatures_ranking engine insights :
  Forall (fun t => Obj.inherited t = false) (idea_texts insights) ->
  aggregatedFeatures engine insights
  = map as_feature (ranking (length insights) (idea_texts insights)).
Proof.
  intros H. unfold aggregatedFeatures, ranking, slice0.
  rewrite <- firstn_map. f_equal.
  rewrite featureCounts_spec by exact H. unfold numbers. rewrite map_map. cbn [fst snd].
  rewrite (entries_of_keys (fun k => Feature.Number (occurrences (idea_texts insights) k))).
  rewrite map_map.
  rewrite (map_ext _ (fun k => as_feature (pain_entry (length insights)
                                             (idea_texts insights) k)))
    by reflexivity.
  rewrite <- (map_map (pain_entry (length insights) (idea_texts insights)) as_feature).
  unfold ArraySort.sort_or. rewrite never_NaN_numbers.
  symmetry. apply (sort_map by_responses_desc_pain). reflexivity.
Qed.



(** [processDataForDisplay] on a list that is not empty: it sets the six
    parts of the display and returns, or it throws in the pain-point loop,
    having set the executive summary only. *)
Lemma processDataForDisplay_returns engine st insights :
  insights <> [] -> aborts insights = false ->
  processDataForDisplay engine insights st
  = (mkDisplay
       (mkExecutiveSummary (firstn 5 (learnedPoints insights))
          (firstn 5 (buildPoints insights)))
       (ranking (length insights) (own_texts (pain_texts insights)))
       (aggregatedFeatures engine insights)
       (firstn 5 (displayed_quotes insights))
       (keyInsightsList insights)
       (mkOverviewStats (length insights)
          (top_pain_point_text
             (ranking (length insights) (own_texts (pain_texts insights))))
          (key_insight_text (learnedPoints insights))),
     inr tt).
Proof.
  intros Hne Ha. destruct insights as [|i rest]; [contradiction|].
  unfold processDataForDisplay, bind, lift. cbn zeta.
  rewrite (aggregatedPains_ranking _ Ha). reflexivity.
Qed.

Lemma processDataForDisplay_throws engine st insights :
  aborts insights = true ->
  processDataForDisplay engine insights st
  = (mkDisplay
       (mkExecutiveSummary (firstn 5 (learnedPoints insights))
          (firstn 5 (buildPoints insights)))
       (topPainPoints st) (topFeatureRequests st) (displayQuotes st)
       (displayKeyInsights st) (overviewStats st),
     inl (cannot_read "push")).
Proof.
  intros Ha. destruct insights as [|i rest]; [discriminate|].
  unfold processDataForDisplay, bind, lift. cbn zeta.
  rewrite (aggregatedPains_aborts _ Ha). reflexivity.
Qed.

Lemma shown_returns engine st insights :
  insights <> [] -> aborts insights = false ->
  shown engine st insights
  = mkDisplay
      (mkExecutiveSummary (firstn 5 (learnedPoints insights))
         (firstn 5 (buildPoints insights)))
      (ranking (length insights) (own_texts (pain_texts insights)))
      (aggregatedFeatures engine insights)
      (firstn 5 (displayed_quotes insights))
      (keyInsightsList insights)
      (mkOverviewStats (length insights)
         (top_pain_point_text
            (ranking (length insights) (own_texts (pain_texts insights))))
         (key_insight_text (learnedPoints insights))).
Proof. intros Hne Ha. unfold shown. now rewrite processDataForDisplay_returns. Qed.

Lemma shown_throws engine st insights :
  aborts insights = true ->
  shown engine st insights
  = mkDisplay
      (mkExecutiveSummary (firstn 5 (learnedPoints insights))
         (firstn 5 (buildPoints insights)))
      (topPainPoints st) (topFeatureRequests st) (displayQuotes st)
      (displayKeyInsights st) (overviewStats st).
Proof. intros Ha. unfold shown. now rewrite processDataForDisplay_throws. Qed.



End RankingFacts.

(** ** The aggregation claims *)

Section AggregationClaims.

Import JS Analytics Ranking Tally.

Lemma occurrences_own texts t :
  Obj.inherited t = false -> occurrences (own_texts texts) t = occurrences texts t.
Proof.
  intros Ht. unfold occurrences, own_texts.
  induction texts as [|u texts IH]; [reflexivity|].
  cbn [filter]. destruct (Obj.inherited u) eqn:Eu; cbn [negb].
  - rewrite IH. rewrite count_occ_cons_neq; [reflexivity | congruence].
  - cbn [count_occ]. now rewrite IH.
Qed.





(** C6. On an empty list of insight records the aggregation returns
    normally, without an exception, with the overview counters set to 0
    interviews, "N/A" and "N/A"; it touches nothing else. *)
Theorem C6_empty_aggregation :
  forall (engine : Engine) (st : Display),
    outcome engine st [] = inr tt /\
    overviewStats (shown engine st []) = mkOverviewStats 0 "N/A" "N/A" /\
    totalInterviews (overviewStats (shown engine st [])) = 0 /\
    topPainPointText (overviewStats (shown engine st [])) = "N/A" /\
    keyInsightText (overviewStats (shown engine st [])) = "N/A" /\
    executiveSummary (shown engine st []) = executiveSummary st /\
    topPainPoints (shown engine st []) = topPainPoints st /\
    topFeatureRequests (shown engine st []) = topFeatureRequests st /\
    displayQuotes (shown engine st []) = displayQuotes st /\
    displayKeyInsights (shown engine st []) = displayKeyInsights st.
Proof. intros engine st. repeat split. Qed.







End AggregationClaims.

(** * Further properties of the session *)

Section SessionFrame.

Import JS Interview Session Transcript.
Local Open Scope js_scope.

Ltac step_handler :=
  cbn beta iota zeta delta
    [submitReply handleSendMessage startInterviewSession
     bind ret throw modify_ui modify_db
     setMessages setCurrentMessage setIsTyping setInterviewConcluded
     setInterviewStarted setError setCurrentInterviewId
     insert_conversation insert_interview complete_interview
     fst snd ui db
     messages currentMessage isTyping interviewStarted error projectDetails
     founderPersona currentInterviewId interviewConcluded insightsLoading
     insightsError insightsSuccess
     interviews conversations insights
     now_user user_row_stored invoke_ai now_ai ai_row_stored now_completed
     completion_stored].

Ltac open_world w :=
  let s := fresh "s" in
  let d := fresh "d" in
  destruct w as [s d]; destruct s; destruct d;
  cbn [ui db messages currentMessage isTyping interviewStarted error
       projectDetails founderPersona currentInterviewId interviewConcluded
       insightsLoading insightsError insightsSuccess
       interviews conversations insights] in *; subst.

Lemma handleSendMessage_idle w env :
  in_progress w = false -> handleSendMessage env w = (w, inr tt).
Proof.
  unfold in_progress, handleSendMessage. intros H.
  destruct (projectDetails (ui w)), (founderPersona (ui w)),
    (currentInterviewId (ui w)) as [iid|]; try reflexivity.
  destruct (truthy iid); simpl in H.
  - apply negb_false_iff in H. now rewrite H, orb_true_r.
  - now rewrite orb_true_r.
Qed.

Lemma completed_ids iid now rows :
  map interview_row_id
    (map (fun r => if String.eqb (interview_row_id r) iid
                   then mkInterviewRow (interview_row_id r) (interview_project_id r)
                          (interview_user_id r) "completed" (started_at r) (Some now)
                   else r) rows)
  = map interview_row_id rows.
Proof.
  rewrite map_map. apply map_ext. intros r.
  now destruct (String.eqb (interview_row_id r) iid).
Qed.

(** What no reply ever changes. *)
Lemma submitReply_frame w reply env :
  let w' := fst (submitReply reply env w) in
  snd (submitReply reply env w) = inr tt /\
  projectDetails (ui w') = projectDetails (ui w) /\
  founderPersona (ui w') = founderPersona (ui w) /\
  currentInterviewId (ui w') = currentInterviewId (ui w) /\
  interviewStarted (ui w') = interviewStarted (ui w) /\
  error (ui w') = error (ui w) /\
  insights (db w') = insights (db w) /\
  map interview_row_id (interviews (db w')) = map interview_row_id (interviews (db w)) /\
  (isTyping (ui w) = false -> isTyping (ui w') = false).
Proof.
  open_world w. destruct env as [t1 su inv t2 sa t3 sc]. step_handler.
  destruct projectDetails0 as [pd|], founderPersona0 as [fp|],
    currentInterviewId0 as [iid|]; step_handler; try (repeat split; auto; fail).
  match goal with |- context [if ?c then _ else _] => destruct c end;
    step_handler; [repeat split; auto|].
  unfold try_catch_finally.
  destruct su, sa, sc;
    (destruct inv as [m|dd]; step_handler; [repeat split; auto|]);
    (destruct (response_error dd) as [e|]; [destruct (truthy e)|]; step_handler;
     try (repeat split; auto; fail);
     match goal with |- context [if ?c then _ else _] => destruct c end;
     step_handler; repeat split; auto; apply completed_ids).
Qed.

End SessionFrame.

Section SessionCases.

Import JS Interview Session Transcript.

(** The three things a reply can do. *)
Lemma submitReply_cases w reply env :
  let w' := fst (submitReply reply env w) in
  (messages (ui w') = messages (ui w) /\ db w' = db w /\
   interviewConcluded (ui w') = interviewConcluded (ui w) /\
   in_progress w' = in_progress w /\
   (in_progress w = false \/ truthy (trim reply) = false))
  \/
  (exists iid,
     in_progress w = true /\ currentInterviewId (ui w) = Some iid /\
     truthy (trim reply) = true /\ agent_reply env = None /\
     messages (ui w') =
       messages (ui w) ++
         [respondent_turn reply env; mkMessage (now_ai env + 1) ai apology (now_ai env)] /\
     conversations (db w') =
       conversations (db w)
       ++ stored_rows (user_row_stored env) (mkConversationRow iid "user" (trim reply)) /\
     in_progress w' = true)
  \/
  (exists iid answer,
     in_progress w = true /\ currentInterviewId (ui w) = Some iid /\
     truthy (trim reply) = true /\ agent_reply env = Some answer /\
     messages (ui w') =
       messages (ui w) ++ [respondent_turn reply env; agent_turn answer env] /\
     conversations (db w') =
       conversations (db w)
       ++ stored_rows (user_row_stored env) (mkConversationRow iid "user" (trim reply))
       ++ stored_rows (ai_row_stored env) (mkConversationRow iid "ai" answer) /\
     interviewConcluded (ui w') =
       ((4 <=? userMessageCount (messages (ui w')))%nat
        || includes (toLowerCase answer) closing_phrase) /\
     in_progress w' = negb (interviewConcluded (ui w'))).
Proof.
  cbv zeta. destruct (in_progress w) eqn:Hp.
  - destruct (in_progress_inv w Hp) as [pd [fp [iid [_ [_ [Eid _]]]]]].
    destruct (truthy (trim reply)) eqn:Hn.
    + destruct (agent_reply env) as [answer|] eqn:Ha.
      * right. right.
        destruct (submitReply_success w reply env answer iid Hp Eid Hn Ha)
          as [_ [Hm [Hcv [Hcc [Hip _]]]]].
        exists iid, answer. rewrite Hcc, Hm. repeat split; auto.
      * right. left.
        destruct (submitReply_failure w reply env iid Hp Eid Hn Ha)
          as [_ [Hm [Hcv [_ [Hip _]]]]].
        exists iid. repeat split; auto.
    + left. destruct (submitReply_blank w reply env Hn) as [_ [Hm [Hd [Hcc [Hip _]]]]].
      rewrite Hip. repeat split; auto.
  - left. unfold submitReply, bind, setCurrentMessage, modify_ui.
    assert (Hp' : in_progress
              {| ui := {| messages := messages (ui w); currentMessage := reply;
                          isTyping := isTyping (ui w);
                          interviewStarted := interviewStarted (ui w);
                          error := error (ui w); projectDetails := projectDetails (ui w);
                          founderPersona := founderPersona (ui w);
                          currentInterviewId := currentInterviewId (ui w);
                          interviewConcluded := interviewConcluded (ui w);
                          insightsLoading := insightsLoading (ui w);
                          insightsError := insightsError (ui w);
                          insightsSuccess := insightsSuccess (ui w) |};
                 db := db w |} = false) by exact Hp.
    rewrite (handleSendMessage_idle _ env Hp'). cbn. repeat split; auto.
Qed.

Lemma run_currentInterviewId w evs :
  currentInterviewId (ui (run w evs)) = currentInterviewId (ui w).
Proof.
  revert w. induction evs as [|[reply env] evs IH]; intros w; simpl; [reflexivity|].
  rewrite IH. now destruct (submitReply_frame w reply env) as [_ [_ [_ [H _]]]].
Qed.

End SessionCases.

(** ** [trim] *)

Section TrimFacts.

Import JS Blank.

Lemma trimStart_empty s : trimStart s = EmptyString <-> all_space s = true.
Proof.
  induction s as [|c s IH]; simpl; [tauto|].
  destruct (is_space c); simpl; [exact IH | split; discriminate].
Qed.

Lemma trimStart_head s c r : trimStart s = String c r -> is_space c = false.
Proof.
  induction s as [|c' s IH]; simpl; [discriminate|].
  destruct (is_space c') eqn:E; [exact IH|]. intros H. injection H as <- _. exact E.
Qed.

Lemma trimEnd_head c r :
  is_space c = false -> exists r', trimEnd (String c r) = String c r'.
Proof.
  intros E. simpl. destruct (trimEnd r); rewrite ?E; eauto.
Qed.

Lemma trimEnd_idem s : trimEnd (trimEnd s) = trimEnd s.
Proof.
  induction s as [|c s IH]; [reflexivity|].
  cbn [trimEnd]. destruct (trimEnd s) as [|c' t] eqn:Et.
  - destruct (is_space c) eqn:E; [reflexivity|]. cbn [trimEnd]. now rewrite E.
  - cbn [trimEnd]. cbn [trimEnd] in IH.
    destruct (trimEnd t) as [|c2 t2]; destruct (is_space c') eqn:E';
      try discriminate; congruence.
Qed.

(** A reply is dropped by the guard exactly when it is empty or all white
    space. *)
Lemma trim_blank_iff s : truthy (trim s) = false <-> all_space s = true.
Proof.
  rewrite <- trimStart_empty. unfold trim.
  destruct (trimStart s) as [|c r] eqn:E.
  - split; reflexivity.
  - destruct (trimEnd_head c r (trimStart_head _ _ _ E)) as [r' ->].
    split; discriminate.
Qed.

Lemma trim_idem s : trim (trim s) = trim s.
Proof.
  unfold trim. destruct (trimStart s) as [|c r] eqn:E; [reflexivity|].
  destruct (trimEnd_head c r (trimStart_head _ _ _ E)) as [r' Hr].
  assert (Hs : trimStart (trimEnd (String c r)) = trimEnd (String c r)).
  { rewrite Hr. cbn [trimStart]. now rewrite (trimStart_head _ _ _ E). }
  rewrite Hs. apply trimEnd_idem.
Qed.

End TrimFacts.

(** ** Replies and the transcript *)

Section TranscriptProperties.

Import JS Interview Session Transcript Blank.

(** A reply that is empty or consists of white space only is dropped by the
    guard of [handleSendMessage]: no turn is shown, no row is written, and the
    session is neither concluded nor otherwise changed. *)
Theorem blank_reply_is_ignored :
  forall (w : World) (reply : string) (env : SendEnv),
    all_space reply = true ->
    let w' := fst (submitReply reply env w) in
    snd (submitReply reply env w) = inr tt /\
    messages (ui w') = messages (ui w) /\ db w' = db w /\
    interviewConcluded (ui w') = interviewConcluded (ui w) /\
    in_progress w' = in_progress w.
Proof.
  intros w reply env Hb. apply trim_blank_iff in Hb.
  destruct (submitReply_blank w reply env Hb) as [H1 [H2 [H3 [H4 [H5 _]]]]].
  cbv zeta. auto.
Qed.

Lemma blank_reply_is_ignored_witness :
  all_space "   " = true /\
  messages (ui (fst (submitReply "   " (Sample.answers 200 "Hello") Sample.started)))
  = messages (ui Sample.started).
Proof.
  split; [reflexivity|].
  apply (blank_reply_is_ignored Sample.started "   " (Sample.answers 200 "Hello")).
  reflexivity.
Defined.

(** The transcript store only grows: over any sequence of replies the rows
    present before stay where they are, the rows added carry the id of the
    current interview and the sender "user" or "ai", and reading back the rows
    of an interview gives the earlier reading followed by the new rows.  No
    reply adds or removes an interview row or an insight row. *)
Theorem transcript_is_append_only :
  forall (w : World) (evs : list (string * SendEnv)),
    exists rows,
      conversations (db (run w evs)) = conversations (db w) ++ rows /\
      (forall r, In r rows ->
         currentInterviewId (ui w) = Some (interview_id r) /\
         (sender_type r = "user" \/ sender_type r = "ai")) /\
      (forall iid,
         select_conversation iid (db (run w evs))
         = select_conversation iid (db w)
           ++ filter (fun r => String.eqb (interview_id r) iid) rows) /\
      insights (db (run w evs)) = insights (db w) /\
      map interview_row_id (interviews (db (run w evs)))
      = map interview_row_id (interviews (db w)).
Proof.
  intros w evs.
  assert (H : exists rows,
            conversations (db (run w evs)) = conversations (db w) ++ rows /\
            (forall r, In r rows ->
               currentInterviewId (ui w) = Some (interview_id r) /\
               (sender_type r = "user" \/ sender_type r = "ai")) /\
            insights (db (run w evs)) = insights (db w) /\
            map interview_row_id (interviews (db (run w evs)))
            = map interview_row_id (interviews (db w))).
  { revert w. induction evs as [|[reply env] evs IH]; intros w.
    - exists []. simpl. rewrite app_nil_r.
      split; [reflexivity|]. split; [intros r []|]. split; reflexivity.
    - simpl. destruct (IH (fst (submitReply reply env w))) as [rows [Hc [Hr [Hi Hv]]]].
      destruct (submitReply_frame w reply env) as [_ [_ [_ [Hid [_ [_ [Hins [Hids _]]]]]]]].
      rewrite Hid in Hr. rewrite Hins in Hi. rewrite Hids in Hv.
      destruct (submitReply_cases w reply env)
        as [[_ [Hd _]] | [[iid [_ [Eid [_ [_ [_ [Hcv _]]]]]]]
                         | [iid [answer [_ [Eid [_ [_ [_ [Hcv _]]]]]]]]]].
      + exists rows. rewrite Hd in Hc. auto.
      + exists (stored_rows (user_row_stored env) (mkConversationRow iid "user" (trim reply))
                ++ rows).
        rewrite Hc, Hcv, <- app_assoc.
        split; [reflexivity|]. split; [|split; assumption].
        intros r Hin. apply in_app_or in Hin. destruct Hin as [Hin|Hin]; [|now apply Hr].
        unfold stored_rows in Hin. destruct (user_row_stored env); [|contradiction].
        destruct Hin as [<-|[]]. simpl. auto.
      + exists (stored_rows (user_row_stored env) (mkConversationRow iid "user" (trim reply))
                ++ stored_rows (ai_row_stored env) (mkConversationRow iid "ai" answer)
                ++ rows).
        rewrite Hc, Hcv, <- !app_assoc.
        split; [reflexivity|]. split; [|split; assumption].
        intros r Hin. apply in_app_or in Hin. destruct Hin as [Hin|Hin].
        * unfold stored_rows in Hin. destruct (user_row_stored env); [|contradiction].
          destruct Hin as [<-|[]]. simpl. auto.
        * apply in_app_or in Hin. destruct Hin as [Hin|Hin]; [|now apply Hr].
          unfold stored_rows in Hin. destruct (ai_row_stored env); [|contradiction].
          destruct Hin as [<-|[]]. simpl. auto. }
  destruct H as [rows [Hc [Hr [Hi Hv]]]].
  exists rows. split; [exact Hc|]. split; [exact Hr|]. split; [|split; assumption].
  intros iid. unfold select_conversation. now rewrite Hc, filter_app.
Qed.

Lemma local_texts_after ms reply env m :
  type m = ai ->
  map content (filter (fun x => MessageType_eqb (type x) user)
                 (ms ++ [respondent_turn reply env; m]))
  = map content (filter (fun x => MessageType_eqb (type x) user) ms) ++ [trim reply].
Proof.
  intros Hm. rewrite filter_app, map_app. f_equal. simpl. now rewrite Hm.
Qed.

Lemma rows_of_after iid rows su sa reply answer sender :
  filter (fun r => String.eqb (interview_id r) iid && String.eqb (sender_type r) sender)
    (rows ++ stored_rows su (mkConversationRow iid "user" (trim reply))
          ++ stored_rows sa (mkConversationRow iid "ai" answer))
  = filter (fun r => String.eqb (interview_id r) iid && String.eqb (sender_type r) sender)
      rows
    ++ (if su && String.eqb "user" sender
        then [mkConversationRow iid "user" (trim reply)] else [])
    ++ (if sa && String.eqb "ai" sender then [mkConversationRow iid "ai" answer] else []).
Proof.
  rewrite !filter_app. f_equal. unfold stored_rows.
  destruct su, sa; cbn [filter interview_id sender_type andb app];
    rewrite ?String.eqb_refl; cbn [andb];
    destruct (String.eqb "user" sender), (String.eqb "ai" sender); reflexivity.
Qed.

Lemma rows_of_after_user iid rows su reply sender :
  filter (fun r => String.eqb (interview_id r) iid && String.eqb (sender_type r) sender)
    (rows ++ stored_rows su (mkConversationRow iid "user" (trim reply)))
  = filter (fun r => String.eqb (interview_id r) iid && String.eqb (sender_type r) sender)
      rows
    ++ (if su && String.eqb "user" sender
        then [mkConversationRow iid "user" (trim reply)] else []).
Proof.
  rewrite filter_app. f_equal. unfold stored_rows.
  destruct su; cbn [filter interview_id sender_type andb];
    rewrite ?String.eqb_refl; cbn [andb];
    destruct (String.eqb "user" sender); reflexivity.
Qed.

(** What one reply adds to the respondent texts of the page and of the
    store. *)
Lemma respondent_texts_step w iid reply env :
  currentInterviewId (ui w) = Some iid ->
  let w' := fst (submitReply reply env w) in
  exists added,
    local_respondent_texts w' = local_respondent_texts w ++ added /\
    map row_content (rows_of iid "user" w')
    = map row_content (rows_of iid "user" w)
      ++ (if user_row_stored env then added else []) /\
    Forall (fun t => truthy t = true /\ trim t = t) added /\
    (in_progress w = true -> truthy (trim reply) = true -> added = [trim reply]).
Proof.
  intros Eid. cbv zeta. unfold local_respondent_texts, rows_of.
  destruct (submitReply_cases w reply env)
    as [[Hm [Hd [_ [_ Hskip]]]] | [[iid' [Hp [Eid' [Hn [_ [Hm [Hcv _]]]]]]]
                                  | [iid' [answer [Hp [Eid' [Hn [_ [Hm [Hcv _]]]]]]]]]].
  - exists []. rewrite Hm, Hd.
    split; [symmetry; apply app_nil_r|].
    split; [destruct (user_row_stored env); symmetry; apply app_nil_r|].
    split; [constructor|]. intros Hp Hn. destruct Hskip; congruence.
  - rewrite Eid in Eid'. injection Eid' as <-.
    exists [trim reply]. rewrite Hm, Hcv, local_texts_after by reflexivity.
    rewrite rows_of_after_user, map_app, String.eqb_refl, andb_true_r.
    split; [reflexivity|]. split; [now destruct (user_row_stored env)|].
    split; [|reflexivity].
    constructor; [|constructor]. split; [exact Hn | apply trim_idem].
  - rewrite Eid in Eid'. injection Eid' as <-.
    exists [trim reply]. rewrite Hm, Hcv, local_texts_after by reflexivity.
    rewrite rows_of_after, !map_app, String.eqb_refl, andb_true_r.
    change (String.eqb "ai" "user") with false. rewrite andb_false_r, app_nil_r.
    split; [reflexivity|]. split; [now destruct (user_row_stored env)|].
    split; [|reflexivity].
    constructor; [|constructor]. split; [exact Hn | apply trim_idem].
Qed.

(** As long as the store takes the respondent rows it is handed, the
    respondent turns shown on the page and the respondent rows of the current
    interview in the store stay the same list of texts: if they agree before
    a sequence of replies they agree after it, whether turn generation
    succeeds or fails; and every text added is non-empty and has no white
    space at either end.  The page never looks at the store's answer: one
    refused insert, and the reply is shown on the page without being in the
    store. *)
Theorem respondent_turns_stay_persisted :
  forall (w : World) (iid : string) (evs : list (string * SendEnv)),
    currentInterviewId (ui w) = Some iid ->
    local_respondent_texts w = map row_content (rows_of iid "user" w) ->
    (Forall (fun ev => user_row_stored (snd ev) = true) evs ->
     local_respondent_texts (run w evs)
     = map row_content (rows_of iid "user" (run w evs))) /\
    (exists added,
       local_respondent_texts (run w evs) = local_respondent_texts w ++ added /\
       Forall (fun t => truthy t = true /\ trim t = t) added) /\
    (forall reply env,
       in_progress w = true -> truthy (trim reply) = true ->
       user_row_stored env = false ->
       local_respondent_texts (fst (submitReply reply env w))
       = local_respondent_texts w ++ [trim reply] /\
       map row_content (rows_of iid "user" (fst (submitReply reply env w)))
       = map row_content (rows_of iid "user" w) /\
       local_respondent_texts (fst (submitReply reply env w))
       <> map row_content (rows_of iid "user" (fst (submitReply reply env w)))).
Proof.
  intros w iid evs Eid Hsync. split; [|split].
  - revert w Eid Hsync.
    induction evs as [|[reply env] evs IH]; intros w Eid Hsync Hall; [exact Hsync|].
    inversion Hall as [|? ? Hs Hall']; subst. cbn [snd] in Hs. cbn [run].
    destruct (submitReply_frame w reply env) as [_ [_ [_ [Hid _]]]].
    rewrite Eid in Hid.
    destruct (respondent_texts_step w iid reply env Eid) as [added [Hl [Hr _]]].
    rewrite Hs in Hr.
    apply IH; [exact Hid | | exact Hall']. now rewrite Hl, Hr, Hsync.
  - clear Hsync. revert w Eid.
    induction evs as [|[reply env] evs IH]; intros w Eid.
    + exists []. split; [symmetry; apply app_nil_r | constructor].
    + cbn [run].
      destruct (submitReply_frame w reply env) as [_ [_ [_ [Hid _]]]].
      rewrite Eid in Hid.
      destruct (respondent_texts_step w iid reply env Eid) as [added [Hl [_ [Hf _]]]].
      destruct (IH _ Hid) as [more [H2 H3]].
      exists (added ++ more). rewrite H2, Hl, app_assoc. split; [reflexivity|].
      now apply Forall_app.
  - intros reply env Hp Hn Hs.
    destruct (respondent_texts_step w iid reply env Eid) as [added [Hl [Hr [_ Ha]]]].
    specialize (Ha Hp Hn). subst added. rewrite Hs, app_nil_r in Hr.
    split; [exact Hl|]. split; [exact Hr|].
    rewrite Hl, Hr, <- Hsync. intros H.
    apply (f_equal (@length string)) in H. rewrite length_app in H.
    cbn [length] in H. lia.
Qed.

Lemma respondent_turns_stay_persisted_witness :
  currentInterviewId (ui Sample.started) = Some "i1" /\
  local_respondent_texts (run Sample.started Sample.four_failures)
  = map row_content (rows_of "i1" "user" (run Sample.started Sample.four_failures)).
Proof.
  split; [reflexivity|].
  destruct (respondent_turns_stay_persisted Sample.started "i1" Sample.four_failures
              eq_refl eq_refl) as [H _].
  apply H. repeat constructor.
Defined.

End TranscriptProperties.

(** ** How long a session lasts *)

Section SessionLength.

Import JS Interview Session Transcript.

Lemma userMessageCount_after ms reply env m :
  type m = ai ->
  userMessageCount (ms ++ [respondent_turn reply env; m]) = S (userMessageCount ms).
Proof.
  intros Hm. unfold userMessageCount. rewrite filter_app, length_app. simpl.
  rewrite Hm. simpl. lia.
Qed.

Lemma idle_run w evs : in_progress w = false -> db (run w evs) = db w.
Proof.
  revert w. induction evs as [|[reply env] evs IH]; intros w Hp; simpl; [reflexivity|].
  destruct (submitReply_cases w reply env)
    as [[_ [Hd [_ [Hip _]]]] | [[iid [Hp' _]] | [iid [answer [Hp' _]]]]];
    try congruence.
  rewrite IH; [exact Hd | congruence].
Qed.

Lemma no_agent_row_in_respondent_rows iid iid' su t :
  filter (fun r => String.eqb (interview_id r) iid && String.eqb (sender_type r) "ai")
    (stored_rows su (mkConversationRow iid' "user" t)) = [].
Proof.
  destruct su; [|reflexivity]. cbn [stored_rows filter interview_id sender_type].
  change (String.eqb "user" "ai") with false. now rewrite andb_false_r.
Qed.

Lemma agent_rows_bound iid evs : forall w,
  in_progress w = true ->
  length (rows_of iid "ai" (run w evs)) + Nat.min 3 (userMessageCount (messages (ui w)))
  <= length (rows_of iid "ai" w) + 4.
Proof.
  induction evs as [|[reply env] evs IH]; intros w Hp; cbn [run]; [lia|].
  destruct (submitReply_cases w reply env)
    as [[Hm [Hd [_ [Hip _]]]]
       | [[iid' [_ [_ [_ [_ [Hm [Hcv Hip]]]]]]]
         | [iid' [answer [_ [_ [_ [_ [Hm [Hcv [Hcc Hip]]]]]]]]]]].
  - rewrite Hp in Hip. specialize (IH _ Hip).
    unfold rows_of in *. rewrite Hm, Hd in IH. exact IH.
  - specialize (IH _ Hip). unfold rows_of in *.
    rewrite Hm, Hcv, userMessageCount_after in IH by reflexivity.
    rewrite filter_app, length_app, no_agent_row_in_respondent_rows in IH.
    cbn [length] in IH. lia.
  - assert (Hrows : length (rows_of iid "ai" (fst (submitReply reply env w)))
                    <= length (rows_of iid "ai" w) + 1).
    { unfold rows_of. rewrite Hcv, !filter_app, !length_app.
      rewrite no_agent_row_in_respondent_rows. unfold stored_rows.
      destruct (ai_row_stored env); cbn [filter interview_id sender_type length];
        [|lia].
      destruct (String.eqb iid' iid && String.eqb "ai" "ai"); cbn [length]; lia. }
    destruct (in_progress (fst (submitReply reply env w))) eqn:Hp'.
    + specialize (IH _ Hp').
      rewrite Hm, userMessageCount_after in IH by reflexivity.
      assert (Hc : interviewConcluded (ui (fst (submitReply reply env w))) = false)
        by (now apply negb_true_iff; rewrite <- Hip).
      rewrite Hc in Hcc. symmetry in Hcc. apply orb_false_iff in Hcc.
      destruct Hcc as [Hcount _]. apply Nat.leb_gt in Hcount.
      rewrite Hm, userMessageCount_after in Hcount by reflexivity. lia.
    + unfold rows_of at 1. rewrite (idle_run _ evs Hp'). fold (rows_of iid "ai"
        (fst (submitReply reply env w))). lia.
Qed.

(** Over any sequence of replies to a session in progress, at most
    [4 - min 3 n] agent turns are generated and written to the store, where
    [n] is the number of respondent turns already shown: at most 4 from the
    start of an interview, and exactly one more can follow once three
    respondent turns are shown. *)
Theorem generated_turns_are_bounded :
  forall (w : World) (iid : string) (evs : list (string * SendEnv)),
    in_progress w = true ->
    length (rows_of iid "ai" (run w evs))
    + Nat.min 3 (userMessageCount (messages (ui w)))
    <= length (rows_of iid "ai" w) + 4.
Proof. intros w iid evs Hp. now apply agent_rows_bound. Qed.

Lemma generated_turns_are_bounded_witness :
  in_progress Sample.started = true /\
  length (rows_of "i1" "ai" (run Sample.started Sample.four_replies)) <= 5.
Proof.
  split; [reflexivity|].
  pose proof (generated_turns_are_bounded Sample.started "i1" Sample.four_replies eq_refl)
    as H.
  change (length (rows_of "i1" "ai" Sample.started)) with 1 in H.
  change (userMessageCount (messages (ui Sample.started))) with 0 in H.
  simpl Nat.min in H. lia.
Defined.

Lemma answered_count_cons ev evs :
  answered_count (ev :: evs) = (if answered ev then 1 else 0) + answered_count evs.
Proof. unfold answered_count. simpl. now destruct (answered ev). Qed.

(** A session in progress is concluded by any sequence of replies in which
    some reply is answered and the answered replies, together with the
    respondent turns already shown, number at least 4: failed generations and
    blank replies in between do not prevent it.  In particular four answered
    replies always conclude a session. *)
Theorem answered_replies_conclude :
  forall (w : World) (evs : list (string * SendEnv)),
    in_progress w = true ->
    1 <= answered_count evs ->
    4 <= answered_count evs + userMessageCount (messages (ui w)) ->
    concluded (run w evs) = true.
Proof.
  intros w evs. revert w.
  induction evs as [|[reply env] evs IH]; intros w Hp H1 H4.
  - unfold answered_count in H1. simpl in H1. lia.
  - rewrite answered_count_cons in H1, H4. unfold answered in H1, H4.
    cbn [fst snd] in H1, H4. simpl.
    destruct (submitReply_cases w reply env)
      as [[Hm [_ [_ [Hip [Hf | Hn]]]]]
         | [[iid [_ [_ [Hn [Ha [Hm [_ Hip]]]]]]]
           | [iid [answer [_ [_ [Hn [Ha [Hm [_ [Hcc Hip]]]]]]]]]]].
    + congruence.
    + rewrite Hn in H1, H4. simpl in H1, H4.
      apply IH; [congruence | exact H1 | now rewrite Hm].
    + rewrite Hn, Ha in H1, H4. simpl in H1, H4.
      apply IH; [exact Hip | exact H1 |].
      rewrite Hm, userMessageCount_after by reflexivity. lia.
    + rewrite Hn, Ha in H1, H4. simpl in H1, H4.
      destruct (interviewConcluded (ui (fst (submitReply reply env w)))) eqn:Hc.
      * now apply run_concluded.
      * symmetry in Hcc. apply orb_false_iff in Hcc. destruct Hcc as [Hcount _].
        apply Nat.leb_gt in Hcount.
        rewrite Hm, userMessageCount_after in Hcount by reflexivity.
        apply IH; [exact Hip | lia |].
        rewrite Hm, userMessageCount_after by reflexivity. lia.
Qed.

Lemma answered_replies_conclude_witness :
  in_progress Sample.started = true /\
  concluded (run Sample.started (("x", Sample.fails 150) :: Sample.four_replies)) = true.
Proof.
  split; [reflexivity|].
  apply (answered_replies_conclude Sample.started
           (("x", Sample.fails 150) :: Sample.four_replies));
    [reflexivity | vm_compute; lia | vm_compute; lia].
Defined.

End SessionLength.

(** ** Starting an interview *)

Section StartProperties.

Import JS Interview Session Transcript.
Local Open Scope js_scope.

Ltac step_start :=
  cbn beta iota zeta delta
    [startInterviewSession
     bind ret throw modify_ui modify_db
     setMessages setIsTyping setInterviewStarted setError setCurrentInterviewId
     insert_conversation insert_interview
     start_now start_insert start_message_now opening_row_stored
     fst snd ui db
     messages currentMessage isTyping interviewStarted error projectDetails
     founderPersona currentInterviewId interviewConcluded insightsLoading
     insightsError insightsSuccess
     interviews conversations insights].

Ltac open_world w :=
  let s := fresh "s" in
  let d := fresh "d" in
  destruct w as [s d]; destruct s; destruct d;
  cbn [ui db messages currentMessage isTyping interviewStarted error
       projectDetails founderPersona currentInterviewId interviewConcluded
       insightsLoading insightsError insightsSuccess
       interviews conversations insights] in *; subst.

Lemma or_else_truthy o d : truthy d = true -> truthy (or_else o d) = true.
Proof.
  intros Hd. unfold or_else. destruct o as [s|]; [|exact Hd].
  destruct (truthy s) eqn:E; [exact E | exact Hd].
Qed.

Lemma opening_line_truthy fp pd : truthy (opening_line fp pd) = true.
Proof. reflexivity. Qed.

(** When the interview row is created, [startInterviewSession] leaves a
    session holding exactly one turn, the agent's opening question: the text
    is the only message on the page, and it is handed to the store as one row
    under the new interview id.  The store's answer to that insert is
    discarded: if the store takes the row the transcript gains exactly that
    row, and if it refuses, the transcript gains nothing while the page shows
    the turn all the same.  The text is the first question of the guide when
    that is non-empty, the greeting otherwise, and never empty.  One
    interview row with status "started" is appended.  With a non-empty id the
    session is in progress, and if the store held no respondent row under
    that id the page and the store agree on the respondent turns (none). *)
Theorem start_opens_session_with_one_turn :
  forall (w : World) (env : StartEnv) (pd : ProjectDetails) (fp : FounderPersona)
         (i : string),
    projectDetails (ui w) = Some pd -> founderPersona (ui w) = Some fp ->
    start_insert env = Inserted i ->
    let w' := fst (startInterviewSession env w) in
    let q := or_else (firstQuestionFromGuide pd) (opening_line fp pd) in
    snd (startInterviewSession env w) = inr tt /\
    currentInterviewId (ui w') = Some i /\
    messages (ui w') = [mkMessage (start_message_now env) ai q (start_message_now env)] /\
    (opening_row_stored env = true ->
     conversations (db w') = conversations (db w) ++ [mkConversationRow i "ai" q]) /\
    (opening_row_stored env = false ->
     conversations (db w') = conversations (db w) /\ length (messages (ui w')) = 1) /\
    interviews (db w')
    = interviews (db w)
      ++ [mkInterviewRow i (project_id pd) (user_id pd) "started" (start_now env) None] /\
    insights (db w') = insights (db w) /\
    interviewStarted (ui w') = true /\ isTyping (ui w') = false /\
    truthy q = true /\
    (truthy i = true -> interviewConcluded (ui w) = false -> in_progress w' = true) /\
    (rows_of i "user" w = [] ->
     local_respondent_texts w' = map row_content (rows_of i "user" w')).
Proof.
  intros w env pd fp i Epd Efp Eins. unfold in_progress, local_respondent_texts, rows_of.
  open_world w. destruct env as [t1 ins t2 sto].
  cbn [start_now start_insert start_message_now opening_row_stored] in *. subst ins.
  destruct sto; step_start; unfold try_catch_finally; step_start;
    repeat split; try reflexivity; try discriminate;
    try (apply or_else_truthy, opening_line_truthy);
    try (intros Hi Hc; now rewrite Hi, Hc).
  - intros Hrows. rewrite filter_app, Hrows. cbn [filter sender_type interview_id app].
    rewrite andb_false_r. reflexivity.
  - intros Hrows. now rewrite Hrows.
Qed.

Lemma start_opens_session_with_one_turn_witness :
  in_progress Sample.started = true /\ length (messages (ui Sample.started)) = 1.
Proof.
  destruct (start_opens_session_with_one_turn Sample.loaded
              (mkStartEnv 100 (Inserted "i1") 101 true) Sample.project Sample.persona "i1"
              eq_refl eq_refl eq_refl)
    as [_ [_ [Hm [_ [_ [_ [_ [_ [_ [_ [Hp _]]]]]]]]]]].
  split; [apply Hp; reflexivity|].
  unfold Sample.started. now rewrite Hm.
Defined.

(** When the interview row cannot be created, [startInterviewSession] writes
    nothing: the tables, the messages and the interview id are as before, a
    non-empty error text is shown, and the page is back in the state from
    which an interview can be started ([interviewStarted] and [isTyping] are
    false).  The handler itself returns normally. *)
Theorem start_failure_writes_nothing :
  forall (w : World) (env : StartEnv) (pd : ProjectDetails) (fp : FounderPersona)
         (m : string),
    projectDetails (ui w) = Some pd -> founderPersona (ui w) = Some fp ->
    start_insert env = InsertError m ->
    let w' := fst (startInterviewSession env w) in
    snd (startInterviewSession env w) = inr tt /\
    db w' = db w /\ messages (ui w') = messages (ui w) /\
    currentInterviewId (ui w') = currentInterviewId (ui w) /\
    interviewConcluded (ui w') = interviewConcluded (ui w) /\
    in_progress w' = in_progress w /\
    interviewStarted (ui w') = false /\ isTyping (ui w') = false /\
    exists e, error (ui w') = Some e /\ truthy e = true.
Proof.
  intros w env pd fp m Epd Efp Eins. unfold in_progress.
  open_world w. step_start. unfold try_catch_finally. rewrite Eins. step_start.
  repeat split; try reflexivity.
  eexists. split; [reflexivity|].
  destruct (truthy m) eqn:Em; [now rewrite Em | reflexivity].
Qed.

Lemma start_failure_writes_nothing_witness :
  db (fst (startInterviewSession (mkStartEnv 100 (InsertError "") 101 true) Sample.loaded))
  = db Sample.loaded.
Proof.
  apply (start_failure_writes_nothing Sample.loaded
           (mkStartEnv 100 (InsertError "") 101 true)
           Sample.project Sample.persona ""); reflexivity.
Defined.

Lemma startInterviewSession_unloaded w env :
  projectDetails (ui w) = None \/ founderPersona (ui w) = None ->
  startInterviewSession env w = (w, inr tt).
Proof.
  unfold startInterviewSession. intros [H | H]; rewrite H; [reflexivity|].
  now destruct (projectDetails (ui w)).
Qed.

End StartProperties.

(** ** Loading the project *)

Section LoadingProperties.

Import JS Interview Session Loading.
Local Open Scope js_scope.

Ltac step_load :=
  cbn beta iota zeta delta
    [load fetchDetails setProjectDetails setFounderPersona
     bind ret throw modify_ui modify_db setError
     fst snd ui db world isLoading
     messages currentMessage isTyping interviewStarted error projectDetails
     founderPersona currentInterviewId interviewConcluded insightsLoading
     insightsError insightsSuccess
     interviews conversations insights].

(** A load that finds the project leaves the page with the project and a
    persona whose name is "Founder" and whose company name is the project
    title or, for an empty title, "Startup".  The name does not depend on the
    profile: the profile rows arrive as an array, whose [full_name] is
    undefined, so the [full_name] stored in the profile is never used, and
    the greeting of an interview without guide introduces "Founder".  No
    error is shown and nothing is written. *)
Theorem load_gives_named_persona :
  forall (projectId : option string) (env : FetchEnv) (p : Page) (pd : ProjectDetails),
    truthy_opt projectId = true ->
    projectQuery env = ProjectFound pd ->
    let p' := load projectId env p in
    projectDetails (ui (world p')) = Some pd /\
    error (ui (world p')) = None /\ isLoading p' = false /\
    db (world p') = db (world p) /\ messages (ui (world p')) = messages (ui (world p)) /\
    exists c,
      founderPersona (ui (world p')) = Some (mkFounderPersona (Some "Founder") (Some c)) /\
      truthy c = true /\
      c = (if truthy (title pd) then title pd else "Startup") /\
      opening_line (mkFounderPersona (Some "Founder") (Some c)) pd
      = ("Hi there! I'm Founder, and I'm working on a new idea: " ++ title pd
         ++ ". Thanks for taking the time to chat! Could you start by telling me a bit about your experiences related to this?")%string.
Proof.
  intros projectId env [w l] pd Hid Hq. destruct w as [s d]. destruct s.
  unfold load. rewrite Hid. step_load. unfold try_catch_finally. rewrite Hq. step_load.
  assert (Hc : truthy (companyName_of pd) = true).
  { unfold companyName_of. destruct (truthy (title pd)) eqn:E; [exact E | reflexivity]. }
  destruct (profileQuery env) as [m|[rows|]]; step_load; repeat split;
    eexists; (split; [reflexivity|]); auto.
Qed.

Lemma load_gives_named_persona_witness :
  exists c,
    founderPersona (ui (world (load (Some "p2") SampleLoading.found SampleLoading.blank_page)))
    = Some (mkFounderPersona (Some "Founder") (Some c)) /\
    truthy c = true.
Proof.
  destruct (load_gives_named_persona (Some "p2") SampleLoading.found
              SampleLoading.blank_page SampleLoading.untitled eq_refl eq_refl)
    as [_ [_ [_ [_ [_ [c [H1 [H2 _]]]]]]]].
  exists c. auto.
Defined.

(** A load that has no project id, or whose project query fails or finds
    nothing, shows a non-empty error, writes nothing and leaves the project
    and the persona of the page as they were.  On a page that had no project
    before, starting an interview, sending a reply and extracting insights
    then all do nothing; a page that held a project keeps it. *)
Theorem failed_load_blocks_the_page :
  forall (projectId : option string) (env : FetchEnv) (p : Page),
    truthy_opt projectId = false \/ (forall pd, projectQuery env <> ProjectFound pd) ->
    let p' := load projectId env p in
    projectDetails (ui (world p')) = projectDetails (ui (world p)) /\
    founderPersona (ui (world p')) = founderPersona (ui (world p)) /\
    isLoading p' = false /\
    db (world p') = db (world p) /\
    (exists e, error (ui (world p')) = Some e /\ truthy e = true) /\
    (projectDetails (ui (world p)) = None ->
     (forall senv, startInterviewSession senv (world p') = (world p', inr tt)) /\
     (forall senv, handleSendMessage senv (world p') = (world p', inr tt)) /\
     (forall ienv, processInsights ienv (world p') = (world p', inr tt))).
Proof.
  intros projectId env [w l] Hfail.
  assert (H : projectDetails (ui (world (load projectId env (mkPage w l))))
              = projectDetails (ui w) /\
              founderPersona (ui (world (load projectId env (mkPage w l))))
              = founderPersona (ui w) /\
              isLoading (load projectId env (mkPage w l)) = false /\
              db (world (load projectId env (mkPage w l))) = db w /\
              exists e, error (ui (world (load projectId env (mkPage w l)))) = Some e
                        /\ truthy e = true).
  { destruct w as [s d]. destruct s.
    unfold load. destruct (truthy_opt projectId) eqn:Hid.
    - destruct Hfail as [Hf | Hf]; [discriminate|].
      step_load. unfold try_catch_finally.
      destruct (projectQuery env) as [m| |pd]; [| |exfalso; now apply (Hf pd)]; step_load.
      + repeat split. eexists. split; [reflexivity|].
        destruct (truthy m) eqn:Em; [now rewrite Em | reflexivity].
      + repeat split. eexists. split; reflexivity.
    - step_load. repeat split. eexists. split; reflexivity. }
  destruct H as [H1 [H1' [H2 [H3 [e [H4 H5]]]]]]. cbv zeta. cbn [world] in *.
  split; [exact H1|]. split; [exact H1'|]. split; [exact H2|]. split; [exact H3|].
  split; [exists e; auto|]. intros Hnone. rewrite Hnone in H1.
  split; [|split]; intros x.
  - apply startInterviewSession_unloaded. now left.
  - unfold handleSendMessage. now rewrite H1.
  - unfold processInsights. now rewrite H1.
Qed.

Lemma failed_load_blocks_the_page_witness :
  projectDetails
    (ui (world (load (Some "p9") SampleLoading.denied SampleLoading.blank_page))) = None /\
  projectDetails
    (ui (world (load (Some "p9") SampleLoading.denied SampleLoading.loaded_page)))
  = Some Sample.project.
Proof.
  split.
  - apply (failed_load_blocks_the_page (Some "p9") SampleLoading.denied
             SampleLoading.blank_page).
    right. intros pd. discriminate.
  - apply (failed_load_blocks_the_page (Some "p9") SampleLoading.denied
             SampleLoading.loaded_page).
    right. intros pd. discriminate.
Defined.

End LoadingProperties.

(** ** Extraction runs *)

Section ExtractionProperties.

Import JS Interview Session Extraction.
Local Open Scope js_scope.

Ltac step_insights :=
  cbn beta iota zeta delta
    [processInsights
     bind ret throw modify_ui modify_db
     setInsightsLoading setInsightsError setInsightsSuccess insert_insight
     fst snd ui db
     messages currentMessage isTyping interviewStarted error projectDetails
     founderPersona currentInterviewId interviewConcluded insightsLoading
     insightsError insightsSuccess
     interviews conversations insights].

Ltac open_world w :=
  let s := fresh "s" in
  let d := fresh "d" in
  destruct w as [s d]; destruct s; destruct d;
  cbn [ui db messages currentMessage isTyping interviewStarted error
       projectDetails founderPersona currentInterviewId interviewConcluded
       insightsLoading insightsError insightsSuccess
       interviews conversations insights] in *; subst.

Lemma processInsights_idle w env :
  ready w = false -> processInsights env w = (w, inr tt).
Proof.
  unfold ready, processInsights. intros H.
  destruct (projectDetails (ui w)), (founderPersona (ui w)),
    (currentInterviewId (ui w)) as [iid|]; try reflexivity.
  destruct (truthy iid); simpl in H.
  - now rewrite H.
  - now rewrite orb_true_r.
Qed.

(** What a run of [processInsights] never changes, and the most it adds. *)
Lemma processInsights_frame w env :
  let w' := fst (processInsights env w) in
  snd (processInsights env w) = inr tt /\
  messages (ui w') = messages (ui w) /\
  projectDetails (ui w') = projectDetails (ui w) /\
  founderPersona (ui w') = founderPersona (ui w) /\
  currentInterviewId (ui w') = currentInterviewId (ui w) /\
  interviewConcluded (ui w') = interviewConcluded (ui w) /\
  isTyping (ui w') = isTyping (ui w) /\
  interviews (db w') = interviews (db w) /\
  conversations (db w') = conversations (db w) /\
  (insightsLoading (ui w) = false -> insightsLoading (ui w') = false) /\
  (insights (db w') = insights (db w) \/
   exists row, insights (db w') = insights (db w) ++ [row] /\
               currentInterviewId (ui w) = Some (insight_interview_id row) /\
               option_map project_id (projectDetails (ui w)) = Some (insight_project_id row) /\
               option_map user_id (projectDetails (ui w)) = Some (insight_user_id row)).
Proof.
  open_world w. step_insights.
  destruct projectDetails0 as [pd|], founderPersona0 as [fp|],
    currentInterviewId0 as [iid|]; step_insights; try (repeat split; auto; fail).
  match goal with |- context [if ?c then _ else _] => destruct c end;
    step_insights; [repeat split; auto|].
  unfold try_catch_finally.
  destruct (convoError env) as [m|]; step_insights; [repeat split; auto|].
  match goal with
  | |- context [invoke_insights ?r ?c] => destruct (invoke_insights r c) as [m|v]
  end; step_insights; [repeat split; auto|].
  destruct v as [|b|z|str|items|members];
    try (destruct (Json.prop _ "error") as [e|]; [destruct (Json.truthy e)|]);
    step_insights; try (repeat split; auto; fail);
    (destruct (saveError env) as [m|]; step_insights;
     [repeat split; auto
     |repeat split; auto; right; eexists; repeat split; reflexivity]).
Qed.

Lemma run_frame w evs :
  projectDetails (ui (run w evs)) = projectDetails (ui w) /\
  founderPersona (ui (run w evs)) = founderPersona (ui w).
Proof.
  revert w. induction evs as [|[reply env] evs IH]; intros w; simpl; [auto|].
  destruct (IH (fst (submitReply reply env w))) as [H1 H2].
  destruct (submitReply_frame w reply env) as [_ [H3 [H4 _]]].
  split; congruence.
Qed.

(** Insight extraction happens for concluded sessions only: on a page
    that holds no concluded session [processInsights] changes nothing, and
    along any sequence of replies to a session in progress the extraction is
    enabled exactly when the session has concluded. *)
Theorem extraction_waits_for_conclusion :
  forall (w : World) (evs : list (string * SendEnv)) (env : InsightsEnv),
    in_progress w = true ->
    processInsights env w = (w, inr tt) /\
    ready (run w evs) = concluded (run w evs) /\
    (concluded (run w evs) = false ->
     processInsights env (run w evs) = (run w evs, inr tt)).
Proof.
  intros w evs env Hp.
  destruct (in_progress_inv w Hp) as [pd [fp [iid [Epd [Efp [Eid [Hi Hc]]]]]]].
  assert (Hr : ready (run w evs) = concluded (run w evs)).
  { unfold ready, concluded. destruct (run_frame w evs) as [H1 H2].
    now rewrite H1, H2, run_currentInterviewId, Epd, Efp, Eid, Hi. }
  split; [|split; [exact Hr|]].
  - apply processInsights_idle. unfold ready. now rewrite Epd, Efp, Eid, Hi, Hc.
  - intros Hnc. apply processInsights_idle. congruence.
Qed.

Lemma extraction_waits_for_conclusion_witness :
  in_progress Sample.started = true /\
  ready (run Sample.started Sample.four_replies) = true.
Proof.
  split; [reflexivity|].
  destruct (extraction_waits_for_conclusion Sample.started Sample.four_replies
              SampleInsights.not_json eq_refl) as [_ [H _]].
  rewrite H. reflexivity.
Defined.

(** A run of [processInsights] touches the insights table and its own three
    flags only: messages, transcript rows, interview rows and the session
    state are as before, no exception leaves the handler, and at most one
    insight row is appended, which carries the current interview id and the
    project's id and owner. *)
Theorem extraction_writes_at_most_one_row :
  forall (w : World) (env : InsightsEnv),
    let w' := fst (processInsights env w) in
    snd (processInsights env w) = inr tt /\
    messages (ui w') = messages (ui w) /\
    conversations (db w') = conversations (db w) /\
    interviews (db w') = interviews (db w) /\
    interviewConcluded (ui w') = interviewConcluded (ui w) /\
    currentInterviewId (ui w') = currentInterviewId (ui w) /\
    (insights (db w') = insights (db w) \/
     exists row, insights (db w') = insights (db w) ++ [row] /\
                 currentInterviewId (ui w) = Some (insight_interview_id row) /\
                 option_map project_id (projectDetails (ui w))
                 = Some (insight_project_id row) /\
                 option_map user_id (projectDetails (ui w))
                 = Some (insight_user_id row)).
Proof.
  intros w env.
  destruct (processInsights_frame w env)
    as [H1 [H2 [_ [_ [H5 [H6 [_ [H8 [H9 [_ H11]]]]]]]]]].
  cbv zeta. repeat split; auto.
Qed.

(** Extraction is not guarded against repetition: when two runs on the same
    concluded session both receive an accepted reply, each appends its own
    row, and the table ends with two rows for the same interview. *)
Theorem repeated_extraction_duplicates :
  forall (w : World) (env1 env2 : InsightsEnv) (pd : ProjectDetails)
         (fp : FounderPersona) (iid raw1 raw2 : string) (v1 v2 : Json.JSON),
    ready w = true ->
    projectDetails (ui w) = Some pd -> founderPersona (ui w) = Some fp ->
    currentInterviewId (ui w) = Some iid ->
    truthy (or_else (product_idea_prompt pd) (title pd)) = true ->
    select_conversation iid (db w) <> [] ->
    convoError env1 = None -> saveError env1 = None ->
    completion env1 = InsightsFunction.Content raw1 (InsightsFunction.Parsed v1) ->
    truthy raw1 = true -> accepted v1 = true ->
    convoError env2 = None -> saveError env2 = None ->
    completion env2 = InsightsFunction.Content raw2 (InsightsFunction.Parsed v2) ->
    truthy raw2 = true -> accepted v2 = true ->
    insights (db (fst (processInsights env2 (fst (processInsights env1 w)))))
    = insights (db w) ++ [insight_row iid pd v1; insight_row iid pd v2] /\
    insight_interview_id (insight_row iid pd v1)
    = insight_interview_id (insight_row iid pd v2).
Proof.
  intros w env1 env2 pd fp iid raw1 raw2 v1 v2 Hr Epd Efp Eid Hidea Hconv
    Ec1 Es1 Ek1 Hr1 Ha1 Ec2 Es2 Ek2 Hr2 Ha2.
  destruct (processInsights_accepts w env1 pd fp iid raw1 v1 Hr Epd Efp Eid
              Hidea Hconv Ec1 Es1 Ek1 Hr1 Ha1) as [H1 _].
  destruct (processInsights_frame w env1)
    as [_ [_ [F3 [F4 [F5 [F6 [_ [_ [F9 _]]]]]]]]].
  set (w1 := fst (processInsights env1 w)) in *.
  assert (Hr' : ready w1 = true).
  { unfold ready in *. now rewrite F3, F4, F5, F6. }
  assert (Hconv' : select_conversation iid (db w1) <> []).
  { unfold select_conversation in *. now rewrite F9. }
  destruct (processInsights_accepts w1 env2 pd fp iid raw2 v2 Hr'
              (eq_trans F3 Epd) (eq_trans F4 Efp) (eq_trans F5 Eid)
              Hidea Hconv' Ec2 Es2 Ek2 Hr2 Ha2) as [H2 _].
  split; [|reflexivity]. rewrite H2, H1, <- app_assoc. reflexivity.
Qed.

Lemma repeated_extraction_duplicates_witness :
  length (insights (db (fst (processInsights
                               (SampleInsights.reply_of SampleInsights.summary_only)
                               (fst (processInsights
                                       (SampleInsights.reply_of SampleInsights.oversized)
                                       Sample.finished)))))) = 2.
Proof.
  assert (Hconv : select_conversation "i1" (db Sample.finished) <> [])
    by (vm_compute; discriminate).
  rewrite (proj1 (repeated_extraction_duplicates Sample.finished
              (SampleInsights.reply_of SampleInsights.oversized)
              (SampleInsights.reply_of SampleInsights.summary_only)
              Sample.project Sample.persona "i1"
              (Json.stringify SampleInsights.oversized)
              (Json.stringify SampleInsights.summary_only)
              SampleInsights.oversized SampleInsights.summary_only
              eq_refl eq_refl eq_refl eq_refl eq_refl Hconv
              eq_refl eq_refl eq_refl eq_refl eq_refl
              eq_refl eq_refl eq_refl eq_refl eq_refl)).
  reflexivity.
Defined.

End ExtractionProperties.

(** ** Exceptions and busy flags *)

Section HandlersReturn.

Import JS Interview Session.
Local Open Scope js_scope.

Lemma handleSendMessage_as_submitReply w env :
  handleSendMessage env w = submitReply (currentMessage (ui w)) env w.
Proof.
  unfold submitReply, bind, setCurrentMessage, modify_ui.
  destruct w as [s d]. destruct s. reflexivity.
Qed.

Lemma startInterviewSession_returns w env :
  snd (startInterviewSession env w) = inr tt /\
  (isTyping (ui w) = false -> isTyping (ui (fst (startInterviewSession env w))) = false).
Proof.
  destruct w as [s d]. destruct s. destruct d.
  unfold startInterviewSession. cbn [ui projectDetails founderPersona].
  destruct projectDetails0 as [pd|], founderPersona0 as [fp|]; try (split; auto; fail).
  unfold try_catch_finally.
  destruct (opening_row_stored env), (start_insert env) as [m|i];
    cbn beta iota zeta delta
      [bind ret throw modify_ui modify_db
       setMessages setIsTyping setInterviewStarted setError setCurrentInterviewId
       insert_conversation insert_interview
       fst snd ui db
       messages currentMessage isTyping interviewStarted error projectDetails
       founderPersona currentInterviewId interviewConcluded insightsLoading
       insightsError insightsSuccess
       interviews conversations insights];
    split; auto.
Qed.

(** No exception leaves a handler of the interview page: whatever the
    stores and the functions answer, [startInterviewSession],
    [handleSendMessage] and [processInsights] return normally; and a handler
    called on a page that is not busy leaves it not busy ([isTyping], and
    [insightsLoading] for the extraction, are false again at the end). *)
Theorem handlers_return_normally :
  forall (w : World) (start_env : StartEnv) (send_env : SendEnv)
         (insights_env : InsightsEnv),
    snd (startInterviewSession start_env w) = inr tt /\
    snd (handleSendMessage send_env w) = inr tt /\
    snd (processInsights insights_env w) = inr tt /\
    (isTyping (ui w) = false ->
     isTyping (ui (fst (startInterviewSession start_env w))) = false /\
     isTyping (ui (fst (handleSendMessage send_env w))) = false /\
     isTyping (ui (fst (processInsights insights_env w))) = false) /\
    (insightsLoading (ui w) = false ->
     insightsLoading (ui (fst (processInsights insights_env w))) = false).
Proof.
  intros w start_env send_env insights_env.
  destruct (startInterviewSession_returns w start_env) as [S1 S2].
  destruct (processInsights_frame w insights_env)
    as [P1 [_ [_ [_ [_ [_ [P7 [_ [_ [P10 _]]]]]]]]]].
  rewrite handleSendMessage_as_submitReply.
  destruct (submitReply_frame w (currentMessage (ui w)) send_env)
    as [H1 [_ [_ [_ [_ [_ [_ [_ H9]]]]]]]].
  repeat split; auto. now rewrite P7.
Qed.

Lemma handlers_return_normally_witness :
  isTyping (ui Sample.started) = false /\
  isTyping (ui (fst (handleSendMessage (Sample.fails 200) Sample.started))) = false.
Proof.
  split; [reflexivity|].
  apply (handlers_return_normally Sample.started (mkStartEnv 1 (InsertError "x") 2 true)
           (Sample.fails 200) SampleInsights.not_json).
  reflexivity.
Defined.

End HandlersReturn.

(** * The turn-generation function *)

Section InterviewerFacts.

Import JS.

Lemma unsure_reply_trimmed : trim AiInterviewer.unsure_reply = AiInterviewer.unsure_reply.
Proof. reflexivity. Qed.

Lemma reply_text_trimmed content :
  let a := or_else (option_map trim content) AiInterviewer.unsure_reply in
  truthy a = true /\ trim a = a.
Proof.
  cbv zeta. destruct content as [c|]; simpl option_map; unfold or_else.
  - destruct (truthy (trim c)) eqn:E.
    + split; [exact E | apply trim_idem].
    + split; [reflexivity | apply unsure_reply_trimmed].
  - split; [reflexivity | apply unsure_reply_trimmed].
Qed.






End InterviewerFacts.

Section TurnGenerationFacts.

Import JS Interview Session TurnGeneration.

Lemma slice_last_length {A} n (l : list A) :
  length (slice_last n l) = Nat.min n (length l).
Proof. unfold slice_last. rewrite length_skipn. lia. Qed.

Lemma slice_last_suffix {A} n (l : list A) :
  exists pre, l = pre ++ slice_last n l.
Proof.
  exists (firstn (length l - n) l). unfold slice_last. now rewrite firstn_skipn.
Qed.

Lemma slice_last_all {A} n (l : list A) : length l <= n -> slice_last n l = l.
Proof.
  intros H. unfold slice_last. replace (length l - n) with 0 by lia. reflexivity.
Qed.

Lemma slice_last_two {A} (l : list A) a b :
  slice_last 10 (l ++ [a; b]) = slice_last 8 l ++ [a; b].
Proof.
  unfold slice_last. rewrite length_app. cbn [length].
  replace (length l + 2 - 10) with (length l - 8) by lia.
  rewrite skipn_app. replace (length l - 8 - length l) with 0 by lia. reflexivity.
Qed.

(** The request the page sends for a reply holds at most the last ten
    messages shown, in order, so the completion receives at most twelve chat
    messages, the last one being the reply.  With the [ai-interviewer]
    function as modelled, the call of a non-empty reply fails exactly when the
    project has neither idea text nor title or the completion call throws;
    otherwise the page receives a reply text that is non-empty and trimmed.
    Hence a failure always reaches the page as an invocation error, never as
    an [error] member of the body, and the page's own stock reply for an empty
    [aiResponse] is never used. *)
Theorem page_and_interviewer_compose :
  forall (pd : ProjectDetails) (fp : FounderPersona) (ms : list Message)
         (text : string)
         (openai : AiInterviewer.ChatRequest -> AiInterviewer.Completion)
         (t1 t2 t3 : Z) (su sa sc : bool),
    truthy text = true ->
    let idea := or_else (product_idea_prompt pd) (title pd) in
    let history := map history_message (slice_last 10 ms) in
    let req := AiInterviewer.chat_request idea (name fp, companyName fp) history text in
    let env :=
      mkSendEnv t1 su (invoke_ai_interviewer (invoke_body pd fp ms text) openai) t2 sa t3 sc in
    length history <= 10 /\
    (exists pre, map history_message ms = pre ++ history) /\
    length (AiInterviewer.chat_messages req) <= 12 /\
    last (AiInterviewer.chat_messages req) (AiInterviewer.mkChatMessage "" "")
    = AiInterviewer.mkChatMessage "user" text /\
    (agent_reply env = None <->
     truthy idea = false \/ exists m, openai req = AiInterviewer.CompletionThrows m) /\
    (agent_reply env = None -> exists m, invoke_ai env = FunctionsError m) /\
    (forall answer,
       agent_reply env = Some answer ->
       truthy answer = true /\ trim answer = answer /\
       invoke_ai env = Data (mkAiResponseData None (Some answer)) /\
       exists content,
         openai req = AiInterviewer.Choice content /\
         answer = or_else (option_map trim content) AiInterviewer.unsure_reply).
Proof.
  intros pd fp ms text openai t1 t2 t3 su sa sc Ht idea history req env.
  assert (Hlen : length history <= 10).
  { unfold history. rewrite length_map, slice_last_length. lia. }
  split; [exact Hlen|]. split.
  { destruct (slice_last_suffix 10 ms) as [pre Hpre].
    exists (map history_message pre). unfold history.
    rewrite <- map_app, <- Hpre. reflexivity. }
  split.
  { unfold req. cbn [AiInterviewer.chat_messages AiInterviewer.chat_request length].
    rewrite length_app, length_map. cbn [length]. lia. }
  split.
  { unfold req. cbn [AiInterviewer.chat_messages AiInterviewer.chat_request].
    rewrite app_comm_cons. apply last_last. }
  assert (Hinv : invoke_ai env
                 = if truthy idea
                   then match openai req with
                        | AiInterviewer.CompletionThrows _ =>
                            FunctionsError "Edge Function returned a non-2xx status code"
                        | AiInterviewer.Choice content =>
                            Data (mkAiResponseData None
                                    (Some (or_else (option_map trim content)
                                             AiInterviewer.unsure_reply)))
                        end
                   else FunctionsError "Edge Function returned a non-2xx status code").
  { unfold env. cbn [invoke_ai]. unfold invoke_ai_interviewer.
    change (AiInterviewer.serve (Http.post (invoke_body pd fp ms text)) openai)
      with (Http.Answer (AiInterviewer.respond (invoke_body pd fp ms text) openai)).
    unfold AiInterviewer.respond, invoke_body.
    cbn [AiInterviewer.productIdea AiInterviewer.conversationHistory
         AiInterviewer.userResponse AiInterviewer.founderPersona].
    fold idea. fold history. rewrite Ht. destruct (truthy idea); [|reflexivity].
    cbn [negb orb]. fold req. destruct (openai req); reflexivity. }
  unfold agent_reply. rewrite Hinv.
  destruct (truthy idea) eqn:Ei.
  - destruct (openai req) as [m|content] eqn:Eo.
    + split; [split; [intros _; right; eauto | reflexivity]|].
      split; [intros _; eauto | discriminate].
    + cbn [response_error truthy_opt aiResponse].
      destruct (reply_text_trimmed content) as [H1 H2].
      assert (Ho : or_else (Some (or_else (option_map trim content) AiInterviewer.unsure_reply))
                     glitch_reply
                   = or_else (option_map trim content) AiInterviewer.unsure_reply).
      { unfold or_else at 1. now rewrite H1. }
      rewrite Ho.
      split; [split; [discriminate | intros [H | [m H]]; discriminate]|].
      split; [discriminate|].
      intros answer Ha. injection Ha as <-. repeat split; auto. eauto.
  - split; [split; [intros _; now left | reflexivity]|].
    split; [intros _; eauto | discriminate].
Qed.

Lemma page_and_interviewer_compose_witness :
  truthy "I cook most evenings" = true /\
  length (map history_message (slice_last 10 (messages (ui Sample.finished)))) <= 10.
Proof.
  split; [reflexivity|].
  apply (page_and_interviewer_compose Sample.project Sample.persona
           (messages (ui Sample.finished)) "I cook most evenings"
           (fun _ => AiInterviewer.Choice None) 1 2 3 true true true).
  reflexivity.
Defined.

(** The apology shown after a failed generation is never stored, but it is
    sent back to the text generator: the history of the next request ends
    with the failed reply as a user turn followed by the apology as an
    assistant turn. *)
Theorem apology_is_fed_back :
  forall (w : World) (reply : string) (env : SendEnv) (iid : string)
         (idea next : string) (fp : option string * option string),
    in_progress w = true -> currentInterviewId (ui w) = Some iid ->
    truthy (trim reply) = true -> agent_reply env = None ->
    let w' := fst (submitReply reply env w) in
    let history := map history_message (slice_last 10 (messages (ui w'))) in
    (forall r, In r (conversations (db w')) -> ~ In r (conversations (db w)) ->
               sender_type r = "user") /\
    (exists pre,
       history
       = pre ++ [AiInterviewer.mkHistoryMessage "user" (trim reply);
                 AiInterviewer.mkHistoryMessage "ai" apology] /\
       AiInterviewer.chat_messages (AiInterviewer.chat_request idea fp history next)
       = AiInterviewer.mkChatMessage "system" (AiInterviewer.system_content idea fp)
         :: map AiInterviewer.chat_turn pre
         ++ [AiInterviewer.mkChatMessage "user" (trim reply);
             AiInterviewer.mkChatMessage "assistant" apology;
             AiInterviewer.mkChatMessage "user" next]).
Proof.
  intros w reply env iid idea next fp Hp Eid Hn Ha.
  destruct (submitReply_failure w reply env iid Hp Eid Hn Ha) as [_ [Hm [Hcv _]]].
  cbv zeta. split.
  - intros r Hin Hnot. rewrite Hcv in Hin. apply in_app_or in Hin.
    destruct Hin as [Hin | Hin]; [contradiction|].
    unfold stored_rows in Hin. destruct (user_row_stored env); [|contradiction].
    destruct Hin as [<- | []]. reflexivity.
  - exists (map history_message (slice_last 8 (messages (ui w)))).
    rewrite Hm, slice_last_two, map_app. split; [reflexivity|].
    cbn [AiInterviewer.chat_messages AiInterviewer.chat_request].
    rewrite map_app, <- app_assoc. reflexivity.
Qed.

Lemma apology_is_fed_back_witness :
  in_progress Sample.started = true /\
  exists pre,
    map history_message
      (slice_last 10
         (messages (ui (fst (submitReply "I cook" (Sample.fails 200) Sample.started)))))
    = pre ++ [AiInterviewer.mkHistoryMessage "user" (trim "I cook");
              AiInterviewer.mkHistoryMessage "ai" apology].
Proof.
  split; [reflexivity|].
  destruct (apology_is_fed_back Sample.started "I cook" (Sample.fails 200) "i1"
              "idea" "next" (None, None) eq_refl eq_refl eq_refl eq_refl)
    as [_ [pre [H _]]].
  exists pre. exact H.
Defined.

End TurnGenerationFacts.

(** * The insights function *)

Section InsightsFunctionFacts.

Import JS.






End InsightsFunctionFacts.

(** * The analytics page *)

(** ** Lists, sums and texts *)

Section DisplayFacts.

Import JS Analytics Ranking Tally Shown.

Lemma fold_left_flat_map {A B} (step : list B -> A -> list B) (g : A -> list B) :
  (forall acc a, step acc a = acc ++ g a) ->
  forall l acc, fold_left step l acc = acc ++ flat_map g l.
Proof.
  intros H l. induction l as [|a l IH]; intros acc; simpl.
  - now rewrite app_nil_r.
  - now rewrite IH, H, <- app_assoc.
Qed.

Lemma counted_truthy o t : In t (counted o) -> truthy t = true.
Proof.
  destruct o as [s|]; simpl; [|contradiction].
  destruct (truthy s) eqn:E; simpl; [|contradiction].
  intros [<-|[]]. exact E.
Qed.

Lemma texts_of_truthy f insights :
  Forall (fun t => truthy t = true) (texts_of f insights).
Proof.
  apply Forall_forall. intros t Ht. unfold texts_of in Ht.
  apply in_flat_map in Ht. destruct Ht as [i [_ Ht]]. now apply counted_truthy in Ht.
Qed.

Lemma pain_texts_truthy insights t : In t (pain_texts insights) -> truthy t = true.
Proof.
  unfold pain_texts. intros Ht.
  apply in_flat_map in Ht. destruct Ht as [i [_ Ht]].
  apply in_flat_map in Ht. destruct Ht as [pp [_ Ht]]. now apply counted_truthy in Ht.
Qed.

Lemma learnedPoints_texts insights :
  learnedPoints insights = texts_of whatWeLearned_of insights.
Proof.
  unfold learnedPoints, texts_of.
  rewrite (fold_left_flat_map _ (fun i => counted (whatWeLearned_of i))); [reflexivity|].
  intros acc i. unfold whatWeLearned_of.
  destruct (key_learnings i) as [kl|]; [|now rewrite app_nil_r].
  unfold push_if_truthy, counted. destruct (whatWeLearned kl) as [s|]; [|now rewrite app_nil_r].
  destruct (truthy s); [reflexivity | now rewrite app_nil_r].
Qed.

Lemma buildPoints_texts insights :
  buildPoints insights = texts_of whatToBuildNext_of insights.
Proof.
  unfold buildPoints, texts_of.
  rewrite (fold_left_flat_map _ (fun i => counted (whatToBuildNext_of i))); [reflexivity|].
  intros acc i. unfold whatToBuildNext_of.
  destruct (key_learnings i) as [kl|]; [|now rewrite app_nil_r].
  unfold push_if_truthy, counted. destruct (whatToBuildNext kl) as [s|]; [|now rewrite app_nil_r].
  destruct (truthy s); [reflexivity | now rewrite app_nil_r].
Qed.

Lemma append_empty_r s : (s ++ "")%string = s.
Proof. induction s as [|c s IH]; simpl; congruence. Qed.

Lemma length_append s1 s2 :
  String.length (s1 ++ s2)%string = String.length s1 + String.length s2.
Proof. induction s1 as [|c s1 IH]; simpl; congruence. Qed.

Lemma substring0_length n : forall s,
  String.length (substring0 n s) = Nat.min n (String.length s).
Proof.
  unfold substring0. induction n as [|n IH]; intros [|c s]; simpl; try reflexivity.
  now rewrite IH.
Qed.

Lemma substring0_all n : forall s, String.length s <= n -> substring0 n s = s.
Proof.
  unfold substring0. induction n as [|n IH]; intros [|c s]; simpl; intros H;
    try reflexivity; [lia|].
  rewrite IH by lia. reflexivity.
Qed.

(** The cut of the source, [s.substring(0, n) + (s.length > n ? '...' : '')]. *)
Lemma cut_abbreviated n s :
  (substring0 n s ++ ellipsis n s)%string = abbreviated n s.
Proof.
  unfold ellipsis, abbreviated.
  destruct (Nat.leb_spec (String.length s) n) as [H|H].
  - rewrite substring0_all by exact H.
    destruct (Nat.ltb_spec n (String.length s)); [lia|]. apply append_empty_r.
  - destruct (Nat.ltb_spec n (String.length s)); [reflexivity | lia].
Qed.

Lemma abbreviated_length n s : String.length (abbreviated n s) <= n + 3.
Proof.
  unfold abbreviated. destruct (Nat.leb_spec (String.length s) n) as [H|H]; [lia|].
  rewrite length_append, substring0_length. simpl. lia.
Qed.

Lemma abbreviated_truthy n s : truthy s = true -> 0 < n -> truthy (abbreviated n s) = true.
Proof.
  unfold abbreviated. intros Hs Hn.
  destruct (String.length s <=? n)%nat; [exact Hs|].
  destruct s as [|c s]; [discriminate|]. destruct n; [lia|]. reflexivity.
Qed.

Lemma Sorted_prefix {A} (R : A -> A -> Prop) (l1 l2 : list A) :
  Sorted R (l1 ++ l2) -> Sorted R l1.
Proof.
  induction l1 as [|a l1 IH]; simpl; intros H; [constructor|].
  inversion H as [|? ? Hs Hhd]; subst. constructor; [now apply IH|].
  destruct l1; simpl in *; [constructor | inversion Hhd; now constructor].
Qed.

Lemma StronglySorted_across {A} (R : A -> A -> Prop) (l1 l2 : list A) :
  StronglySorted R (l1 ++ l2) -> forall a b, In a l1 -> In b l2 -> R a b.
Proof.
  induction l1 as [|x l1 IH]; simpl; intros H a b Ha Hb; [contradiction|].
  apply StronglySorted_inv in H. destruct H as [Hs Hall].
  destruct Ha as [<-|Ha]; [|now apply (IH Hs)].
  rewrite Forall_forall in Hall. apply Hall. apply in_or_app. now right.
Qed.

Lemma Sorted_map {A B} (f : A -> B) (R : B -> B -> Prop) (l : list A) :
  Sorted (fun a b => R (f a) (f b)) l -> Sorted R (map f l).
Proof.
  induction 1 as [|a l Hs IH Hhd]; simpl; constructor; [exact IH|].
  destruct Hhd; simpl; now constructor.
Qed.

Lemma list_sum_firstn n (l : list nat) : list_sum (firstn n l) <= list_sum l.
Proof.
  rewrite <- (firstn_skipn n l) at 2. rewrite list_sum_app. lia.
Qed.

Lemma list_sum_zero {A} (l : list A) : list_sum (map (fun _ => 0) l) = 0.
Proof. induction l; simpl; congruence. Qed.

Lemma list_sum_add {A} (f g : A -> nat) (l : list A) :
  list_sum (map (fun x => f x + g x) l) = list_sum (map f l) + list_sum (map g l).
Proof. induction l as [|x l IH]; simpl; [reflexivity | rewrite IH; lia]. Qed.

Lemma list_sum_cons x l : list_sum (x :: l) = x + list_sum l.
Proof. reflexivity. Qed.

(** Over keys without repetition, exactly one key is [t]. *)
Lemma list_sum_indicator t keys :
  NoDup keys ->
  list_sum (map (fun k => if string_dec t k then 1 else 0) keys)
  = if in_dec string_dec t keys then 1 else 0.
Proof.
  induction 1 as [|k keys Hni Hnd IH]; [reflexivity|].
  rewrite map_cons, list_sum_cons, IH.
  destruct (string_dec t k) as [E|E].
  - subst k. destruct (in_dec string_dec t keys); [contradiction|].
    destruct (in_dec string_dec t (t :: keys)) as [_|n']; [reflexivity|].
    exfalso. apply n'. now left.
  - destruct (in_dec string_dec t keys) as [i|n'];
      destruct (in_dec string_dec t (k :: keys)) as [i'|n'']; try reflexivity.
    + exfalso. apply n''. now right.
    + destruct i' as [E'|i']; [congruence | contradiction].
Qed.

(** Every counted text is counted once: the numbers of occurrences of the
    distinct texts add up to the number of texts. *)
Lemma sum_occurrences texts : forall keys,
  NoDup keys -> (forall t, In t texts -> In t keys) ->
  list_sum (map (occurrences texts) keys) = length texts.
Proof.
  induction texts as [|t texts IH]; intros keys Hnd Hin.
  - apply list_sum_zero.
  - transitivity (list_sum (map (fun k => (if string_dec t k then 1 else 0)
                                          + occurrences texts k) keys)).
    { f_equal. apply map_ext. intros k. unfold occurrences. cbn [count_occ].
      destruct (string_dec t k); reflexivity. }
    rewrite list_sum_add, list_sum_indicator by exact Hnd.
    rewrite IH; [|exact Hnd | intros u Hu; apply Hin; now right].
    destruct (in_dec string_dec t keys) as [_|n]; [reflexivity|].
    exfalso. apply n, Hin. now left.
Qed.

Lemma exact_percentage_le_100 c n :
  c <= n -> 0 < n -> (exact_percentage c n <= inject_Z 100)%Q.
Proof.
  intros Hc Hn. unfold exact_percentage.
  destruct n as [|n]; [lia|].
  assert (Hz : (Z.of_nat c <= Z.of_nat (S n))%Z) by lia.
  destruct (Z.of_nat (S n)) as [|p|p] eqn:E; try lia.
  unfold Qle, Qmult, Qdiv, Qinv, inject_Z. cbn [Qnum Qden].
  unfold Qmult. cbn [Qnum Qden]. rewrite !Pos2Z.inj_mul. lia.
Qed.

Lemma exact_percentage_pos c n : 0 < c -> 0 < n -> (0 < exact_percentage c n)%Q.
Proof.
  intros Hc Hn. unfold exact_percentage.
  destruct n as [|n]; [lia|].
  assert (Hz : (0 < Z.of_nat c)%Z) by lia.
  destruct (Z.of_nat (S n)) as [|p|p] eqn:E; try lia.
  unfold Qlt, Qmult, Qdiv, Qinv, inject_Z. cbn [Qnum Qden].
  unfold Qmult. cbn [Qnum Qden]. lia.
Qed.

End DisplayFacts.

(** ** Floating point

    What is needed of the arithmetic of numbers: an integer below 2^53 is a
    number, and rounding to nearest does not pass a number of the format. *)

Section PowersOfTwo.

Lemma pow2_pos e : (0 < Double.pow2 e)%Q.
Proof. unfold Double.pow2. apply Qpower_0_lt. reflexivity. Qed.

Lemma pow2_add a b : (Double.pow2 (a + b) == Double.pow2 a * Double.pow2 b)%Q.
Proof. unfold Double.pow2. apply Qpower_plus. discriminate. Qed.

Lemma pow2_Z n : (0 <= n)%Z -> (Double.pow2 n == inject_Z (2 ^ n))%Q.
Proof. intros H. unfold Double.pow2. symmetry. apply (Zpower_Qpower 2 n H). Qed.

Lemma pow2_ge_1 n : (0 <= n)%Z -> (1 <= Double.pow2 n)%Q.
Proof.
  intros H. rewrite (pow2_Z n H).
  change 1%Q with (inject_Z 1). rewrite <- Zle_Qle.
  pose proof (Z.pow_pos_nonneg 2 n). lia.
Qed.

Lemma pow2_ge_2 n : (1 <= n)%Z -> (2 <= Double.pow2 n)%Q.
Proof.
  intros H. rewrite (pow2_Z n) by lia.
  change 2%Q with (inject_Z 2). rewrite <- Zle_Qle.
  replace n with (1 + (n - 1))%Z by lia. rewrite Z.pow_add_r by lia.
  pose proof (Z.pow_pos_nonneg 2 (n - 1)). lia.
Qed.

Lemma pow2_le a b : (a <= b)%Z -> (Double.pow2 a <= Double.pow2 b)%Q.
Proof.
  intros H. replace b with (a + (b - a))%Z by lia. rewrite pow2_add.
  pose proof (pow2_pos a). pose proof (pow2_ge_1 (b - a) ltac:(lia)). nra.
Qed.

Lemma pow2_lt a b : (a < b)%Z -> (Double.pow2 a < Double.pow2 b)%Q.
Proof.
  intros H. replace b with (a + (b - a))%Z by lia. rewrite pow2_add.
  pose proof (pow2_pos a). pose proof (pow2_ge_2 (b - a) ltac:(lia)). nra.
Qed.

Lemma pow2_lt_inv a b : (Double.pow2 a < Double.pow2 b)%Q -> (a < b)%Z.
Proof.
  intros H. destruct (Z.lt_ge_cases a b) as [L|L]; [exact L|].
  apply pow2_le in L. lra.
Qed.

Lemma pow2_le_inv a b : (Double.pow2 a <= Double.pow2 b)%Q -> (a <= b)%Z.
Proof.
  intros H. destruct (Z.le_gt_cases a b) as [L|L]; [exact L|].
  apply pow2_lt in L. lra.
Qed.

End PowersOfTwo.

Section BinaryDigits.

Lemma digits2_size p : digits2_pos p = Pos.size p.
Proof. induction p; simpl; congruence. Qed.

Lemma digits_bounds p :
  (2 ^ (Zpos (digits2_pos p) - 1) <= Zpos p < 2 ^ Zpos (digits2_pos p))%Z.
Proof.
  rewrite digits2_size. split.
  - pose proof (Pos.size_le p) as H.
    apply Pos2Z.pos_le_pos in H. rewrite Pos2Z.inj_pow in H.
    replace (Zpos (Pos.size p)) with (1 + (Zpos (Pos.size p) - 1))%Z in H by lia.
    rewrite Z.pow_add_r in H by lia. change (2 ^ 1)%Z with 2%Z in H.
    rewrite (Pos2Z.inj_xO p) in H. lia.
  - pose proof (Pos.size_gt p) as H.
    apply Pos2Z.pos_lt_pos in H. now rewrite Pos2Z.inj_pow in H.
Qed.

Lemma digits_le a b :
  (Zpos a <= Zpos b)%Z -> (Zpos (digits2_pos a) <= Zpos (digits2_pos b))%Z.
Proof.
  intros H. pose proof (digits_bounds a) as [Ha _]. pose proof (digits_bounds b) as [_ Hb].
  assert (L : (2 ^ (Zpos (digits2_pos a) - 1) < 2 ^ Zpos (digits2_pos b))%Z) by lia.
  apply Z.pow_lt_mono_r_iff in L; lia.
Qed.

Lemma digits_unique p d :
  (2 ^ (d - 1) <= Zpos p < 2 ^ d)%Z -> (0 < d)%Z -> Zpos (digits2_pos p) = d.
Proof.
  intros [H1 H2] Hd. pose proof (digits_bounds p) as [H3 H4].
  assert (L1 : (2 ^ (d - 1) < 2 ^ Zpos (digits2_pos p))%Z) by lia.
  assert (L2 : (2 ^ (Zpos (digits2_pos p) - 1) < 2 ^ d)%Z) by lia.
  apply Z.pow_lt_mono_r_iff in L1; [|lia|lia].
  apply Z.pow_lt_mono_r_iff in L2; lia.
Qed.

End BinaryDigits.

Section Shifting.

Lemma shr_1_spec m r s :
  (0 <= m)%Z ->
  shr_1 (Build_shr_record m r s) = Build_shr_record (m / 2) (Z.odd m) (r || s).
Proof.
  intros H. rewrite <- Z.div2_div.
  destruct m as [|[p|p|]|]; try reflexivity. lia.
Qed.

Lemma below_le b mrs e : Double.below b mrs e -> (inject_Z (shr_m mrs) * Double.pow2 e <= b)%Q.
Proof. unfold Double.below. destruct (Double.exactb mrs); lra. Qed.

Lemma shr_1_below b mrs e :
  (0 <= shr_m mrs)%Z -> Double.below b mrs e ->
  (0 <= shr_m (shr_1 mrs))%Z /\ Double.below b (shr_1 mrs) (e + 1) /\
  shr_m (shr_1 mrs) = (shr_m mrs / 2)%Z.
Proof.
  destruct mrs as [m r s]. cbn [shr_m]. intros Hm Hb. rewrite shr_1_spec by exact Hm.
  cbn [shr_m]. split; [apply Z.div_pos; lia|]. split; [|reflexivity].
  unfold Double.below, Double.exactb in *. cbn [shr_m shr_r shr_s] in *.
  pose proof (Z.div_mod m 2 ltac:(lia)) as Hdm. rewrite Zmod_odd in Hdm.
  assert (Hq : (inject_Z m == 2 * inject_Z (m / 2) + (if Z.odd m then 1 else 0))%Q).
  { rewrite Hdm at 1. rewrite inject_Z_plus, inject_Z_mult.
    destruct (Z.odd m); reflexivity. }
  assert (Hp2 : (Double.pow2 (e + 1) == 2 * Double.pow2 e)%Q).
  { rewrite pow2_add. change (Double.pow2 1) with 2%Q. ring. }
  pose proof (pow2_pos e) as Hp.
  assert (Hx : (0 <= inject_Z (m / 2))%Q).
  { change 0%Q with (inject_Z 0). rewrite <- Zle_Qle. apply Z.div_pos; lia. }
  set (x := inject_Z (m / 2)) in *. set (y := inject_Z m) in *. set (P := Double.pow2 e) in *.
  set (P2 := Double.pow2 (e + 1)) in *.
  destruct (Z.odd m), r, s; cbn [orb negb] in *; nra.
Qed.

Lemma iter_pos_below b p : forall mrs e,
  (0 <= shr_m mrs)%Z -> Double.below b mrs e ->
  (0 <= shr_m (iter_pos shr_1 p mrs))%Z /\
  Double.below b (iter_pos shr_1 p mrs) (e + Zpos p) /\
  shr_m (iter_pos shr_1 p mrs) = (shr_m mrs / 2 ^ Zpos p)%Z.
Proof.
  induction p as [p IH|p IH|]; intros mrs e Hm Hb; cbn [iter_pos].
  - destruct (shr_1_below b mrs e Hm Hb) as (H1 & H2 & H3).
    destruct (IH _ _ H1 H2) as (H4 & H5 & H6).
    destruct (IH _ _ H4 H5) as (H7 & H8 & H9).
    split; [exact H7|]. split.
    + replace (e + Zpos p~1)%Z with (e + 1 + Zpos p + Zpos p)%Z by lia. exact H8.
    + rewrite H9, H6, H3. rewrite !Z.div_div by (try apply Z.pow_pos_nonneg; lia).
      f_equal. rewrite (Pos2Z.inj_xI p). rewrite Z.pow_add_r by lia.
      replace (2 * Zpos p)%Z with (Zpos p + Zpos p)%Z by lia.
      rewrite Z.pow_add_r by lia. change (2 ^ 1)%Z with 2%Z. lia.
  - destruct (IH _ _ Hm Hb) as (H4 & H5 & H6).
    destruct (IH _ _ H4 H5) as (H7 & H8 & H9).
    split; [exact H7|]. split.
    + replace (e + Zpos p~0)%Z with (e + Zpos p + Zpos p)%Z by lia. exact H8.
    + rewrite H9, H6. rewrite !Z.div_div by (try apply Z.pow_pos_nonneg; lia).
      f_equal. rewrite (Pos2Z.inj_xO p).
      replace (2 * Zpos p)%Z with (Zpos p + Zpos p)%Z by lia.
      now rewrite Z.pow_add_r by lia.
  - destruct (shr_1_below b mrs e Hm Hb) as (H1 & H2 & H3).
    split; [exact H1|]. split; [exact H2|]. exact H3.
Qed.

End Shifting.

Section RoundingToNearest.

Lemma fexp_eq e : SpecFloat.fexp 53 1024 e = Z.max (e - 53) (-1074).
Proof. reflexivity. Qed.

Lemma shr_m_of_loc m l : shr_m (shr_record_of_loc m l) = m.
Proof. destruct l as [|[]]; reflexivity. Qed.

Lemma exactb_of_loc m l :
  Double.exactb (shr_record_of_loc m l) = match l with loc_Exact => true | _ => false end.
Proof. destruct l as [|[]]; reflexivity. Qed.

Lemma shr_below b mrs e n :
  (0 <= shr_m mrs)%Z -> Double.below b mrs e ->
  (0 <= shr_m (fst (shr mrs e n)))%Z /\
  Double.below b (fst (shr mrs e n)) (snd (shr mrs e n)) /\
  snd (shr mrs e n) = (e + Z.max n 0)%Z /\
  shr_m (fst (shr mrs e n)) = (shr_m mrs / 2 ^ Z.max n 0)%Z.
Proof.
  intros Hm Hb. destruct n as [|p|p]; cbn [shr fst snd].
  - cbn [Z.max Z.compare]. rewrite Z.add_0_r, Z.div_1_r. auto.
  - destruct (iter_pos_below b p mrs e Hm Hb) as (H1 & H2 & H3).
    rewrite Z.max_l by lia. auto.
  - rewrite Z.max_r by lia. rewrite Z.add_0_r, Z.div_1_r. auto.
Qed.

Lemma round_nearest_even_cases mrs :
  (shr_m mrs <= round_nearest_even (shr_m mrs) (loc_of_shr_record mrs) <= shr_m mrs + 1)%Z /\
  (Double.exactb mrs = true ->
   round_nearest_even (shr_m mrs) (loc_of_shr_record mrs) = shr_m mrs).
Proof.
  destruct mrs as [m [] []]; cbn [shr_m loc_of_shr_record round_nearest_even Double.exactb shr_r shr_s];
    cbn [orb negb]; try destruct (Z.even m); split; try lia; try reflexivity; discriminate.
Qed.

Lemma pow2_div_ge_1 p k d :
  (2 ^ (d - 1) <= Zpos p)%Z -> (0 <= k <= d - 1)%Z -> (1 <= Zpos p / 2 ^ k)%Z.
Proof.
  intros Hp Hk. apply Z.div_le_lower_bound; [apply Z.pow_pos_nonneg; lia|].
  rewrite Z.mul_1_r. apply Z.le_trans with (2 ^ (d - 1))%Z; [|exact Hp].
  apply Z.pow_le_mono_r; lia.
Qed.

(** Rounding to nearest does not pass a number of the format: what is at
    most [b = Bm * 2^Be] is rounded to a positive finite number that is at
    most [b]. *)
Lemma binary_round_aux_below mx ex lx b Bm Be :
  (0 < mx)%Z ->
  Double.below b (shr_record_of_loc mx lx) ex ->
  (b == inject_Z Bm * Double.pow2 Be)%Q -> (0 < Bm < 2 ^ 53)%Z -> (-1074 <= Be <= 918)%Z ->
  (ex <= Be)%Z -> (-1073 <= Zdigits2 mx + ex)%Z ->
  exists m e,
    binary_round_aux 53 1024 false mx ex lx = S754_finite false m e /\
    (inject_Z (Zpos m) * Double.pow2 e <= b)%Q /\ (ex <= e)%Z.
Proof.
  intros Hmx Hb Hbe HBm HBe Hex Hd.
  destruct mx as [|px|]; try lia. cbn [Zdigits2] in Hd.
  pose proof (digits_bounds px) as [Hd1 Hd2].
  set (d := Zpos (digits2_pos px)) in *.
  pose proof (pow2_pos ex) as Pex. pose proof (pow2_pos Be) as PBe.
  assert (Hblt : (b < Double.pow2 (53 + Be))%Q).
  { rewrite Hbe, pow2_add, (pow2_Z 53) by lia.
    assert (inject_Z Bm < inject_Z (2 ^ 53))%Q by (rewrite <- Zlt_Qlt; lia).
    nra. }
  assert (Hlog : (d + ex <= 53 + Be)%Z).
  { pose proof (below_le _ _ _ Hb) as Hle. rewrite shr_m_of_loc in Hle.
    assert (H : (Double.pow2 (d - 1 + ex) < Double.pow2 (53 + Be))%Q).
    { rewrite (pow2_add (d - 1)), (pow2_Z (d - 1)) by lia.
      assert (inject_Z (2 ^ (d - 1)) <= inject_Z (Zpos px))%Q by (rewrite <- Zle_Qle; lia).
      nra. }
    apply pow2_lt_inv in H. lia. }
  unfold binary_round_aux, shr_fexp. cbn [Zdigits2]. fold d.
  set (k1 := (SpecFloat.fexp 53 1024 (d + ex) - ex)%Z).
  destruct (shr_below b (shr_record_of_loc (Zpos px) lx) ex k1) as (H1 & H2 & H3 & H4);
    [rewrite shr_m_of_loc; lia | exact Hb |].
  destruct (shr (shr_record_of_loc (Zpos px) lx) ex k1) as [mrs' e'].
  cbn [fst snd] in *. rewrite shr_m_of_loc in H4.
  assert (HK : (0 <= Z.max k1 0 <= d - 1)%Z) by (unfold k1; rewrite fexp_eq; lia).
  assert (Hm1 : (1 <= shr_m mrs')%Z) by (rewrite H4; now apply (pow2_div_ge_1 px _ d)).
  assert (He' : (e' <= Be)%Z) by (rewrite H3; unfold k1; rewrite fexp_eq; lia).
  pose proof (pow2_pos e') as Pe'.
  destruct (round_nearest_even_cases mrs') as [Hr1 Hr2].
  set (m2 := round_nearest_even (shr_m mrs') (loc_of_shr_record mrs')) in *.
  assert (Hup : (inject_Z m2 * Double.pow2 e' <= b)%Q).
  { assert (Hgrid : (b == inject_Z (Bm * 2 ^ (Be - e')) * Double.pow2 e')%Q).
    { rewrite Hbe, inject_Z_mult, <- pow2_Z by lia.
      replace Be with ((Be - e') + e')%Z at 1 by lia. rewrite pow2_add. ring. }
    unfold Double.below in H2. destruct (Double.exactb mrs') eqn:Eex.
    - now rewrite (Hr2 eq_refl).
    - assert (Hlt : (shr_m mrs' < Bm * 2 ^ (Be - e'))%Z).
      { rewrite Zlt_Qlt. set (x := inject_Z (shr_m mrs')) in *.
        set (y := inject_Z (Bm * 2 ^ (Be - e'))) in *. nra. }
      assert (Hle : (inject_Z m2 <= inject_Z (Bm * 2 ^ (Be - e')))%Q)
        by (rewrite <- Zle_Qle; lia).
      set (x := inject_Z m2) in *. set (y := inject_Z (Bm * 2 ^ (Be - e'))) in *. nra. }
  destruct m2 as [|pm|] eqn:Em2; try lia.
  cbn [Zdigits2].
  pose proof (digits_bounds pm) as [Hc1 Hc2].
  set (d2 := Zpos (digits2_pos pm)) in *.
  set (k2 := (SpecFloat.fexp 53 1024 (d2 + e') - e')%Z).
  destruct (shr_below (inject_Z (Zpos pm) * Double.pow2 e')
              (shr_record_of_loc (Zpos pm) loc_Exact) e' k2) as (G1 & G2 & G3 & G4);
    [cbn; lia | unfold Double.below; cbn; lra |].
  destruct (shr (shr_record_of_loc (Zpos pm) loc_Exact) e' k2) as [mrs2 e2].
  cbn [fst snd shr_record_of_loc shr_m] in *.
  assert (Hde : (-1073 <= d2 + e')%Z).
  { destruct (Z.le_gt_cases k1 0) as [L|L].
    - rewrite Z.max_r in H3, H4 by exact L. rewrite Z.add_0_r in H3.
      rewrite Z.div_1_r in H4.
      assert (Hdd : (d <= d2)%Z) by (apply digits_le; lia). lia.
    - unfold k1 in *. rewrite fexp_eq in *. lia. }
  assert (HK2 : (0 <= Z.max k2 0 <= d2 - 1)%Z) by (unfold k2; rewrite fexp_eq; lia).
  assert (Hm3 : (1 <= shr_m mrs2)%Z) by (rewrite G4; now apply (pow2_div_ge_1 pm _ d2)).
  destruct (shr_m mrs2) as [|pf|] eqn:Ef; try lia.
  pose proof (below_le _ _ _ G2) as Hfin. rewrite Ef in Hfin.
  pose proof (pow2_pos e2) as Pe2.
  assert (Hone : (1 <= inject_Z (Zpos pf))%Q)
    by (change 1%Q with (inject_Z 1); rewrite <- Zle_Qle; lia).
  assert (He2 : (e2 < 53 + Be)%Z).
  { apply pow2_lt_inv. set (x := inject_Z (Zpos pf)) in *. nra. }
  replace (e2 <=? 1024 - 53)%Z with true by (symmetry; apply Z.leb_le; lia).
  exists pf, e2. split; [reflexivity|]. split; [lra | lia].
Qed.

End RoundingToNearest.

Section Operations.

Import Analytics.

Lemma iter_xO_spec p k : Zpos (Pos.iter xO p k) = (Zpos p * 2 ^ Zpos k)%Z.
Proof.
  induction k as [|k IH] using Pos.peano_ind.
  - cbn [Pos.iter]. rewrite (Pos2Z.inj_xO p). change (2 ^ 1)%Z with 2%Z. lia.
  - rewrite Pos.iter_succ, (Pos2Z.inj_xO (Pos.iter xO p k)), IH, Pos2Z.inj_succ.
    rewrite Z.pow_succ_r by lia. ring.
Qed.

Lemma binary_round_aux_canonical m e :
  Zpos (digits2_pos m) = 53%Z -> (-1074 <= e <= 971)%Z ->
  binary_round_aux 53 1024 false (Zpos m) e loc_Exact = S754_finite false m e.
Proof.
  intros Hd He. unfold binary_round_aux, shr_fexp. cbn [Zdigits2]. rewrite Hd.
  replace (SpecFloat.fexp 53 1024 (53 + e) - e)%Z with 0%Z by (rewrite fexp_eq; lia).
  cbn [shr shr_record_of_loc round_nearest_even loc_of_shr_record shr_m Zdigits2].
  rewrite Hd.
  replace (SpecFloat.fexp 53 1024 (53 + e) - e)%Z with 0%Z by (rewrite fexp_eq; lia).
  cbn [shr shr_record_of_loc shr_m].
  replace (e <=? 1024 - 53)%Z with true by (symmetry; apply Z.leb_le; lia).
  reflexivity.
Qed.

(** An integer Double.below 2^53 is a number of the format. *)
Lemma of_nat_exact n :
  (0 < Z.of_nat n < 2 ^ 53)%Z ->
  exists m e,
    Double.of_nat n = S754_finite false m e /\
    Zpos (digits2_pos m) = 53%Z /\ (-52 <= e <= 0)%Z /\
    Zpos m = (Z.of_nat n * 2 ^ (- e))%Z.
Proof.
  intros H. unfold Double.of_nat, binary_normalize.
  destruct (Z.of_nat n) as [|p|] eqn:E; try lia.
  pose proof (digits_bounds p) as [Hd1 Hd2].
  unfold binary_round, shl_align, Double.prec, Double.emax.
  set (d := Zpos (digits2_pos p)) in *.
  assert (Hd : (1 <= d <= 53)%Z).
  { split; [unfold d; lia|].
    assert (L : (2 ^ (d - 1) < 2 ^ 53)%Z) by lia.
    apply Z.pow_lt_mono_r_iff in L; lia. }
  replace (SpecFloat.fexp 53 1024 (d + 0))%Z with (d - 53)%Z by (rewrite fexp_eq; lia).
  destruct (d - 53 - 0)%Z as [|k|k] eqn:Ek; try lia.
  - exists p, 0%Z. split; [apply binary_round_aux_canonical; [unfold d in *|]; lia|].
    split; [unfold d in *; lia|]. split; [lia|]. cbn. lia.
  - assert (Hk : Zpos k = (53 - d)%Z) by lia.
    assert (Hz : Zpos (Pos.iter xO p k) = (Zpos p * 2 ^ (53 - d))%Z)
      by (rewrite iter_xO_spec; now rewrite Hk).
    assert (Hdig : Zpos (digits2_pos (Pos.iter xO p k)) = 53%Z).
    { apply digits_unique; [|lia]. rewrite Hz. split.
      - replace (53 - 1)%Z with ((d - 1) + (53 - d))%Z by lia.
        rewrite Z.pow_add_r by lia. apply Z.mul_le_mono_nonneg_r; [|exact Hd1].
        apply Z.pow_nonneg. lia.
      - replace 53%Z with (d + (53 - d))%Z at 2 by lia.
        rewrite Z.pow_add_r by lia. apply Z.mul_lt_mono_pos_r; [|exact Hd2].
        apply Z.pow_pos_nonneg; lia. }
    exists (Pos.iter xO p k), (d - 53)%Z.
    split; [apply binary_round_aux_canonical; [exact Hdig | lia]|].
    split; [exact Hdig|]. split; [lia|].
    rewrite Hz. do 2 f_equal. lia.
Qed.

Lemma exact_new_location m r :
  match new_location m r with loc_Exact => true | _ => false end = (r =? 0)%Z.
Proof.
  unfold new_location, new_location_even, new_location_odd.
  destruct (Z.even m), (r =? 0)%Z; reflexivity.
Qed.

(** The quotient of two such numbers, the first at most the second, is at
    most 1. *)
Lemma SFdiv_below m1 e1 m2 e2 :
  Zpos (digits2_pos m1) = 53%Z -> Zpos (digits2_pos m2) = 53%Z ->
  (-52 <= e1 <= 0)%Z -> (-52 <= e2 <= 0)%Z ->
  (inject_Z (Zpos m1) * Double.pow2 e1 <= inject_Z (Zpos m2) * Double.pow2 e2)%Q ->
  exists m e,
    SFdiv 53 1024 (S754_finite false m1 e1) (S754_finite false m2 e2)
    = S754_finite false m e /\
    (inject_Z (Zpos m) * Double.pow2 e <= 1)%Q /\ (-105 <= e)%Z.
Proof.
  intros D1 D2 E1 E2 Hle.
  pose proof (digits_bounds m1) as [B1 B1']. pose proof (digits_bounds m2) as [B2 B2'].
  rewrite D1 in B1, B1'. rewrite D2 in B2, B2'.
  unfold SFdiv, SFdiv_core_binary. cbn [Zdigits2 xorb]. rewrite D1, D2.
  replace (Z.min (SpecFloat.fexp 53 1024 (53 + e1 - (53 + e2))) (e1 - e2))%Z
    with (e1 - e2 - 53)%Z by (rewrite fexp_eq; lia).
  replace (e1 - e2 - (e1 - e2 - 53))%Z with 53%Z by lia.
  cbn beta iota. rewrite Z.shiftl_mul_pow2 by lia.
  pose proof (Z_div_mod (Zpos m1 * 2 ^ 53) (Zpos m2) ltac:(lia)) as Hdm.
  destruct (Z.div_eucl (Zpos m1 * 2 ^ 53) (Zpos m2)) as [q r].
  destruct Hdm as [Heq Hr].
  assert (Hq : (0 < q)%Z) by nia.
  destruct (binary_round_aux_below q (e1 - e2 - 53) (new_location (Zpos m2) r) 1 1 0)
    as (m & e & Hres & Hval & Hexp); try lia.
  - unfold Double.below. rewrite exactb_of_loc, shr_m_of_loc, exact_new_location.
    pose proof (pow2_pos e1) as P1. pose proof (pow2_pos e2) as P2.
    pose proof (pow2_pos (e1 - e2 - 53)) as PW.
    assert (HA : (Double.pow2 e1 == Double.pow2 (e1 - e2 - 53) * Double.pow2 e2 * inject_Z (2 ^ 53))%Q).
    { rewrite <- (pow2_Z 53), <- !pow2_add by lia. apply Qpower_comp; [reflexivity | lia]. }
    assert (HE : (inject_Z (Zpos m1) * inject_Z (2 ^ 53)
                  == inject_Z (Zpos m2) * inject_Z q + inject_Z r)%Q).
    { rewrite <- !inject_Z_mult, <- inject_Z_plus. now rewrite Heq. }
    assert (HM2 : (0 < inject_Z (Zpos m2))%Q)
      by (change 0%Q with (inject_Z 0); rewrite <- Zlt_Qlt; lia).
    assert (HR : (0 <= inject_Z r)%Q)
      by (change 0%Q with (inject_Z 0); rewrite <- Zle_Qle; lia).
    set (W := Double.pow2 (e1 - e2 - 53)) in *. set (A := Double.pow2 e1) in *. set (B := Double.pow2 e2) in *.
    set (T := inject_Z (2 ^ 53)) in *. set (M1 := inject_Z (Zpos m1)) in *.
    set (M2 := inject_Z (Zpos m2)) in *. set (X := inject_Z q) in *.
    set (R := inject_Z r) in *.
    assert (Hkey : (X * W * (M2 * B) == M1 * A - R * (W * B))%Q).
    { rewrite HA. transitivity ((M2 * X + R) * (W * B) - R * (W * B))%Q; [ring|].
      rewrite <- HE. ring. }
    assert (HY : (0 < M2 * B)%Q) by nra.
    assert (HWB : (0 < W * B)%Q) by nra.
    destruct (r =? 0)%Z eqn:Er.
    + apply Z.eqb_eq in Er.
      apply Qmult_lt_0_le_reg_r with (z := (M2 * B)%Q); [exact HY|].
      rewrite Hkey. nra.
    + apply Z.eqb_neq in Er.
      assert (HR' : (0 < R)%Q)
        by (unfold R; change 0%Q with (inject_Z 0); rewrite <- Zlt_Qlt; lia).
      apply Qmult_lt_r with (z := (M2 * B)%Q); [exact HY|].
      rewrite Hkey. nra.
  - reflexivity.
  - cbn [Zdigits2]. destruct q as [|pq|]; try lia. cbn [Zdigits2]. lia.
  - exists m, e. split; [exact Hres|]. split; [exact Hval | lia].
Qed.

Lemma SFmul_hundred_below m e :
  (inject_Z (Zpos m) * Double.pow2 e <= 1)%Q -> (-105 <= e)%Z ->
  exists m' e',
    SFmul 53 1024 (S754_finite false m e) (Double.of_nat 100) = S754_finite false m' e' /\
    (inject_Z (Zpos m') * Double.pow2 e' <= inject_Z 100)%Q.
Proof.
  intros Hle He.
  change (Double.of_nat 100) with (S754_finite false 7036874417766400 (-46)).
  unfold SFmul. cbn [xorb].
  pose proof (pow2_pos e) as Pe.
  assert (Hone : (1 <= inject_Z (Zpos m))%Q)
    by (change 1%Q with (inject_Z 1); rewrite <- Zle_Qle; lia).
  assert (He0 : (e <= 0)%Z).
  { apply pow2_le_inv. change (Double.pow2 0) with 1%Q. nra. }
  destruct (binary_round_aux_below (Zpos (m * 7036874417766400)) (e + -46) loc_Exact
              (inject_Z 100) 100 0) as (m' & e' & Hres & Hval & _); try lia.
  - unfold Double.below. cbn [shr_record_of_loc Double.exactb shr_r shr_s shr_m orb negb].
    rewrite Pos2Z.inj_mul, inject_Z_mult, pow2_add.
    assert (H100 : (inject_Z (Zpos 7036874417766400) * Double.pow2 (-46) == inject_Z 100)%Q)
      by reflexivity.
    set (x := inject_Z (Zpos m)) in *. set (P := Double.pow2 e) in *.
    set (h := inject_Z (Zpos 7036874417766400)) in *. set (P46 := Double.pow2 (-46)) in *.
    assert (Hh : (0 < h * P46)%Q) by (rewrite H100; reflexivity).
    assert (Eq : (x * h * (P * P46) == (x * P) * (h * P46))%Q) by ring.
    rewrite Eq, <- H100. nra.
  - change (Double.pow2 0) with 1%Q. ring.
  - cbn [Zdigits2]. lia.
  - exists m', e'. split; [exact Hres | exact Hval].
Qed.

(** A share of a total Double.below 2^53 is a positive number that is at most
    100. *)
Lemma percentage_bounds c n :
  1 <= c <= n -> (Z.of_nat n < 2 ^ 53)%Z ->
  exists q,
    Double.value (percentage (Double.of_nat c) n) = Some q /\
    (0 < q)%Q /\ (q <= inject_Z 100)%Q.
Proof.
  intros Hc Hn.
  destruct (of_nat_exact c) as (m1 & e1 & Ec & D1 & E1 & V1); [lia|].
  destruct (of_nat_exact n) as (m2 & e2 & En & D2 & E2 & V2); [lia|].
  unfold percentage, Double.div, Double.mul, Double.prec, Double.emax.
  rewrite Ec, En.
  assert (Hval : forall k m e, (e <= 0)%Z -> Zpos m = (Z.of_nat k * 2 ^ (- e))%Z ->
                   (inject_Z (Zpos m) * Double.pow2 e == inject_Z (Z.of_nat k))%Q).
  { intros k m e He Hm. rewrite Hm, inject_Z_mult, <- pow2_Z by lia.
    rewrite <- Qmult_assoc, <- pow2_add.
    replace (- e + e)%Z with 0%Z by lia. change (Double.pow2 0) with 1%Q. ring. }
  destruct (SFdiv_below m1 e1 m2 e2 D1 D2 E1 E2) as (m & e & Hd & Hv & He).
  { rewrite (Hval c), (Hval n) by (lia || assumption). rewrite <- Zle_Qle. lia. }
  rewrite Hd.
  destruct (SFmul_hundred_below m e Hv He) as (m' & e' & Hm & Hv').
  rewrite Hm. cbn [Double.value]. eexists. split; [reflexivity|].
  split; [|exact Hv'].
  pose proof (pow2_pos e').
  assert (0 < inject_Z (Zpos m'))%Q by (change 0%Q with (inject_Z 0); rewrite <- Zlt_Qlt; lia).
  nra.
Qed.

End Operations.

(** ** The shape of a ranking *)

Section RankingShape.

Import JS Analytics Ranking Tally Shown.

Variables (n : nat) (texts : list string).

Let entries : list Pain.AggregatedPainPoint :=
  map (pain_entry n texts) (enumeration_order (first_occurrences texts)).

Let sorted : list Pain.AggregatedPainPoint :=
  ArraySort.sort by_responses_desc_pain entries.

Lemma ranking_sorted : ranking n texts = firstn 5 sorted.
Proof. reflexivity. Qed.

Lemma sorted_points_perm : Permutation (first_occurrences texts) (map Pain.point sorted).
Proof.
  unfold sorted. rewrite <- (sort_perm by_responses_desc_pain entries).
  unfold entries. rewrite map_map. cbn [pain_entry Pain.point]. rewrite map_id.
  apply enumeration_order_perm.
Qed.

Lemma sorted_In a : In a sorted -> a = pain_entry n texts (Pain.point a) /\ In (Pain.point a) texts.
Proof.
  intros Ha. unfold sorted in Ha.
  apply (Permutation_in _ (Permutation_sym (sort_perm by_responses_desc_pain entries))) in Ha.
  unfold entries in Ha. apply in_map_iff in Ha. destruct Ha as [t [<- Ht]].
  split; [reflexivity|]. cbn [pain_entry Pain.point].
  apply first_occurrences_In.
  eapply Permutation_in; [symmetry; apply enumeration_order_perm | exact Ht].
Qed.

Lemma sorted_desc : Sorted (fun a b => Pain.responses b <= Pain.responses a) sorted.
Proof. apply (sort_sorted Pain.responses). reflexivity. Qed.

Lemma pain_rows_fst l : map fst (pain_rows l) = map Pain.point l.
Proof. unfold pain_rows. rewrite map_map. reflexivity. Qed.

Lemma pain_rows_In t c l :
  In (t, c) (pain_rows l) <-> exists a, In a l /\ Pain.point a = t /\ Pain.responses a = c.
Proof.
  unfold pain_rows. rewrite in_map_iff. split.
  - intros [a [E Ha]]. injection E as <- <-. now exists a.
  - intros [a [Ha [<- <-]]]. now exists a.
Qed.

Lemma ranking_top_five : top_five texts (pain_rows (ranking n texts)).
Proof.
  rewrite ranking_sorted.
  assert (Hnd : NoDup (map Pain.point sorted)).
  { eapply Permutation_NoDup; [apply sorted_points_perm | apply first_occurrences_NoDup]. }
  assert (Hsplit : sorted = firstn 5 sorted ++ skipn 5 sorted)
    by (symmetry; apply firstn_skipn).
  assert (Hsub : forall a, In a (firstn 5 sorted) -> In a sorted).
  { intros a Ha. rewrite Hsplit. apply in_or_app. now left. }
  unfold top_five. split; [|split; [|split; [|split; [|split]]]].
  - unfold pain_rows. rewrite length_map. apply firstn_le_length.
  - rewrite pain_rows_fst. rewrite Hsplit, map_app in Hnd.
    now apply NoDup_app_remove_r in Hnd.
  - intros t c Hin. apply pain_rows_In in Hin. destruct Hin as [a [Ha [<- <-]]].
    apply Hsub, sorted_In in Ha. destruct Ha as [Ea Hin].
    assert (Hr : Pain.responses a = occurrences texts (Pain.point a))
      by (rewrite Ea at 1; reflexivity).
    split; [exact Hin|]. split; [exact Hr|]. rewrite Hr. unfold occurrences.
    apply (count_occ_In string_dec) in Hin. lia.
  - unfold pain_rows. apply Sorted_map. cbn [snd].
    apply Sorted_prefix with (l2 := skipn 5 sorted). rewrite <- Hsplit. apply sorted_desc.
  - intros t c u Hin Hu Hout. apply pain_rows_In in Hin. destruct Hin as [a [Ha [<- <-]]].
    rewrite pain_rows_fst in Hout.
    assert (Hu' : In u (map Pain.point sorted)).
    { eapply Permutation_in; [apply sorted_points_perm | now apply first_occurrences_In]. }
    rewrite Hsplit, map_app in Hu'. apply in_app_or in Hu'.
    destruct Hu' as [Hu'|Hu']; [contradiction|].
    apply in_map_iff in Hu'. destruct Hu' as [b [<- Hb]].
    assert (Hb' : In b sorted) by (rewrite Hsplit; apply in_or_app; now right).
    apply sorted_In in Hb'. destruct Hb' as [Eb _].
    assert (Hss : StronglySorted (fun a b => Pain.responses b <= Pain.responses a) sorted).
    { apply Sorted_StronglySorted; [|apply sorted_desc]. intros x y z Hxy Hyz. lia. }
    rewrite Hsplit in Hss.
    pose proof (StronglySorted_across _ _ _ Hss a b Ha Hb) as Hle.
    rewrite Eb in Hle at 1. exact Hle.
  - intros Hfew u Hu. rewrite pain_rows_fst.
    rewrite firstn_all2.
    + eapply Permutation_in; [apply sorted_points_perm | now apply first_occurrences_In].
    + rewrite <- (length_map Pain.point).
      rewrite <- (Permutation_length sorted_points_perm). exact Hfew.
Qed.

Lemma ranking_In a :
  In a (ranking n texts) ->
  a = pain_entry n texts (Pain.point a) /\ In (Pain.point a) texts.
Proof.
  rewrite ranking_sorted. intros Ha. apply sorted_In.
  rewrite <- (firstn_skipn 5 sorted). apply in_or_app. now left.
Qed.

Lemma ranking_nonempty : texts <> [] -> ranking n texts <> [].
Proof.
  intros Hne. rewrite ranking_sorted.
  pose proof (Permutation_length sorted_points_perm) as Hlen.
  rewrite length_map in Hlen.
  destruct texts as [|t rest] eqn:E; [contradiction|].
  destruct sorted as [|a l]; [discriminate|]. discriminate.
Qed.

Lemma ranking_total :
  total_responses (ranking n texts) <= length texts /\
  (length (first_occurrences texts) <= 5 ->
   total_responses (ranking n texts) = length texts).
Proof.
  assert (Hall : list_sum (map Pain.responses sorted) = length texts).
  { unfold sorted.
    rewrite <- (Permutation_map Pain.responses (sort_perm by_responses_desc_pain entries)).
    unfold entries. rewrite map_map. cbn [pain_entry Pain.responses].
    rewrite <- (Permutation_map (occurrences texts)
                  (enumeration_order_perm (first_occurrences texts))).
    apply sum_occurrences; [apply first_occurrences_NoDup|].
    intros t Ht. now apply first_occurrences_In. }
  rewrite ranking_sorted. unfold total_responses. split.
  - rewrite <- Hall, <- firstn_map. apply list_sum_firstn.
  - intros Hfew. rewrite firstn_all2; [exact Hall|].
    rewrite <- (length_map Pain.point).
    rewrite <- (Permutation_length sorted_points_perm). exact Hfew.
Qed.

(** The first entry of a ranking is a most frequent text. *)
Lemma ranking_head a l :
  ranking n texts = a :: l ->
  In (Pain.point a) texts /\
  forall u, occurrences texts u <= occurrences texts (Pain.point a).
Proof.
  intros E. pose proof ranking_top_five as H. rewrite E in H.
  destruct H as (_ & _ & Hin & Hs & Hout & _).
  cbn [pain_rows map] in *.
  destruct (Hin (Pain.point a) (Pain.responses a) (or_introl eq_refl)) as [Ha [Hc _]].
  split; [exact Ha|]. intros u. rewrite <- Hc.
  destruct (in_dec string_dec u texts) as [Hu|Hu];
    [|apply (count_occ_not_In string_dec) in Hu; unfold occurrences; lia].
  destruct (in_dec string_dec u
              (map fst ((Pain.point a, Pain.responses a)
                        :: map (fun a => (Pain.point a, Pain.responses a)) l)))
    as [Hu'|Hu'].
  - apply in_map_iff in Hu'. destruct Hu' as [[u' c] [Eu Hu']]. cbn [fst] in Eu. subst u'.
    destruct (Hin u c Hu') as [_ [-> _]].
    destruct Hu' as [Eq|Hu']; [injection Eq as _ <-; lia|].
    apply Sorted_StronglySorted in Hs; [|intros x y z Hxy Hyz; lia].
    apply StronglySorted_inv in Hs. destruct Hs as [_ Hall].
    rewrite Forall_forall in Hall. apply (Hall _ Hu').
  - now apply (Hout (Pain.point a) (Pain.responses a) u (or_introl eq_refl)).
Qed.

End RankingShape.

(** ** What the page shows *)

Section DisplayProperties.

Import JS Analytics Ranking Tally Shown.

Lemma texts_of_length f insights : length (texts_of f insights) <= length insights.
Proof.
  unfold texts_of. induction insights as [|i insights IH]; [simpl; lia|].
  cbn [flat_map length]. rewrite length_app.
  assert (H : length (counted (f i)) <= 1).
  { unfold counted. destruct (f i) as [s|]; [destruct (truthy s)|]; simpl; lia. }
  lia.
Qed.

Lemma hd_error_firstn {A} n (l : list A) : hd_error (firstn (S n) l) = hd_error l.
Proof. destruct l; reflexivity. Qed.

Lemma shown_summary engine st insights :
  insights <> [] ->
  executiveSummary (shown engine st insights)
  = mkExecutiveSummary (firstn 5 (learnedPoints insights)) (firstn 5 (buildPoints insights)).
Proof.
  intros Hne. destruct (aborts insights) eqn:Ha.
  - now rewrite shown_throws.
  - now rewrite shown_returns.
Qed.

(** The executive summary lists, in each of its two columns, the first five
    non-empty texts of that column in record order; a text given by several
    records is listed as often, and nothing empty is listed.  This holds
    also when the aggregation throws later on. *)
Theorem executive_summary_lists_first_texts :
  forall (engine : Engine) (st : Display) (insights : list InsightRecord),
    insights <> [] ->
    let summary := executiveSummary (shown engine st insights) in
    learned summary = firstn 5 (texts_of whatWeLearned_of insights) /\
    build summary = firstn 5 (texts_of whatToBuildNext_of insights) /\
    Forall (fun t => truthy t = true) (learned summary ++ build summary) /\
    length (learned summary) <= 5 /\
    length (build summary) <= 5.
Proof.
  intros engine st insights Hne. rewrite shown_summary by exact Hne.
  cbn [learned build].
  rewrite learnedPoints_texts, buildPoints_texts.
  split; [reflexivity|]. split; [reflexivity|].
  split; [|split; apply firstn_le_length].
  apply Forall_app. split; apply Forall_forall; intros t Ht.
  - pose proof (texts_of_truthy whatWeLearned_of insights) as H.
    rewrite Forall_forall in H. apply H.
    rewrite <- (firstn_skipn 5 (texts_of _ _)). apply in_or_app. left. exact Ht.
  - pose proof (texts_of_truthy whatToBuildNext_of insights) as H.
    rewrite Forall_forall in H. apply H.
    rewrite <- (firstn_skipn 5 (texts_of _ _)). apply in_or_app. left. exact Ht.
Qed.

Lemma executive_summary_lists_first_texts_witness :
  learned (executiveSummary (shown SampleRecords.as_given initial [full_record; full_record]))
  = ["Checkout is slow"; "Checkout is slow"] /\
  learned (executiveSummary
             (shown SampleRecords.as_given initial
                (full_record :: SampleRecords.severe_constructor_pain)))
  = ["Checkout is slow"].
Proof.
  split.
  - destruct (executive_summary_lists_first_texts SampleRecords.as_given initial
                [full_record; full_record]) as [H _]; [discriminate|].
    rewrite H. reflexivity.
  - destruct (executive_summary_lists_first_texts SampleRecords.as_given initial
                (full_record :: SampleRecords.severe_constructor_pain)) as [H _];
      [discriminate|].
    rewrite H. reflexivity.
Defined.

(** When the aggregation returns, the key-learning counter of the overview
    is the first listed learning, cut to fifty characters and marked with
    three dots when it was longer; without any learning it is the text
    "undefined".  It is never empty and never longer than 53 characters.
    When the aggregation throws, the overview is left as it was. *)
Theorem key_learning_counter :
  forall (engine : Engine) (st : Display) (insights : list InsightRecord),
    insights <> [] ->
    let d := shown engine st insights in
    (aborts insights = false ->
     keyInsightText (overviewStats d)
     = match learned (executiveSummary d) with
       | [] => "undefined"
       | s :: _ => abbreviated 50 s
       end /\
     String.length (keyInsightText (overviewStats d)) <= 53 /\
     truthy (keyInsightText (overviewStats d)) = true) /\
    (aborts insights = true -> overviewStats d = overviewStats st).
Proof.
  intros engine st insights Hne d. subst d. split; intros Ha.
  - rewrite shown_returns by assumption.
    cbn [executiveSummary overviewStats keyInsightText learned].
    rewrite learnedPoints_texts.
    pose proof (texts_of_truthy whatWeLearned_of insights) as Ht.
    destruct (texts_of whatWeLearned_of insights) as [|s l].
    + repeat split. cbn. lia.
    + cbn [firstn]. unfold key_insight_text. cbn [hd_error].
      rewrite cut_abbreviated. inversion Ht as [|? ? Hs _]; subst.
      assert (Htr : truthy (abbreviated 50 s) = true)
        by (apply abbreviated_truthy; [exact Hs | lia]).
      unfold or_else. rewrite Htr.
      split; [reflexivity|]. split; [apply (abbreviated_length 50) | exact Htr].
  - now rewrite shown_throws.
Qed.

Lemma key_learning_counter_witness :
  keyInsightText (overviewStats (shown SampleRecords.as_given initial [full_record]))
  = "Checkout is slow".
Proof.
  destruct (key_learning_counter SampleRecords.as_given initial [full_record]) as [H _];
    [discriminate|].
  destruct (H eq_refl) as [H' _]. rewrite H'. reflexivity.
Defined.

(** When the aggregation returns, the top pain point of the overview is a
    most frequent pain-point text among those that name no inherited member:
    no such text occurs more often among the records.  It is "N/A" when the
    records hold no such text, and otherwise the first entry of the
    displayed ranking.  When the aggregation throws, overview and ranking
    are left as they were. *)
Theorem top_pain_point_is_most_frequent :
  forall (engine : Engine) (st : Display) (insights : list InsightRecord),
    insights <> [] ->
    let d := shown engine st insights in
    let texts := own_texts (pain_texts insights) in
    (aborts insights = false ->
     (texts = [] -> topPainPointText (overviewStats d) = "N/A") /\
     (texts <> [] ->
      In (topPainPointText (overviewStats d)) texts /\
      (forall u, occurrences texts u
                 <= occurrences texts (topPainPointText (overviewStats d))) /\
      option_map Pain.point (hd_error (topPainPoints d))
      = Some (topPainPointText (overviewStats d)))) /\
    (aborts insights = true ->
     overviewStats d = overviewStats st /\ topPainPoints d = topPainPoints st).
Proof.
  intros engine st insights Hne d texts. subst d. split; intros Ha.
  - rewrite shown_returns by assumption.
    cbn [overviewStats topPainPointText topPainPoints]. fold texts. split.
    + intros E. rewrite E. reflexivity.
    + intros Hn.
      destruct (ranking (length insights) texts) as [|a l] eqn:Er;
        [exfalso; now apply (ranking_nonempty (length insights) texts Hn)|].
      destruct (ranking_head _ _ _ _ Er) as [Hin Hmax].
      unfold top_pain_point_text. cbn [hd_error option_map or_else].
      assert (Htr : truthy (Pain.point a) = true).
      { apply own_texts_In in Hin. destruct Hin as [Hin _].
        now apply (pain_texts_truthy insights). }
      rewrite Htr. auto.
  - rewrite shown_throws by assumption. split; reflexivity.
Qed.

Lemma top_pain_point_is_most_frequent_witness :
  topPainPointText (overviewStats (shown SampleRecords.as_given initial SampleRecords.aabab))
  = "A"
  /\ occurrences (own_texts (pain_texts SampleRecords.aabab)) "B"
     <= occurrences (own_texts (pain_texts SampleRecords.aabab)) "A".
Proof.
  destruct (top_pain_point_is_most_frequent SampleRecords.as_given initial
              SampleRecords.aabab) as [H _]; [discriminate|].
  destruct (H eq_refl) as [_ H']. destruct H' as [_ [H' _]]; [discriminate|].
  split; [reflexivity | exact (H' "B")].
Defined.

Lemma map_fst_entries {V} (o : Obj.t V) :
  map fst (Obj.entries o) = enumeration_order (keys o).
Proof.
  unfold enumeration_order, keys. rewrite map_map.
  rewrite (entries_map (fun e : string * V => (fst e, tt))) by reflexivity.
  rewrite map_map. reflexivity.
Qed.

Lemma sort_or_perm {A} (engine : ArraySort.Engine A) compareFn (l : list A) :
  Permutation l (ArraySort.sort_or engine compareFn l).
Proof.
  unfold ArraySort.sort_or. destruct (ArraySort.never_NaN compareFn l).
  - apply sort_perm.
  - symmetry. apply ArraySort.order_permutation.
Qed.

(** The texts of the feature ranking are distinct idea texts, whatever the
    ideas are called. *)
Lemma aggregatedFeatures_texts engine insights :
  NoDup (map Feature.feature (aggregatedFeatures engine insights)) /\
  (forall t, In t (map Feature.feature (aggregatedFeatures engine insights)) ->
             In t (idea_texts insights)).
Proof.
  unfold aggregatedFeatures, slice0.
  set (entries := map _ (Obj.entries (featureCounts insights))).
  set (sorted := ArraySort.sort_or engine by_responses_desc_feature entries).
  assert (Hkeys : map Feature.feature entries = enumeration_order (keys (featureCounts insights))).
  { unfold entries. rewrite map_map, <- map_fst_entries.
    apply map_ext. intros [k v]. reflexivity. }
  assert (Hperm : Permutation (keys (featureCounts insights)) (map Feature.feature sorted)).
  { unfold sorted. rewrite <- (sort_or_perm engine by_responses_desc_feature entries).
    rewrite Hkeys. apply enumeration_order_perm. }
  destruct (keys_featureCounts insights) as [Hnd Hin].
  assert (Hnd' : NoDup (map Feature.feature sorted))
    by (eapply Permutation_NoDup; eassumption).
  rewrite <- (firstn_skipn 5 sorted), map_app in Hnd'.
  split; [now apply NoDup_app_remove_r in Hnd'|].
  intros t Ht. apply Hin. eapply Permutation_in; [symmetry; exact Hperm|].
  rewrite <- (firstn_skipn 5 sorted), map_app. apply in_or_app. now left.
Qed.

(** When the pain-point loop does not throw, the pain-point ranking shows at
    most five distinct texts, those that name no inherited member, with their
    numbers of occurrences in descending order; a text that is left out
    never occurs more often than one that is shown, and with at most five
    distinct texts nothing is left out.  So does the feature ranking when no
    idea names an inherited member; in any case it shows at most five
    distinct idea texts. *)
Theorem rankings_show_the_most_frequent :
  forall (engine : Engine) (insights : list InsightRecord),
    (aborts insights = false ->
     exists l,
       aggregatedPains insights = inr l /\
       top_five (own_texts (pain_texts insights)) (pain_rows l)) /\
    (Forall (fun t => Obj.inherited t = false) (idea_texts insights) ->
     exists rows,
       feature_rows (aggregatedFeatures engine insights) = numbered rows /\
       top_five (idea_texts insights) rows) /\
    length (aggregatedFeatures engine insights) <= 5 /\
    NoDup (map Feature.feature (aggregatedFeatures engine insights)) /\
    (forall t, In t (map Feature.feature (aggregatedFeatures engine insights)) ->
               In t (idea_texts insights)).
Proof.
  intros engine insights. split; [|split; [|split]].
  - intros Ha. eexists. split; [now apply aggregatedPains_ranking|].
    apply ranking_top_five.
  - intros H. exists (pain_rows (ranking (length insights) (idea_texts insights))).
    split; [|apply ranking_top_five].
    rewrite aggregatedFeatures_ranking by exact H.
    unfold feature_rows, numbered, pain_rows. now rewrite !map_map.
  - unfold aggregatedFeatures, slice0. apply firstn_le_length.
  - apply aggregatedFeatures_texts.
Qed.

Lemma rankings_show_the_most_frequent_witness :
  exists l,
    aggregatedPains SampleRecords.aabab = inr l /\
    top_five (own_texts (pain_texts SampleRecords.aabab)) (pain_rows l).
Proof.
  destruct (rankings_show_the_most_frequent SampleRecords.as_given SampleRecords.aabab)
    as [H _].
  exact (H eq_refl).
Defined.

(** When the pain-point loop does not throw, the numbers of responses shown
    in the pain-point ranking add up to at most the number of pain points
    whose text is not empty and names no inherited member, and to exactly
    that number when there are at most five distinct such texts: every such
    pain point is counted once. *)
Theorem ranking_counts_add_up :
  forall insights : list InsightRecord,
    aborts insights = false ->
    exists l,
      aggregatedPains insights = inr l /\
      total_responses l <= length (own_texts (pain_texts insights)) /\
      (length (first_occurrences (own_texts (pain_texts insights))) <= 5 ->
       total_responses l = length (own_texts (pain_texts insights))).
Proof.
  intros insights Ha. eexists. split; [now apply aggregatedPains_ranking|].
  apply ranking_total.
Qed.

Lemma ranking_counts_add_up_witness :
  aborts SampleRecords.aabab = false /\
  exists l, aggregatedPains SampleRecords.aabab = inr l /\ total_responses l = 5.
Proof.
  split; [reflexivity|].
  destruct (ranking_counts_add_up SampleRecords.aabab eq_refl) as (l & E & _ & H).
  exists l. split; [exact E|]. rewrite H; [reflexivity | cbn; lia].
Defined.

Lemma occurrences_le_records insights t :
  Forall (fun i => NoDup (mentions i)) insights ->
  occurrences (pain_texts insights) t <= length insights.
Proof.
  unfold occurrences. induction 1 as [|i insights Hi _ IH]; [simpl; lia|].
  change (pain_texts (i :: insights)) with (mentions i ++ pain_texts insights).
  rewrite count_occ_app. cbn [length].
  pose proof (proj1 (NoDup_count_occ string_dec (mentions i)) Hi t). lia.
Qed.

(** When no record names the same pain point twice, every frequency shown
    in the pain-point ranking lies above 0 and at most at 100: the exact
    ratio does, and so does the number computed for it in floating point (a
    list held by an array has fewer than 2^32 < 2^53 records).  A record
    that names a pain point twice brings it to 200. *)
Theorem frequency_is_a_percentage :
  forall insights : list InsightRecord,
    Forall (fun i => NoDup (mentions i)) insights ->
    (forall l, aggregatedPains insights = inr l ->
       Forall (fun a =>
                 (0 < exact_percentage (Pain.responses a) (length insights))%Q /\
                 (exact_percentage (Pain.responses a) (length insights) <= inject_Z 100)%Q /\
                 ((Z.of_nat (length insights) < 2 ^ 53)%Z ->
                  exists q,
                    Double.value (Pain.frequency a) = Some q /\
                    (0 < q)%Q /\ (q <= inject_Z 100)%Q))
         l) /\
    ~ NoDup (flat_map mentions twice) /\
    aggregatedPains twice = inr [Pain.mk "slow" (Double.of_nat 200) 2].
Proof.
  intros insights Hnd. split; [|split].
  - intros l El.
    assert (Ha : aborts insights = false).
    { destruct (aborts insights) eqn:Ha; [|reflexivity].
      rewrite (aggregatedPains_aborts _ Ha) in El. discriminate. }
    rewrite (aggregatedPains_ranking _ Ha) in El. injection El as <-.
    apply Forall_forall. intros a Hin.
    apply ranking_In in Hin. destruct Hin as [Ea Hin].
    apply own_texts_In in Hin. destruct Hin as [Hin Hown].
    assert (Hr : Pain.responses a = occurrences (pain_texts insights) (Pain.point a)).
    { rewrite Ea at 1. cbn [pain_entry Pain.responses]. now apply occurrences_own. }
    assert (Hpos : 0 < length insights).
    { destruct insights; [contradiction | simpl; lia]. }
    assert (Hc1 : 1 <= Pain.responses a).
    { rewrite Hr. apply (count_occ_In string_dec) in Hin. unfold occurrences. lia. }
    assert (Hc2 : Pain.responses a <= length insights)
      by (rewrite Hr; now apply occurrences_le_records).
    split; [apply exact_percentage_pos; lia|].
    split; [apply exact_percentage_le_100; lia|].
    intros Hsize.
    assert (Hf : Pain.frequency a
                 = percentage (Double.of_nat (Pain.responses a)) (length insights)).
    { rewrite Ea at 1. cbn [pain_entry Pain.frequency]. f_equal. f_equal.
      rewrite Ea. reflexivity. }
    rewrite Hf. apply percentage_bounds; [lia | exact Hsize].
  - intros H. inversion H as [|? ? Hni _]; subst. apply Hni. now left.
  - reflexivity.
Qed.

Lemma frequency_is_a_percentage_witness :
  Forall (fun i => NoDup (mentions i)) SampleRecords.aabab /\
  exists q,
    Double.value (percentage (Double.of_nat 3) 5) = Some q /\
    (0 < q)%Q /\ (q <= inject_Z 100)%Q.
Proof.
  assert (H : Forall (fun i => NoDup (mentions i)) SampleRecords.aabab)
    by (repeat constructor; simpl; tauto).
  split; [exact H|].
  destruct (frequency_is_a_percentage SampleRecords.aabab H) as [Hall _].
  specialize (Hall _ eq_refl). inversion Hall as [|a l [_ [_ Hq]] _]; subst.
  apply Hq. cbn. lia.
Defined.

End DisplayProperties.

(** ** Quotes, key insights and reloading *)

Section QuoteProperties.

Import JS Analytics Ranking Shown AnalyticsPage.

Lemma displayed_quotes_flat insights :
  displayed_quotes insights
  = flat_map
      (fun i =>
         flat_map
           (fun q =>
              if truthy_opt (quote q) then
                [mkDisplayQuote q (or_else (projects i) "Unknown Project")
                   (match speaker q with
                    | Some sp => if String.eqb sp "User" then Some "Interviewee"
                                 else Some sp
                    | None => None
                    end)]
              else [])
           (opt_list (quotes i)))
      insights.
Proof.
  unfold displayed_quotes.
  erewrite fold_left_flat_map; [reflexivity|].
  intros acc i. unfold forEach_opt, opt_list.
  destruct (quotes i) as [l|]; [|now rewrite app_nil_r].
  apply fold_left_flat_map. intros acc' q.
  destruct (truthy_opt (quote q)); [reflexivity | now rewrite app_nil_r].
Qed.

Lemma displayed_quotes_quoted insights :
  map display_quote (displayed_quotes insights) = quoted insights.
Proof.
  rewrite displayed_quotes_flat. unfold quoted.
  induction insights as [|i insights IH]; [reflexivity|].
  cbn [flat_map]. rewrite map_app, IH. f_equal.
  induction (opt_list (quotes i)) as [|q l IHl]; [reflexivity|].
  cbn [flat_map filter]. rewrite map_app, IHl.
  destruct (truthy_opt (quote q)); reflexivity.
Qed.

(** When the aggregation returns, the page shows the first five quotes that
    have a text, in record order, each under a non-empty project title; a
    quote spoken by "User" is attributed to "Interviewee", every other
    speaker is shown as recorded.  When the aggregation throws, the quotes
    shown before stay. *)
Theorem shown_quotes_have_text_and_speaker :
  forall (engine : Engine) (st : Display) (insights : list InsightRecord),
    insights <> [] ->
    let quotes := displayQuotes (shown engine st insights) in
    (aborts insights = false ->
     map display_quote quotes = firstn 5 (quoted insights) /\
     Forall (fun d =>
               truthy_opt (quote (display_quote d)) = true /\
               truthy (project_title d) = true /\
               respondent d <> Some "User" /\
               (speaker (display_quote d) = Some "User" ->
                respondent d = Some "Interviewee") /\
               (speaker (display_quote d) <> Some "User" ->
                respondent d = speaker (display_quote d)))
       quotes) /\
    (aborts insights = true -> quotes = displayQuotes st).
Proof.
  intros engine st insights Hne quotes. subst quotes. split; intros Ha;
    [|now rewrite shown_throws].
  rewrite shown_returns by assumption. cbn [displayQuotes]. split.
  - rewrite <- firstn_map. now rewrite displayed_quotes_quoted.
  - apply Forall_forall. intros d Hd.
    assert (Hd' : In d (displayed_quotes insights)).
    { rewrite <- (firstn_skipn 5 (displayed_quotes insights)). apply in_or_app. now left. }
    rewrite displayed_quotes_flat in Hd'.
    apply in_flat_map in Hd'. destruct Hd' as [i [_ Hd']].
    apply in_flat_map in Hd'. destruct Hd' as [q [_ Hd']].
    destruct (truthy_opt (quote q)) eqn:Eq; [|contradiction].
    destruct Hd' as [<-|[]]. cbn [display_quote project_title respondent].
    split; [exact Eq|]. split; [now apply or_else_truthy|].
    destruct (speaker q) as [sp|]; [|repeat split; congruence].
    destruct (String.eqb sp "User") eqn:Esp.
    + apply String.eqb_eq in Esp. subst sp. repeat split; congruence.
    + apply String.eqb_neq in Esp. repeat split; congruence.
Qed.

Lemma shown_quotes_have_text_and_speaker_witness :
  map display_quote (displayQuotes (shown SampleRecords.as_given initial [full_record]))
  = [mkQuoteDB (Some "I gave up at the payment page") (Some "User") None].
Proof.
  destruct (shown_quotes_have_text_and_speaker SampleRecords.as_given initial [full_record])
    as [H _]; [discriminate|].
  destruct (H eq_refl) as [H' _]. rewrite H'. reflexivity.
Defined.

Lemma keyInsightsList_flat insights :
  keyInsightsList insights
  = flat_map
      (fun i =>
         map (fun s => mkDisplayKeyInsight "summary" (abbreviated 100 s)
                         (or_else (projects i) "General Insight") "medium"
                         (or_else (projects i) "N/A") 1)
             (counted (summary_text i)))
      (firstn 5 insights).
Proof.
  unfold keyInsightsList, slice0.
  erewrite fold_left_flat_map; [reflexivity|].
  intros acc i. cbn beta. unfold counted.
  destruct (summary_text i) as [s|]; [|now rewrite app_nil_r].
  destruct (truthy s); [|now rewrite app_nil_r].
  cbn [map]. now rewrite cut_abbreviated.
Qed.

(** When the aggregation returns, the key insights are taken from the first
    five records only: one entry for each of them that has a summary, titled
    with the summary cut to a hundred characters.  A summary held by a later
    record is never shown.  When the aggregation throws, the key insights
    shown before stay. *)
Theorem key_insights_come_from_the_first_five_records :
  forall (engine : Engine) (st : Display) (insights : list InsightRecord),
    insights <> [] ->
    let insights_shown := displayKeyInsights (shown engine st insights) in
    (aborts insights = false ->
     map insight_title insights_shown
     = map (abbreviated 100) (texts_of summary_text (firstn 5 insights)) /\
     length insights_shown <= 5 /\
     Forall (fun k =>
               String.length (insight_title k) <= 103 /\
               truthy (insight_title k) = true /\
               truthy (description k) = true /\
               truthy (project k) = true /\
               insight_responses k = 1)
       insights_shown) /\
    (aborts insights = true -> insights_shown = displayKeyInsights st) /\
    displayKeyInsights (shown engine st summary_in_sixth) = [].
Proof.
  intros engine st insights Hne insights_shown. subst insights_shown.
  split; [|split; [intros Ha; now rewrite shown_throws|]].
  2:{ rewrite shown_returns; [reflexivity | discriminate | reflexivity]. }
  intros Ha. rewrite shown_returns by assumption. cbn [displayKeyInsights].
  rewrite keyInsightsList_flat. split; [|split].
  - unfold texts_of. induction (firstn 5 insights) as [|i l IH]; [reflexivity|].
    cbn [flat_map]. rewrite !map_app, IH, map_map. reflexivity.
  - transitivity (length (firstn 5 insights)); [|apply firstn_le_length].
    induction (firstn 5 insights) as [|i l IH]; [reflexivity|].
    cbn [flat_map length]. rewrite length_app, length_map.
    assert (H : length (counted (summary_text i)) <= 1).
    { unfold counted. destruct (summary_text i) as [s|]; [destruct (truthy s)|];
        simpl; lia. }
    lia.
  - apply Forall_forall. intros k Hk.
    apply in_flat_map in Hk. destruct Hk as [i [_ Hk]].
    apply in_map_iff in Hk. destruct Hk as [s [<- Hs]].
    apply counted_truthy in Hs.
    cbn [insight_title description project insight_responses].
    split; [apply (abbreviated_length 100)|].
    split; [apply abbreviated_truthy; [exact Hs | lia]|].
    split; [now apply or_else_truthy|]. split; [now apply or_else_truthy | reflexivity].
Qed.

Lemma key_insights_come_from_the_first_five_records_witness :
  map insight_title (displayKeyInsights (shown SampleRecords.as_given initial [full_record]))
  = ["Checkout is the main obstacle"].
Proof.
  destruct (key_insights_come_from_the_first_five_records SampleRecords.as_given initial
              [full_record]) as [H _]; [discriminate|].
  destruct (H eq_refl) as [H' _]. rewrite H'. reflexivity.
Defined.

Lemma processDataForDisplay_fresh engine st1 st2 insights :
  insights <> [] -> aborts insights = false ->
  processDataForDisplay engine insights st1 = processDataForDisplay engine insights st2.
Proof. intros Hne Ha. now rewrite !processDataForDisplay_returns. Qed.

Lemma processDataForDisplay_idem engine st insights :
  processDataForDisplay engine insights (fst (processDataForDisplay engine insights st))
  = processDataForDisplay engine insights st.
Proof.
  destruct insights as [|i rest]; [reflexivity|].
  destruct (aborts (i :: rest)) eqn:Ha.
  - now rewrite !processDataForDisplay_throws.
  - rewrite !processDataForDisplay_returns by (discriminate || exact Ha). reflexivity.
Qed.

(** Loading the analytics.  A failed query reports an error and leaves the
    records and everything displayed as they were.  A successful one sets
    the records.  When there is a record and the aggregation returns, the
    error is cleared and the display is what the records give, independently
    of what was displayed before.  When the aggregation throws, the message
    of the exception is shown as error, and of the display the executive
    summary alone is new.  When there is no record, the error is cleared and
    the earlier rankings, summary, quotes and key insights stay under an
    overview of zero interviews.  Loading the same result again changes
    nothing more. *)
Theorem loading_the_analytics :
  forall (engine : Engine) (user : string) (q : InsightsQuery) (p : Page),
    let p' := fetchAndProcessInsights engine (Some user) q p in
    isLoading p' = false /\
    fetchAndProcessInsights engine (Some user) q p' = p' /\
    fetchAndProcessInsights engine None q p = p /\
    (forall is_Error message, q = QueryError is_Error message ->
       error p' <> None /\ allInsights p' = allInsights p /\ display p' = display p) /\
    (forall rows, q = QueryData (Some rows) -> rows <> [] -> aborts rows = false ->
       error p' = None /\ allInsights p' = rows /\
       forall p2, display (fetchAndProcessInsights engine (Some user) q p2) = display p') /\
    (forall rows, q = QueryData (Some rows) -> aborts rows = true ->
       error p' = Some (cannot_read "push") /\ allInsights p' = rows /\
       executiveSummary (display p')
       = mkExecutiveSummary (firstn 5 (texts_of whatWeLearned_of rows))
           (firstn 5 (texts_of whatToBuildNext_of rows)) /\
       topPainPoints (display p') = topPainPoints (display p) /\
       topFeatureRequests (display p') = topFeatureRequests (display p) /\
       displayQuotes (display p') = displayQuotes (display p) /\
       displayKeyInsights (display p') = displayKeyInsights (display p) /\
       overviewStats (display p') = overviewStats (display p)) /\
    (q = QueryData None \/ q = QueryData (Some []) ->
       error p' = None /\ allInsights p' = [] /\
       overviewStats (display p') = mkOverviewStats 0 "N/A" "N/A" /\
       executiveSummary (display p') = executiveSummary (display p) /\
       topPainPoints (display p') = topPainPoints (display p) /\
       topFeatureRequests (display p') = topFeatureRequests (display p) /\
       displayQuotes (display p') = displayQuotes (display p) /\
       displayKeyInsights (display p') = displayKeyInsights (display p)).
Proof.
  intros engine user q p p'. subst p'. unfold fetchAndProcessInsights.
  split.
  { destruct q as [b m|data]; [reflexivity|].
    now destruct (processDataForDisplay _ _ _) as [d [e|[]]]. }
  split.
  { destruct q as [b m|data]; [reflexivity|].
    set (rows := match data with Some l => l | None => [] end).
    pose proof (processDataForDisplay_idem engine (display p) rows) as Hidem.
    destruct (processDataForDisplay engine rows (display p)) as [d [e|[]]] eqn:E;
      cbn [display fst] in *; now rewrite Hidem. }
  split; [reflexivity|].
  split; [intros b m ->; cbn; repeat split; discriminate|].
  split.
  { intros rows -> Hne Ha. rewrite processDataForDisplay_returns by assumption.
    cbn [error allInsights display]. repeat split.
    intros p2. now rewrite processDataForDisplay_returns. }
  split.
  { intros rows -> Ha. rewrite processDataForDisplay_throws by assumption.
    cbn [error allInsights display executiveSummary topPainPoints topFeatureRequests
         displayQuotes displayKeyInsights overviewStats].
    rewrite learnedPoints_texts, buildPoints_texts. repeat split. }
  intros [->| ->]; cbn; repeat split.
Qed.

Lemma loading_the_analytics_witness :
  error (fetchAndProcessInsights SampleRecords.as_given (Some "u1")
           (QueryData (Some SampleRecords.severe_constructor_pain))
           (mkPage true None [] initial))
  = Some (cannot_read "push").
Proof.
  destruct (loading_the_analytics SampleRecords.as_given "u1"
              (QueryData (Some SampleRecords.severe_constructor_pain))
              (mkPage true None [] initial)) as (_ & _ & _ & _ & _ & H & _).
  destruct (H _ eq_refl eq_refl) as [He _]. exact He.
Defined.

End QuoteProperties.
